(** * WahGPT-Bot: the search/browse navigation engine

    A shallow embedding of [SearchCommandHandler], [WebSearchService] and the
    command switch of [MessageService], with the properties the specification
    states about them.

    Conventions of the model.
    - JavaScript strings are [string]s; their characters are read as ASCII
      (bytes above 127 are carried around untouched, so the pictographs of the
      reply templates are their UTF-8 bytes).  White space is the ASCII part
      of the ECMAScript class [\s], and [toLowerCase] folds [A-Z].
    - JavaScript numbers that the code computes with are integers ([Z]) or
      [NaN]; [Map]s are [gmap]s keyed by the user identifier.
    - Every [async] method is a state transformer over the stores; what the
      outside world answers (search provider, page reader, URL parser) is a
      record of functions handed to the method.
    - [adapter.sendMessage] appends to an outbox and does not fail. *)

From Stdlib Require Import ZArith Ascii String.
From stdpp Require Import base option list gmap strings pretty.

Local Open Scope Z_scope.

(** ** JavaScript primitives *)

Module Js.

(** A number as the handlers see it: the result of [parseInt], or an id. *)
Inductive num := NaN | Num (z : Z).

Definition isNaN (n : num) : bool :=
  match n with NaN => true | Num _ => false end.

(** [`${n}`] *)
Definition num_to_string (n : num) : string :=
  match n with NaN => "NaN" | Num z => pretty z end.

(** [`${x}`] for a property that may be missing. *)
Definition tpl (x : option string) : string := default "undefined" x.

(** Truthiness of an optional string: [undefined] and [''] are falsy. *)
Definition truthy (x : option string) : bool :=
  match x with Some (String _ _) => true | _ => false end.

(** [a || b] on optional strings. *)
Definition or_else (a b : option string) : option string :=
  if truthy a then a else b.

(** The ASCII members of the white space that [trim], [split(/\s+/)],
    [replace(/\s+/g, ...)] and [parseInt] skip: tab, line feed, vertical
    tab, form feed, carriage return and space.  The engine also takes
    U+00A0 and the other Unicode spaces, which are letters here: what is
    stated of arbitrary text through these functions is stated of
    [is_ascii] text. *)
Definition is_ws (c : ascii) : bool := Ascii.is_space c.

(** No character of the text is above 127.  On such text [is_ws],
    [toLowerCase] and [toUpperCase] are the engine's. *)
Definition is_ascii (s : string) : bool :=
  forallb (λ c, (nat_of_ascii c <? 128)%nat) (list_ascii_of_string s).

Definition lower_char (c : ascii) : ascii :=
  let n := nat_of_ascii c in
  if ((65 <=? n)%nat && (n <=? 90)%nat)%bool then ascii_of_nat (n + 32) else c.

(** [toLowerCase] on [A-Z]; the engine also folds letters above 127
    (U+212A to [k], for one). *)
Fixpoint toLowerCase (s : string) : string :=
  match s with
  | EmptyString => EmptyString
  | String c r => String (lower_char c) (toLowerCase r)
  end.

Definition upper_char (c : ascii) : ascii :=
  let n := nat_of_ascii c in
  if ((97 <=? n)%nat && (n <=? 122)%nat)%bool then ascii_of_nat (n - 32) else c.

Fixpoint toUpperCase (s : string) : string :=
  match s with
  | EmptyString => EmptyString
  | String c r => String (upper_char c) (toUpperCase r)
  end.

Fixpoint trimStart (s : string) : string :=
  match s with
  | String c r => if is_ws c then trimStart r else s
  | EmptyString => EmptyString
  end.

Definition trimEnd (s : string) : string :=
  String.rev (trimStart (String.rev s)).

Definition trim (s : string) : string := trimEnd (trimStart s).

Fixpoint startsWith (s p : string) : bool :=
  match p, s with
  | EmptyString, _ => true
  | String a p', String b s' => if Ascii.eqb a b then startsWith s' p' else false
  | String _ _, EmptyString => false
  end.

Definition endsWith (s p : string) : bool :=
  startsWith (String.rev s) (String.rev p).

Fixpoint includes (s p : string) : bool :=
  if startsWith s p then true
  else match s with
       | EmptyString => false
       | String _ r => includes r p
       end.

(** [s.substring(n)] for a literal [n >= 0]. *)
Fixpoint drop_chars (n : nat) (s : string) : string :=
  match n, s with
  | O, _ => s
  | S n', String _ r => drop_chars n' r
  | S _, EmptyString => EmptyString
  end.

Fixpoint take_chars (n : nat) (s : string) : string :=
  match n, s with
  | S n', String c r => String c (take_chars n' r)
  | _, _ => EmptyString
  end.

Definition length (s : string) : Z := Z.of_nat (String.length s).

(** [s.substring(a, b)]: both ends are clamped to [0 .. length] and put
    in order. *)
Definition substring (s : string) (a b : Z) : string :=
  let clamp x := Z.max 0 (Z.min x (length s)) in
  let lo := Z.min (clamp a) (clamp b) in
  let hi := Z.max (clamp a) (clamp b) in
  take_chars (Z.to_nat (hi - lo)) (drop_chars (Z.to_nat lo) s).

(** [s.split(sep)[0]] for a one-character separator. *)
Fixpoint before_char (sep : ascii) (s : string) : string :=
  match s with
  | EmptyString => EmptyString
  | String c r => if Ascii.eqb c sep then EmptyString else String c (before_char sep r)
  end.

(** [s.split(/\s+/)]: the maximal runs between white space; a separator at
    either end leaves an empty piece there, and [''] splits to [['']]. *)
Fixpoint split_ws_go (cur : string) (in_sep : bool) (s : string) : list string :=
  match s with
  | EmptyString => [String.rev cur]
  | String c r =>
      if is_ws c then
        if in_sep then split_ws_go cur true r
        else String.rev cur :: split_ws_go EmptyString true r
      else split_ws_go (String c cur) false r
  end.

Definition split_ws (s : string) : list string := split_ws_go EmptyString false s.

(** [s.replace(/\s+/g, ' ')] *)
Fixpoint collapse_ws_go (in_sep : bool) (s : string) : string :=
  match s with
  | EmptyString => EmptyString
  | String c r =>
      if is_ws c then
        if in_sep then collapse_ws_go true r
        else String " " (collapse_ws_go true r)
      else String c (collapse_ws_go false r)
  end.

Definition collapse_ws (s : string) : string := collapse_ws_go false s.

(** [args.join(' ')] *)
Fixpoint join_sp (l : list string) : string :=
  match l with
  | [] => ""
  | [x] => x
  | x :: r => x +:+ " " +:+ join_sp r
  end.

(** [l.join(', ')] *)
Fixpoint join_comma (l : list string) : string :=
  match l with
  | [] => ""
  | [x] => x
  | x :: r => x +:+ ", " +:+ join_comma r
  end.

(** [l.slice(0, e)] *)
Definition slice0 {A} (l : list A) (e : Z) : list A :=
  let len := Z.of_nat (List.length l) in
  let k := if e <? 0 then Z.max (len + e) 0 else Z.min e len in
  take (Z.to_nat k) l.

(** [l.slice(start)] *)
Definition slice_from {A} (l : list A) (start : Z) : list A :=
  let len := Z.of_nat (List.length l) in
  let k := if start <? 0 then Z.max (len + start) 0 else Z.min start len in
  drop (Z.to_nat k) l.

(** Value of a digit in radix 10 or 16. *)
Definition digit_val (radix : Z) (c : ascii) : option Z :=
  let n := Z.of_nat (nat_of_ascii c) in
  if (48 <=? n) && (n <=? 57) then Some (n - 48)
  else if (radix =? 16) && (97 <=? n) && (n <=? 102) then Some (n - 87)
  else if (radix =? 16) && (65 <=? n) && (n <=? 70) then Some (n - 55)
  else None.

(** The longest run of digits at the front of [s], most significant first;
    [None] when there is no digit at all. *)
Fixpoint digits (radix : Z) (acc : option Z) (s : string) : option Z :=
  match s with
  | EmptyString => acc
  | String c r =>
      match digit_val radix c with
      | Some d => digits radix (Some (default 0 acc * radix + d)) r
      | None => acc
      end
  end.

(** [parseInt(s)] with no radix argument.  The value is the exact integer
    of the digit run; the engine gives the nearest double, which is the
    same number up to 2^53. *)
Definition parseInt (s : string) : num :=
  let s1 := trimStart s in
  let '(neg, s2) :=
    match s1 with
    | String "-" r => (true, r)
    | String "+" r => (false, r)
    | _ => (false, s1)
    end in
  let '(radix, s3) :=
    if startsWith s2 "0x" || startsWith s2 "0X"
    then (16, drop_chars 2 s2) else (10, s2) in
  match digits radix None s3 with
  | None => NaN
  | Some v => Num (if neg then - v else v)
  end.

(** [parseInt(args[0])]: a missing argument is the string ["undefined"]. *)
Definition parseInt_arg (a : option string) : num := parseInt (tpl a).

End Js.

(** ** Data model *)

(** [error.message] is all the handlers read of a caught exception; the
    constructor tells a [throw new Error(...)] of the code from a
    [TypeError] raised by the engine. *)
Inductive exn := Error (msg : string) | TypeError (msg : string).

Definition message (e : exn) : string :=
  match e with Error m | TypeError m => m end.

Inductive res (A : Type) := Ok (a : A) | Throw (e : exn).
Arguments Ok {A} a.
Arguments Throw {A} e.

Definition nl : string := String "010"%char EmptyString.

(** *** Search results *)

(** One entry of [searchData.organic] as the provider sends it. *)
Record RawOrganic := {
  raw_title : option string;
  raw_link : string;
  raw_snippet : option string;
  raw_position : option Z
}.

Record RawKnowledge := {
  kg_title : option string;
  kg_type : option string;
  kg_description : option string;
  kg_attributes : option (list (string * string))
}.

Record RawAnswerBox := {
  ab_title : option string;
  ab_answer : option string;
  ab_snippet : option string
}.

Record RawQuestion := {
  paa_question : option string;
  paa_answer : option string
}.

(** [response.data]; a section is [None] when it is missing (for the two
    arrays also when it is not an array). *)
Record SearchData := {
  sd_organic : option (list RawOrganic);
  sd_knowledgeGraph : option RawKnowledge;
  sd_answerBox : option RawAnswerBox;
  sd_peopleAlsoAsk : option (list RawQuestion)
}.

(** An entry of [formatted.organic]; its [type] is always ['organic']. *)
Record Organic := {
  id : Z;
  title : option string;
  link : string;
  snippet : option string;
  position : option Z
}.

Record SearchResults := {
  organic : list Organic;
  knowledge : option RawKnowledge;
  answerBox : option RawAnswerBox;
  peopleAlsoAsk : list RawQuestion
}.

(** *** Pages *)

Record Link := { text : string; url : string }.

(** What [processArticle] returns.  The three optional fields are missing
    from the object built in its [catch] branch. *)
Record Content := {
  c_title : string;
  c_siteName : option string;
  c_excerpt : option string;
  c_textContent : string;
  c_fullTextContent : option string;
  c_url : string;
  c_links : option (list Link)
}.

(** A value of the [currentWebpageContent] map: [{ url, content }]. *)
Record PageEntry := { pe_url : string; pe_content : Content }.

(** An [<a>] element as [extractLinks] reads it. *)
Record Anchor := {
  a_href : option string;
  a_text : string;
  a_title : option string;
  a_aria_label : option string;
  a_alt : option string
}.

(** The parsed page, seen through the selectors the code runs on it:
    - [d_anchors]: [$('a')], in document order;
    - [d_references]: [$('sup.reference, .reference')], each with
      [$element.find('a').first()];
    - [d_refTarget refId]: [$(`#${refId}`).parent().find('a.external')],
      [None] when the selector is rejected;
    - [d_refList]: [$('.references a.external')];
    - [d_metaSiteName]: the [content] of the [og:site_name] meta tag. *)
Record Document := {
  d_anchors : list Anchor;
  d_references : list (option Anchor);
  d_refTarget : string → option (list Anchor);
  d_refList : list Anchor;
  d_metaSiteName : option string
}.

(** What node-readability hands back for a page; [art_plainText] is
    [convert(article.content || '', ...)], [None] if the conversion raises. *)
Record Article := {
  art_title : option string;
  art_plainText : option string;
  art_textBody : option string;
  art_document : option Document
}.

(** *** Sessions *)

Inductive Mode := chat | browse.
(** The values of [lastAction]: ['search'], ['open'], ['link']. *)
Inductive Action := did_search | did_open | did_link.

(** A value of the [userStates] map; a property that the object literal
    does not set is [None]. *)
Record UserState := {
  mode : option Mode;
  lastAction : option Action;
  query : option string;
  currentUrl : option string;
  resultId : option Js.num
}.

#[global] Instance Mode_eq_dec : EqDecision Mode.
Proof. solve_decision. Defined.
#[global] Instance Action_eq_dec : EqDecision Action.
Proof. solve_decision. Defined.

(** [{ mode: 'chat' }] *)
Definition chat_state : UserState :=
  {| mode := Some chat; lastAction := None; query := None;
     currentUrl := None; resultId := None |}.

(** *** Configuration and the outside world *)

Record Config := {
  serperApiKey : option string;
  searchResultsLimit : Z;
  contentSummaryLength : Z
}.

(** The constructor's defaults; the key comes from the environment. *)
Definition default_config (key : option string) : Config :=
  {| serperApiKey := key; searchResultsLimit := 5; contentSummaryLength := 1000 |}.

(** Answers of the collaborators during one call:
    - [axios_post q]: [response.data] of the provider, or the error raised;
    - [readAsync u]: the article node-readability builds for [u], or the
      error raised;
    - [url_href h b]: [new URL(h, b).href], [None] when it throws;
    - [url_hostname u]: [new URL(u).hostname], [None] when it throws. *)
Record World := {
  axios_post : string → res SearchData;
  readAsync : string → res Article;
  url_href : string → string → option string;
  url_hostname : string → option string
}.

(** ** WebSearchService *)

(** The three maps of the service, keyed by user. *)
Record WebSearchService := {
  currentSearchResults : gmap string SearchResults;
  currentWebpageContent : gmap string PageEntry;
  contentPositions : gmap string Z
}.

Definition new_service : WebSearchService :=
  {| currentSearchResults := ∅; currentWebpageContent := ∅; contentPositions := ∅ |}.

Definition set_currentSearchResults (m : gmap string SearchResults)
    (s : WebSearchService) : WebSearchService :=
  {| currentSearchResults := m;
     currentWebpageContent := currentWebpageContent s;
     contentPositions := contentPositions s |}.

Definition set_currentWebpageContent (m : gmap string PageEntry)
    (s : WebSearchService) : WebSearchService :=
  {| currentSearchResults := currentSearchResults s;
     currentWebpageContent := m;
     contentPositions := contentPositions s |}.

Definition set_contentPositions (m : gmap string Z)
    (s : WebSearchService) : WebSearchService :=
  {| currentSearchResults := currentSearchResults s;
     currentWebpageContent := currentWebpageContent s;
     contentPositions := m |}.

(** *** formatSearchResults *)

Definition format_organic (index : nat) (result : RawOrganic) : Organic :=
  {| id := Z.of_nat index + 1;
     title := raw_title result;
     link := raw_link result;
     snippet := raw_snippet result;
     position := raw_position result |}.

Definition formatSearchResults (cfg : Config) (searchData : SearchData) : SearchResults :=
  {| organic :=
       match sd_organic searchData with
       | Some l => imap format_organic (Js.slice0 l (searchResultsLimit cfg))
       | None => []
       end;
     knowledge := sd_knowledgeGraph searchData;
     answerBox := sd_answerBox searchData;
     peopleAlsoAsk :=
       match sd_peopleAlsoAsk searchData with
       | Some l => Js.slice0 l 3
       | None => []
       end |}.

(** *** getSearchResultById *)

(** [result.id === resultId]; [NaN] is equal to nothing. *)
Definition id_is (resultId : Js.num) (result : Organic) : bool :=
  match resultId with
  | Js.Num z => id result =? z
  | Js.NaN => false
  end.

Definition getSearchResultById (s : WebSearchService) (userId : string)
    (resultId : Js.num) : option Organic :=
  match currentSearchResults s !! userId with
  | None => None
  | Some results => List.find (id_is resultId) (organic results)
  end.

(** *** extractLinks *)

Definition fileExtensions : list string :=
  ["jpg"; "jpeg"; "png"; "gif"; "bmp"; "svg"; "webp"; "pdf"; "doc"; "docx";
   "xls"; "xlsx"; "ppt"; "pptx"; "zip"; "rar"; "tar"; "gz"; "mp3"; "mp4";
   "avi"; "mov"; "wav"; "flac"; "ogg"].

(** [fileExtensions.test(url)]: the url ends in a dot and one of the
    extensions, letter case ignored. *)
Definition has_fileExtension (u : string) : bool :=
  existsb (λ e, Js.endsWith (Js.toLowerCase u) ("." +:+ e)) fileExtensions.

(** The schemes of [nonNavigablePatterns], each matched at the start with
    letter case ignored. *)
Definition nonNavigableSchemes : list string :=
  ["javascript:"; "mailto:"; "tel:"; "sms:"; "data:"; "blob:"].

(** Some pattern of [nonNavigablePatterns] matches; [/^#$/] is the bare
    fragment. *)
Definition is_nonNavigable (u : string) : bool :=
  existsb (Js.startsWith (Js.toLowerCase u)) nonNavigableSchemes || String.eqb u "#".

Definition shouldExcludeUrl (u : option string) : bool :=
  match u with
  | Some (String _ _ as s) => is_nonNavigable s || has_fileExtension s
  | _ => true
  end.

(** [href.replace(/^https?:\/\//, '')] *)
Definition strip_http (href : string) : string :=
  if Js.startsWith href "https://" then Js.drop_chars 8 href
  else if Js.startsWith href "http://" then Js.drop_chars 7 href
  else href.

(** The accumulators of [extractLinks]: [links] and [seenUrls]. *)
Definition LinkAcc : Type := list Link * gset string.

(** Body of [$('a').each(...)]. *)
Definition anchor_step (w : World) (baseUrl : string) (acc : LinkAcc)
    (element : Anchor) : LinkAcc :=
  let '(links, seenUrls) := acc in
  match a_href element with
  | Some (String _ _ as href) =>
      if shouldExcludeUrl (Some href) then acc
      else
        match url_href w href baseUrl with
        | None => acc
        | Some absoluteUrl =>
            if String.eqb (Js.before_char "#" absoluteUrl) (Js.before_char "#" baseUrl)
               && Js.startsWith href "#"
            then acc
            else if bool_decide (absoluteUrl ∈ seenUrls) then acc
            else
              let linkText := Js.trim (a_text element) in
              let linkText :=
                if (negb (Js.truthy (Some linkText)) || (Js.length linkText <? 2))%bool
                then default "Link"
                       (Js.or_else (a_title element)
                         (Js.or_else (a_aria_label element)
                           (Js.or_else (a_alt element)
                             (Js.or_else (Some (Js.before_char "/" (strip_http href)))
                                         (Some "Link")))))
                else linkText in
              let linkText := Js.trim (Js.collapse_ws linkText) in
              (links ++ [{| text := linkText; url := absoluteUrl |}],
               {[absoluteUrl]} ∪ seenUrls)
        end
  | _ => acc
  end.

(** [$refLink.text()]: the texts of all matched elements, concatenated. *)
Definition text_of (l : list Anchor) : string :=
  foldr (λ a r, a_text a +:+ r) "" l.

(** Body of [$('sup.reference, .reference').each(...)]. *)
Definition citation_step (w : World) (doc : Document) (baseUrl : string)
    (acc : LinkAcc) (ie : nat * option Anchor) : LinkAcc :=
  let '(links, seenUrls) := acc in
  let '(index, first_a) := ie in
  match first_a with
  | Some a =>
      match a_href a with
      | Some (String _ _ as href) =>
          let refId := if Js.startsWith href "#" then Js.drop_chars 1 href else href in
          match d_refTarget doc refId with
          | Some ((first_ext :: _) as refLink) =>
              match a_href first_ext with
              | Some externalHref =>
                  if negb (shouldExcludeUrl (Some externalHref))
                     && negb (bool_decide (externalHref ∈ seenUrls))
                  then
                    let t := Js.trim (text_of refLink) in
                    let citationText :=
                      if Js.truthy (Some t) then t
                      else "Citation " +:+ pretty (Z.of_nat index + 1) in
                    match url_href w externalHref baseUrl with
                    | Some u =>
                        (links ++ [{| text := citationText; url := u |}],
                         {[externalHref]} ∪ seenUrls)
                    | None => acc
                    end
                  else acc
              | None => acc
              end
          | _ => acc
          end
      | _ => acc
      end
  | None => acc
  end.

(** Body of [$('.references a.external').each(...)]. *)
Definition reference_step (w : World) (baseUrl : string)
    (acc : LinkAcc) (ie : nat * Anchor) : LinkAcc :=
  let '(links, seenUrls) := acc in
  let '(index, element) := ie in
  match a_href element with
  | Some href =>
      if negb (shouldExcludeUrl (Some href)) && negb (bool_decide (href ∈ seenUrls))
      then
        match url_href w href baseUrl with
        | Some absoluteUrl =>
            if bool_decide (absoluteUrl ∈ seenUrls) then acc
            else
              let t := Js.trim (a_text element) in
              let linkText :=
                if Js.truthy (Some t) then t
                else "Reference " +:+ pretty (Z.of_nat index + 1) in
              (links ++ [{| text := linkText; url := absoluteUrl |}],
               {[absoluteUrl]} ∪ seenUrls)
        | None => acc
        end
      else acc
  | None => acc
  end.

Definition indexed {A} (l : list A) : list (nat * A) := imap (λ i x, (i, x)) l.

(** The whole of [extractLinks]; a missing document makes the first
    statement of the [try] raise, and the empty list is returned. *)
Definition extractLinks (w : World) (document : option Document)
    (baseUrl : string) : list Link :=
  match document with
  | None => []
  | Some doc =>
      let acc := foldl (anchor_step w baseUrl) ([], ∅) (d_anchors doc) in
      let acc :=
        if Js.includes baseUrl "wikipedia.org" then
          let acc := foldl (citation_step w doc baseUrl) acc (indexed (d_references doc)) in
          foldl (reference_step w baseUrl) acc (indexed (d_refList doc))
        else acc in
      acc.1
  end.

(** *** processArticle and browseWebpage *)

(** [s.replace(p, '')] for a string pattern: the first occurrence goes. *)
Fixpoint remove_first (p s : string) : string :=
  if Js.startsWith s p then Js.drop_chars (String.length p) s
  else match s with
       | EmptyString => EmptyString
       | String c r => String c (remove_first p r)
       end.

(** [x || d] where [d] is a string literal. *)
Definition or_default (x : option string) (d : string) : string :=
  default d (Js.or_else x None).

Definition extractSiteName (w : World) (url : string)
    (document : option Document) : string :=
  match document with
  | Some doc =>
      if Js.truthy (d_metaSiteName doc) then default "" (d_metaSiteName doc)
      else match url_hostname w url with
           | Some hostname => remove_first "www." hostname
           | None => ""
           end
  | None => default "" (url_hostname w url)
  end.

Definition processArticle (w : World) (cfg : Config) (article : Article)
    (url : string) : Content :=
  match art_plainText article with
  | Some plainText =>
      let title := or_default (art_title article) "Untitled" in
      let textContent := or_default (art_textBody article) "" in
      let links := extractLinks w (art_document article) url in
      let excerpt := Js.before_char "010" (Js.trim textContent) in
      let truncatedText :=
        if contentSummaryLength cfg <? Js.length plainText
        then Js.substring plainText 0 (contentSummaryLength cfg) +:+ "..."
        else plainText in
      {| c_title := title;
         c_siteName := Some (extractSiteName w url (art_document article));
         c_excerpt := Some excerpt;
         c_textContent := truncatedText;
         c_fullTextContent := Some plainText;
         c_url := url;
         c_links := Some (Js.slice0 links 15) |}
  | None =>
      {| c_title := or_default (art_title article) "Content Processing Failed";
         c_siteName := None;
         c_excerpt := None;
         c_textContent :=
           or_default (art_textBody article)
                      "Could not process content from this webpage.";
         c_fullTextContent := None;
         c_url := url;
         c_links := None |}
  end.

Definition browseWebpage (w : World) (cfg : Config) (s : WebSearchService)
    (url userId : string) : res Content * WebSearchService :=
  match readAsync w url with
  | Ok article =>
      let extractedContent := processArticle w cfg article url in
      (Ok extractedContent,
       set_currentWebpageContent
         (<[userId := {| pe_url := url; pe_content := extractedContent |}]>
            (currentWebpageContent s)) s)
  | Throw error =>
      (Throw (Error ("Failed to browse the webpage: " +:+ message error)), s)
  end.

(** *** searchWeb *)

Definition searchWeb (w : World) (cfg : Config) (s : WebSearchService)
    (query userId : string) : res SearchResults * WebSearchService :=
  let wrap error := Throw (Error ("Failed to search the web: " +:+ message error)) in
  if negb (Js.truthy (serperApiKey cfg)) then
    (wrap (Error "Serper API key is not configured. Please set the SERPER_API_KEY environment variable."), s)
  else
    match axios_post w query with
    | Ok data =>
        let formattedResults := formatSearchResults cfg data in
        (Ok formattedResults,
         set_currentSearchResults
           (<[userId := formattedResults]> (currentSearchResults s)) s)
    | Throw error => (wrap error, s)
    end.

(** *** followLink *)

Module JsNum.
(** [n - 1], [a < b], [a >= b] and [l[i]] on numbers that may be [NaN]:
    every comparison with [NaN] is false, and no element sits at [NaN]. *)
Definition pred (n : Js.num) : Js.num :=
  match n with Js.NaN => Js.NaN | Js.Num z => Js.Num (z - 1) end.

Definition ltb (a : Js.num) (b : Z) : bool :=
  match a with Js.NaN => false | Js.Num z => z <? b end.

Definition geb (a : Js.num) (b : Z) : bool :=
  match a with Js.NaN => false | Js.Num z => b <=? z end.

Definition index {A} (l : list A) (i : Js.num) : option A :=
  match i with
  | Js.NaN => None
  | Js.Num z => if z <? 0 then None else l !! Z.to_nat z
  end.
End JsNum.

(** What V8 reports for [link.text] when [link] is [undefined]. *)
Definition undefined_read (prop : string) : exn :=
  TypeError ("Cannot read properties of undefined (reading '" +:+ prop +:+ "')").

Definition invalid_link_number (count : nat) : exn :=
  Error ("Invalid link number. Please use a number between 1 and "
         +:+ pretty (Z.of_nat count)).

Definition followLink (w : World) (cfg : Config) (s : WebSearchService)
    (userId : string) (linkId : Js.num) : res Content * WebSearchService :=
  match currentWebpageContent s !! userId with
  | None => (Throw (Error "No current webpage content available"), s)
  | Some userContent =>
      match c_links (pe_content userContent) with
      | None | Some [] => (Throw (Error "No links available on this page"), s)
      | Some links =>
          let index := JsNum.pred linkId in
          if JsNum.ltb index 0 || JsNum.geb index (Z.of_nat (List.length links))
          then (Throw (invalid_link_number (List.length links)), s)
          else
            match JsNum.index links index with
            | None => (Throw (undefined_read "text"), s)
            | Some link => browseWebpage w cfg s (url link) userId
            end
      end
  end.

(** *** getMoreContent and clearUserContent *)

Definition getMoreContent (cfg : Config) (s : WebSearchService)
    (userId : string) : res string * WebSearchService :=
  match currentWebpageContent s !! userId with
  | None => (Ok "No current webpage content available", s)
  | Some userContent =>
      let s :=
        match contentPositions s !! userId with
        | Some _ => s
        | None =>
            set_contentPositions
              (<[userId := contentSummaryLength cfg]> (contentPositions s)) s
        end in
      let currentPosition := default 0 (contentPositions s !! userId) in
      let nextPosition := currentPosition + contentSummaryLength cfg in
      match c_fullTextContent (pe_content userContent) with
      | None => (Throw (undefined_read "length"), s)
      | Some fullContent =>
          if Js.length fullContent <=? currentPosition then (Ok "", s)
          else
            (Ok (Js.substring fullContent currentPosition
                   (Z.min nextPosition (Js.length fullContent))),
             set_contentPositions
               (<[userId := nextPosition]> (contentPositions s)) s)
      end
  end.

Definition clearUserContent (s : WebSearchService) (userId : string)
    : WebSearchService :=
  {| currentSearchResults := delete userId (currentSearchResults s);
     currentWebpageContent := delete userId (currentWebpageContent s);
     contentPositions := delete userId (contentPositions s) |}.

(** *** The two message formatters *)

Definition dq : string := String "034"%char EmptyString.

Definition concat_map {A} (f : A → string) (l : list A) : string :=
  foldr (λ x r, f x +:+ r) "" l.

Definition formatSearchResultsMessage (results : SearchResults) : string :=
  "*📊 Search Results*" +:+ nl +:+ nl
  +:+ match answerBox results with
      | Some ab =>
          "*Quick Answer:*" +:+ nl
          +:+ Js.tpl (Js.or_else (ab_answer ab) (ab_snippet ab)) +:+ nl +:+ nl
      | None => ""
      end
  +:+ match knowledge results with
      | Some kg =>
          "*" +:+ Js.tpl (kg_title kg) +:+ "* (" +:+ Js.tpl (kg_type kg) +:+ ")" +:+ nl
          +:+ Js.tpl (kg_description kg) +:+ nl +:+ nl
          +:+ match kg_attributes kg with
              | Some attrs =>
                  concat_map (λ kv, "- " +:+ kv.1 +:+ ": " +:+ kv.2 +:+ nl) attrs +:+ nl
              | None => ""
              end
      | None => ""
      end
  +:+ "*Web Results:*" +:+ nl
  +:+ match organic results with
      | [] => "No results found." +:+ nl +:+ nl
      | l =>
          concat_map (λ result,
            "*" +:+ pretty (id result) +:+ ".* " +:+ Js.tpl (title result) +:+ nl
            +:+ Js.tpl (snippet result) +:+ nl
            +:+ "Type *!open " +:+ pretty (id result) +:+ "* to read more" +:+ nl +:+ nl) l
      end
  +:+ match peopleAlsoAsk results with
      | [] => ""
      | l =>
          "*People also ask:*" +:+ nl
          +:+ concat_map (λ item, "- " +:+ Js.tpl (paa_question item) +:+ nl) l
      end
  +:+ nl +:+ "*Commands:*" +:+ nl
  +:+ "- *!search [query]* - Search for something new" +:+ nl
  +:+ "- *!open [number]* - Open a search result" +:+ nl
  +:+ "- *!back* - Return to search results" +:+ nl.

Definition formatWebpageContentMessage (content : Content) : string :=
  "*📄 " +:+ c_title content +:+ "*" +:+ nl
  +:+ (if Js.truthy (c_siteName content)
       then "Source: " +:+ Js.tpl (c_siteName content) +:+ nl else "")
  +:+ "URL: " +:+ c_url content +:+ nl +:+ nl
  +:+ (if Js.truthy (c_excerpt content)
       then "*Summary:* " +:+ Js.tpl (c_excerpt content) +:+ nl +:+ nl else "")
  +:+ c_textContent content
  +:+ match c_links content with
      | Some ((_ :: _) as links) =>
          nl +:+ nl +:+ "*📌 Navigatable Links:*" +:+ nl
          +:+ "(" +:+ pretty (Z.of_nat (List.length links))
          +:+ " links available - use !link [number] to navigate)" +:+ nl
          +:+ concat_map (λ il : nat * Link,
                let linkText :=
                  if 40 <? Js.length (text il.2)
                  then Js.substring (text il.2) 0 37 +:+ "..."
                  else text il.2 in
                "*" +:+ pretty (Z.of_nat il.1 + 1) +:+ ".* " +:+ linkText +:+ nl)
              (indexed (Js.slice0 links 10))
      | _ => nl +:+ nl +:+ "*No navigatable links available on this page*" +:+ nl
      end
  +:+ nl +:+ "*Commands:*" +:+ nl
  +:+ "- *!back* - Return to search results" +:+ nl
  +:+ "- *!link [number]* - Follow a link on this page" +:+ nl
  +:+ "- *!more* - Show more content" +:+ nl
  +:+ "- *!search [query]* - Search for something new" +:+ nl.

(** ** SearchCommandHandler *)

(** The handler's [userStates] map, the service it owns, and the messages
    handed to [adapter.sendMessage] so far, oldest first. *)
Record SearchCommandHandler := {
  userStates : gmap string UserState;
  webSearchService : WebSearchService;
  sent : list (string * string)
}.

Definition new_handler : SearchCommandHandler :=
  {| userStates := ∅; webSearchService := new_service; sent := [] |}.

(** [await this.adapter.sendMessage(recipient, text)] *)
Definition sendMessage (recipient text : string) (h : SearchCommandHandler)
    : SearchCommandHandler :=
  {| userStates := userStates h;
     webSearchService := webSearchService h;
     sent := sent h ++ [(recipient, text)] |}.

(** [this.userStates.set(sender, st)] *)
Definition set_userState (sender : string) (st : UserState)
    (h : SearchCommandHandler) : SearchCommandHandler :=
  {| userStates := <[sender := st]> (userStates h);
     webSearchService := webSearchService h;
     sent := sent h |}.

Definition set_service (s : WebSearchService) (h : SearchCommandHandler)
    : SearchCommandHandler :=
  {| userStates := userStates h; webSearchService := s; sent := sent h |}.

(** The fixed replies. *)
Definition msg_exited : string := "Exited search mode. Back to normal chat.".
Definition msg_no_previous_state : string := "There's no previous state to go back to.".
Definition msg_already_at_results : string := "You're already at the search results.".
Definition msg_no_search_results : string :=
  "No search results available. Please try a new search.".
Definition msg_result_not_found : string :=
  "Sorry, I couldn't find that search result. Please try searching again.".
Definition msg_no_more_content : string :=
  "Sorry, there's no more content available for this page.".

Section Handlers.

Variable w : World.
Variable cfg : Config.

Definition handleWebSearch (h : SearchCommandHandler) (sender query : string)
    : SearchCommandHandler :=
  let h := sendMessage sender ("🔍 Searching for: " +:+ dq +:+ query +:+ dq +:+ "...") h in
  match searchWeb w cfg (webSearchService h) query sender with
  | (Ok results, s) =>
      let h := set_service s h in
      let formattedResults := formatSearchResultsMessage results in
      let h := set_userState sender
                 {| mode := Some browse; lastAction := Some did_search;
                    query := Some query; currentUrl := None; resultId := None |} h in
      sendMessage sender formattedResults h
  | (Throw error, s) =>
      sendMessage sender
        ("Sorry, I encountered an error while searching: " +:+ message error)
        (set_service s h)
  end.

Definition handleOpenResult (h : SearchCommandHandler) (sender : string)
    (resultId : Js.num) : SearchCommandHandler :=
  match getSearchResultById (webSearchService h) sender resultId with
  | None => sendMessage sender msg_result_not_found h
  | Some result =>
      let h := sendMessage sender
                 ("📄 Opening: " +:+ dq +:+ Js.tpl (title result) +:+ dq +:+ "...") h in
      match browseWebpage w cfg (webSearchService h) (link result) sender with
      | (Ok content, s) =>
          let h := set_service s h in
          let formattedContent := formatWebpageContentMessage content in
          let h := set_userState sender
                     {| mode := Some browse; lastAction := Some did_open;
                        query := None; currentUrl := Some (link result);
                        resultId := Some resultId |} h in
          sendMessage sender formattedContent h
      | (Throw error, s) =>
          sendMessage sender
            ("Sorry, I encountered an error opening that page: " +:+ message error)
            (set_service s h)
      end
  end.

Definition handleBackCommand (h : SearchCommandHandler) (sender : string)
    : SearchCommandHandler :=
  match userStates h !! sender with
  | None =>
      sendMessage sender msg_no_previous_state (set_userState sender chat_state h)
  | Some userState =>
      if bool_decide (lastAction userState = Some did_search) then
        sendMessage sender msg_already_at_results h
      else
        match query userState with
        | Some (String _ _ as q) => handleWebSearch h sender q
        | _ =>
            set_userState sender chat_state
              (sendMessage sender msg_no_search_results h)
        end
  end.

Definition handleLinkCommand (h : SearchCommandHandler) (sender : string)
    (linkId : Js.num) : SearchCommandHandler :=
  let h := sendMessage sender
             ("🔗 Following link #" +:+ Js.num_to_string linkId +:+ "...") h in
  match followLink w cfg (webSearchService h) sender linkId with
  | (Ok content, s) =>
      let h := set_service s h in
      let formattedContent := formatWebpageContentMessage content in
      let userState := userStates h !! sender in
      let h := set_userState sender
                 {| mode := userState ≫= mode;
                    lastAction := Some did_link;
                    query := userState ≫= query;
                    currentUrl := Some (c_url content);
                    resultId := userState ≫= resultId |} h in
      sendMessage sender formattedContent h
  | (Throw error, s) =>
      sendMessage sender
        ("Sorry, I couldn't follow that link: " +:+ message error)
        (set_service s h)
  end.

Definition handleMoreCommand (h : SearchCommandHandler) (sender : string)
    : SearchCommandHandler :=
  match getMoreContent cfg (webSearchService h) sender with
  | (Ok moreContent, s) =>
      let h := set_service s h in
      if negb (Js.truthy (Some moreContent)) then
        sendMessage sender msg_no_more_content h
      else
        sendMessage sender
          ("*More Content:*" +:+ nl +:+ nl +:+ moreContent +:+ nl +:+ nl
           +:+ "(Type *!more* again for additional content)") h
  | (Throw error, s) =>
      sendMessage sender
        ("Sorry, I encountered an error getting more content: " +:+ message error)
        (set_service s h)
  end.

Definition handleSummarizeCommand (h : SearchCommandHandler) (sender : string)
    : SearchCommandHandler :=
  match userStates h !! sender with
  | Some {| mode := Some browse; currentUrl := Some (String _ _) |} =>
      let h := sendMessage sender "📝 Generating summary of current webpage..." h in
      match currentWebpageContent (webSearchService h) !! sender with
      | None =>
          sendMessage sender
            "Sorry, I couldn't retrieve the current webpage content." h
      | Some content =>
          let title := c_title (pe_content content) in
          let fullContent :=
            default (c_textContent (pe_content content))
              (Js.or_else (c_fullTextContent (pe_content content)) None) in
          let prompt :=
            "Please provide a concise summary of the following webpage content. Focus on the main points and key information:"
            +:+ nl +:+ nl +:+ "Title: " +:+ title
            +:+ nl +:+ nl +:+ "Content: " +:+ fullContent in
          sendMessage sender ("!summarize_webpage " +:+ prompt) h
      end
  | _ =>
      sendMessage sender
        "Please open a webpage first before using the summarize command." h
  end.

End Handlers.

Section Dispatch.

Variable w : World.
Variable cfg : Config.

(** The [exit] case, shared by the command and its browse-mode shorthand. *)
Definition handleExit (h : SearchCommandHandler) (sender : string)
    : SearchCommandHandler :=
  sendMessage sender msg_exited (set_userState sender chat_state h).

(** [handleCommand]: the flag is the method's result, [true] when the
    command is one of the seven of the [switch]. *)
Definition handleCommand (h : SearchCommandHandler) (sender command : string)
    (args : list string) : bool * SearchCommandHandler :=
  let c := Js.toLowerCase command in
  if String.eqb c "search" then
    let query := Js.trim (Js.join_sp args) in
    if negb (Js.truthy (Some query)) then
      (true, sendMessage sender
               "Please provide a search query. For example: !search climate change" h)
    else (true, handleWebSearch w cfg h sender query)
  else if String.eqb c "open" then
    let resultId := Js.parseInt_arg (head args) in
    if Js.isNaN resultId then
      (true, sendMessage sender
               "Please specify a valid result number to open. For example: !open 2" h)
    else (true, handleOpenResult w cfg h sender resultId)
  else if String.eqb c "back" then (true, handleBackCommand w cfg h sender)
  else if String.eqb c "link" then
    let linkId := Js.parseInt_arg (head args) in
    if Js.isNaN linkId then
      (true, sendMessage sender
               "Please specify a valid link number to follow. For example: !link 2" h)
    else (true, handleLinkCommand w cfg h sender linkId)
  else if String.eqb c "more" then (true, handleMoreCommand cfg h sender)
  else if String.eqb c "summarize" then (true, handleSummarizeCommand h sender)
  else if String.eqb c "exit" then (true, handleExit h sender)
  else (false, h).

Definition handleDirectMessage (h : SearchCommandHandler) (sender message : string)
    : bool * SearchCommandHandler :=
  let h :=
    match userStates h !! sender with
    | Some _ => h
    | None => set_userState sender chat_state h
    end in
  let userState := userStates h !! sender in
  if Js.startsWith message "!" then
    match Js.split_ws (Js.trim (Js.drop_chars 1 message)) with
    | command :: args => handleCommand h sender command args
    | [] => handleCommand h sender "" []
    end
  else if bool_decide (userState ≫= mode = Some browse) then
    let lower := Js.toLowerCase message in
    if String.eqb lower "back" then (true, handleBackCommand w cfg h sender)
    else if String.eqb lower "more" then (true, handleMoreCommand cfg h sender)
    else if Js.startsWith lower "link " then
      let linkNumber := Js.parseInt (Js.trim (Js.drop_chars 5 message)) in
      (true, handleLinkCommand w cfg h sender linkNumber)
    else if String.eqb lower "exit" then (true, handleExit h sender)
    else (true, handleWebSearch w cfg h sender message)
  else if Js.startsWith (Js.toLowerCase message) "search " then
    (true, handleWebSearch w cfg h sender (Js.trim (Js.drop_chars 7 message)))
  else (false, h).

End Dispatch.

(** ** A small world to run the handlers in *)

Module Demo.

Definition raw (n : string) : RawOrganic :=
  {| raw_title := Some ("Result " +:+ n);
     raw_link := "https://example.org/" +:+ n;
     raw_snippet := Some ("About " +:+ n);
     raw_position := None |}.

(** Seven hits for every query, more than the limit of five. *)
Definition data : SearchData :=
  {| sd_organic := Some (raw <$> ["a"; "b"; "c"; "d"; "e"; "f"; "g"]);
     sd_knowledgeGraph := None; sd_answerBox := None; sd_peopleAlsoAsk := None |}.

Definition anchor (href : string) (t : string) : Anchor :=
  {| a_href := Some href; a_text := t; a_title := None;
     a_aria_label := None; a_alt := None |}.

Definition doc : Document :=
  {| d_anchors := [anchor "https://example.org/x" "First link";
                   anchor "https://example.org/y" "Second link"];
     d_references := []; d_refTarget := λ _, Some []; d_refList := [];
     d_metaSiteName := None |}.

(** A page reads as twelve characters of text and the two links, ... *)
Definition article : Article :=
  {| art_title := Some "A page"; art_plainText := Some "0123456789ab";
     art_textBody := Some "0123456789ab"; art_document := Some doc |}.

(** ... except the target of the first link, which has seventeen. *)
Definition article_x : Article :=
  {| art_title := Some "Page x"; art_plainText := Some "ABCDEFGHIJKLMNOPQ";
     art_textBody := Some "ABCDEFGHIJKLMNOPQ"; art_document := Some doc |}.

Definition read (u : string) : res Article :=
  if String.eqb u "https://example.org/x" then Ok article_x else Ok article.

(** Absolute hrefs resolve to themselves here. *)
Definition world : World :=
  {| axios_post := λ _, Ok data;
     readAsync := read;
     url_href := λ href _, Some href;
     url_hostname := λ _, Some "example.org" |}.

(** The same world with the network down for page reads. *)
Definition offline : World :=
  {| axios_post := λ _, Ok data;
     readAsync := λ _, Throw (Error "getaddrinfo ENOTFOUND example.org");
     url_href := λ href _, Some href;
     url_hostname := λ _, Some "example.org" |}.

Definition cfg : Config :=
  {| serperApiKey := Some "key"; searchResultsLimit := 5; contentSummaryLength := 5 |}.

(** Feed messages to [handleDirectMessage], one after the other. *)
Definition run (msgs : list string) (h : SearchCommandHandler) : SearchCommandHandler :=
  foldl (λ h m, (handleDirectMessage world cfg h "u" m).2) h msgs.

Definition last_reply (h : SearchCommandHandler) : option string :=
  snd <$> last (sent h).

End Demo.

(** ** Pagination as the specification words it *)

(** [⌈a / c⌉] for a positive [c]. *)
Definition ceil_div (a c : Z) : Z := - (- a / c).

(** The [i]-th piece of [full] of size [C] counted from [offset0]
    (the first one is number 0). *)
Definition chunk (full : string) (offset0 C : Z) (i : nat) : string :=
  Js.substring full (offset0 + Z.of_nat i * C) (offset0 + (Z.of_nat i + 1) * C).

(** [⌈(L − offset0) / C⌉] *)
Definition chunk_count (L offset0 C : Z) : nat := Z.to_nat (ceil_div (L - offset0) C).

(** The length of the text the page view has already shown: the whole text
    or its first [contentSummaryLength] characters. *)
Definition shown_length (cfg : Config) (full : string) : Z :=
  Z.min (contentSummaryLength cfg) (Js.length full).

(** The ends of [substring] after clamping. *)
Definition clamp (s : string) (x : Z) : Z := Z.max 0 (Z.min x (Js.length s)).

(** The cursor [getMoreContent] works with: the stored one, or the
    summary length when there is none yet. *)
Definition cursor (cfg : Config) (userId : string) (s : WebSearchService) : Z :=
  default (contentSummaryLength cfg) (contentPositions s !! userId).

(** The reply when the cursor is at [p]. *)
Definition reply_at (cfg : Config) (full : string) (p : Z) : string :=
  if Js.length full <=? p then ""
  else Js.substring full p (p + contentSummaryLength cfg).

(** The replies to [k] [getMoreContent] calls in a row, and the service
    they leave. *)
Fixpoint more_calls (cfg : Config) (s : WebSearchService) (userId : string)
    (k : nat) : list (res string) * WebSearchService :=
  match k with
  | O => ([], s)
  | S k' =>
      let '(r, s1) := getMoreContent cfg s userId in
      let '(rs, s2) := more_calls cfg s1 userId k' in
      (r :: rs, s2)
  end.

(** The links have distinct urls, all of them recorded in [seenUrls]. *)
Definition seen_invariant (acc : LinkAcc) : Prop :=
  NoDup (url <$> acc.1) ∧ ∀ l, l ∈ acc.1 → url l ∈ acc.2.

(** ** A reference-heavy page *)

Module Wiki.

Definition baseUrl : string := "https://en.wikipedia.org/wiki/Cat".

Definition plain (href t : string) : Anchor :=
  {| a_href := Some href; a_text := t; a_title := None;
     a_aria_label := None; a_alt := None |}.

(** The citation marker in the text, an internal link, and the external
    link of the reference list, which the page writes without the final
    slash. *)
Definition marker : Anchor := plain "#cite_note-1" "[1]".
Definition internal : Anchor := plain "/wiki/Felidae" "Felidae".
Definition external : Anchor := plain "https://example.org" "Example source".

(** [<sup class=reference><a href=#cite_note-1>], and in the list
    [<ol class=references><li id=cite_note-1><a class=external ...>]. *)
Definition doc : Document :=
  {| d_anchors := [marker; internal; external];
     d_references := [Some marker];
     d_refTarget := λ refId,
       if String.eqb refId "cite_note-1" then Some [external] else Some [];
     d_refList := [external];
     d_metaSiteName := None |}.

(** What [new URL(href, baseUrl).href] is for the hrefs of this page: a
    fragment is put behind the base, a path behind its origin, and an
    origin without a path gets the path [/]. *)
Definition href_of (href base : string) : option string :=
  if Js.startsWith href "#" then Some (Js.before_char "#" base +:+ href)
  else if Js.startsWith href "/" then Some ("https://en.wikipedia.org" +:+ href)
  else if String.eqb href "https://example.org" then Some "https://example.org/"
  else Some href.

Definition world : World :=
  {| axios_post := λ _, Throw (Error "unused");
     readAsync := λ _, Throw (Error "unused");
     url_href := href_of;
     url_hostname := λ _, Some "en.wikipedia.org" |}.

End Wiki.

(** ** Invariants of the stores *)

(** The ids of a result set are 1, 2, ..., its length. *)
Definition dense_ids (r : SearchResults) : Prop :=
  id <$> organic r = seqZ 1 (Z.of_nat (List.length (organic r))).

(** Every stored result set has dense ids. *)
Definition dense_store (s : WebSearchService) : Prop :=
  ∀ u r, currentSearchResults s !! u = Some r → dense_ids r.

(** The number of results [open] can choose from. *)
Definition result_count (s : WebSearchService) (userId : string) : Z :=
  match currentSearchResults s !! userId with
  | Some r => Z.of_nat (List.length (organic r))
  | None => 0
  end.

(** [s'] has an entry wherever [s] has one, and a result set of [s'] is
    one of [s] or comes from [formatSearchResults]. *)
Definition extends (cfg : Config) (s s' : WebSearchService) : Prop :=
  dom (currentSearchResults s) ⊆ dom (currentSearchResults s')
  ∧ dom (currentWebpageContent s) ⊆ dom (currentWebpageContent s')
  ∧ dom (contentPositions s) ⊆ dom (contentPositions s')
  ∧ ∀ u r, currentSearchResults s' !! u = Some r →
      currentSearchResults s !! u = Some r
      ∨ ∃ searchData, r = formatSearchResults cfg searchData.

(** ** LlmService and MessageService

    The service [main] wires to the adapter.  The language model behind
    [client.chat.completions.create] is a function of the request. *)

Module LlmService.

Inductive Role := system | user | assistant.

(** A message of a conversation; the time stamp is left out. *)
Record ChatMessage := { role : Role; content : string }.

Record Provider := { name : string; apiKey : option string; model : string }.

Record Settings := { systemPrompt : string; provider : string }.

(** [providers] keeps the insertion order of the object literal. *)
Record t := {
  maxHistoryLength : Z;
  defaultSystemPrompt : string;
  providers : list (string * Provider);
  currentProvider : string;
  conversations : gmap string (list ChatMessage);
  userSettings : gmap string Settings
}.

(** The provider table of the constructor; [env] is [process.env]. *)
Definition providers_from (env : string → option string) : list (string * Provider) :=
  [("openai", {| name := "OpenAI"; apiKey := env "OPENAI_API_KEY";
                 model := or_default (env "OPENAI_MODEL") "gpt-4o" |});
   ("google", {| name := "Google AI"; apiKey := env "GOOGLE_API_KEY";
                 model := or_default (env "GOOGLE_MODEL") "gemini-2.0-pro-exp-02-05" |});
   ("groq", {| name := "Groq"; apiKey := env "GROQ_API_KEY";
               model := or_default (env "GROQ_MODEL") "deepseek-r1-distill-llama-70b" |});
   ("claude", {| name := "Claude"; apiKey := env "CLAUDE_API_KEY";
                 model := or_default (env "CLAUDE_MODEL") "claude-3-7-sonnet-latest" |});
   ("openrouter", {| name := "OpenRouter"; apiKey := env "OPENROUTER_API_KEY";
                     model := or_default (env "OPENROUTER_MODEL")
                                         "deepseek/deepseek-r1:free" |})].

(** The state the constructor leaves when [initializeClient] accepts the
    default provider. *)
Definition create (env : string → option string) (defaultProvider : string)
    (maxHistory : Z) : t :=
  {| maxHistoryLength := maxHistory;
     defaultSystemPrompt :=
       "You are a helpful assistant. Be concise and friendly in your responses.";
     providers := providers_from env;
     currentProvider := defaultProvider;
     conversations := ∅;
     userSettings := ∅ |}.

Definition set_currentProvider (p : string) (l : t) : t :=
  {| maxHistoryLength := maxHistoryLength l;
     defaultSystemPrompt := defaultSystemPrompt l;
     providers := providers l; currentProvider := p;
     conversations := conversations l; userSettings := userSettings l |}.

Definition set_conversations (c : gmap string (list ChatMessage)) (l : t) : t :=
  {| maxHistoryLength := maxHistoryLength l;
     defaultSystemPrompt := defaultSystemPrompt l;
     providers := providers l; currentProvider := currentProvider l;
     conversations := c; userSettings := userSettings l |}.

Definition set_userSettings (u : gmap string Settings) (l : t) : t :=
  {| maxHistoryLength := maxHistoryLength l;
     defaultSystemPrompt := defaultSystemPrompt l;
     providers := providers l; currentProvider := currentProvider l;
     conversations := conversations l; userSettings := u |}.

(** What [this.providers[key]] finds when the table has no such key of
    its own: a member inherited from [Object.prototype].  None of them has
    an [apiKey] or a [model]; a function has its [name], the prototype
    behind [__proto__] has none.  A property that is missing prints as
    [undefined]. *)
Definition inherited_member (key : string) : option Provider :=
  let member (n : string) :=
    Some {| name := n; apiKey := None; model := "undefined" |} in
  if String.eqb key "__proto__" then member "undefined"
  else if String.eqb key "constructor" then member "Object"
  else if bool_decide
            (key ∈ ["__defineGetter__"; "__defineSetter__"; "hasOwnProperty";
                    "__lookupGetter__"; "__lookupSetter__"; "isPrototypeOf";
                    "propertyIsEnumerable"; "toString"; "valueOf";
                    "toLocaleString"])
  then member key
  else None.

(** [this.providers[key]]: the table's own entry, or else the inherited
    member of that name. *)
Definition lookup_provider (l : t) (key : string) : option Provider :=
  match List.find (λ kp, String.eqb kp.1 key) (providers l) with
  | Some kp => Some kp.2
  | None => inherited_member key
  end.

(** The result's [success] flag and [message]. *)
Definition switchProvider (l : t) (providerName : string) : (bool * string) * t :=
  match lookup_provider l providerName with
  | None =>
      ((false, "Unknown provider: " +:+ providerName +:+ ". Available providers: "
               +:+ Js.join_comma (fst <$> providers l)), l)
  | Some p =>
      if negb (Js.truthy (apiKey p)) then
        ((false, "API key not configured for provider: " +:+ name p
                 +:+ ". Please set the " +:+ Js.toUpperCase providerName
                 +:+ "_API_KEY environment variable."), l)
      else
        ((true, "Switched to " +:+ name p +:+ " using model: " +:+ model p),
         set_currentProvider providerName l)
  end.

(** [getUserSettings(userId)] and [getUserSettings(userId, settings)]. *)
Definition getUserSettings (l : t) (userId : string) (settings : option Settings)
    : Settings * t :=
  let fresh := {| systemPrompt := defaultSystemPrompt l; provider := currentProvider l |} in
  let current := default fresh (userSettings l !! userId) in
  let stored := default current settings in
  (stored, set_userSettings (<[userId := stored]> (userSettings l)) l).

Definition getConversationHistory (l : t) (userId : string) (limit : Z)
    : list ChatMessage :=
  match conversations l !! userId with
  | None => []
  | Some history => if limit =? 0 then history else Js.slice_from history (- limit)
  end.

Definition updateConversationHistory (l : t) (userId : string) (m : ChatMessage) : t :=
  let history := default [] (conversations l !! userId) ++ [m] in
  let maxLength := maxHistoryLength l * 2 in
  let len := Z.of_nat (List.length history) in
  let history :=
    if maxLength <? len then drop (Z.to_nat (len - maxLength)) history else history in
  set_conversations (<[userId := history]> (conversations l)) l.

Definition clearConversationHistory (l : t) (userId : string) : string * t :=
  ("Conversation history cleared.",
   set_conversations (delete userId (conversations l)) l).

Definition updateSystemPrompt (l : t) (userId prompt : string) : string * t :=
  let '(settings, l) := getUserSettings l userId None in
  let settings := {| systemPrompt := prompt; provider := provider settings |} in
  let '(_, l) := getUserSettings l userId (Some settings) in
  ("System prompt updated.", l).

Definition prepareMessagesForApi (l : t) (userId : string) (settings : Settings)
    : list ChatMessage :=
  {| role := system;
     content := or_default (Some (systemPrompt settings)) (defaultSystemPrompt l) |}
  :: getConversationHistory l userId (maxHistoryLength l).

(** Put the quoted text in front of the last message of the user. *)
Fixpoint quote_last_user (prefix : string) (ms : list ChatMessage)
    : list ChatMessage * bool :=
  match ms with
  | [] => ([], false)
  | m :: r =>
      let '(r', done) := quote_last_user prefix r in
      if done then (m :: r', true)
      else match role m with
           | user =>
               ({| role := user; content := prefix +:+ nl +:+ nl +:+ content m |} :: r',
                true)
           | _ => (m :: r', false)
           end
  end.

(** [getResponse(userId, message, context)]; [complete] stands for
    [client.chat.completions.create] and the reading of its first
    choice.  The constructor and [switchProvider] only ever make a
    provider of the table with a key the current one; for any other, the
    [model] handed over is the one [lookup_provider] gives. *)
Definition getResponse
    (complete : string → list ChatMessage → res string)
    (l : t) (userId userMessage : string) (quoted : option string) : string * t :=
  let '(settings, l) := getUserSettings l userId None in
  let l :=
    if String.eqb (provider settings) (currentProvider l) then l
    else (switchProvider l (provider settings)).2 in
  let l := updateConversationHistory l userId {| role := user; content := userMessage |} in
  let messages := prepareMessagesForApi l userId settings in
  let messages :=
    match quoted with
    | Some (String _ _ as q) =>
        (quote_last_user ("(In response to: " +:+ dq +:+ q +:+ dq +:+ ")") messages).1
    | _ => messages
    end in
  match lookup_provider l (currentProvider l) with
  | None => ("Sorry, I encountered an error while processing your request. Error details: "
             +:+ message (undefined_read "model"), l)
  | Some p =>
      match complete (model p) messages with
      | Ok responseText =>
          (responseText,
           updateConversationHistory l userId {| role := assistant; content := responseText |})
      | Throw error =>
          ("Sorry, I encountered an error while processing your request. Error details: "
           +:+ message error, l)
      end
  end.

End LlmService.

Module MessageService.

(** The service: its two configuration options, the language-model
    service it creates, and the messages sent through the adapter. *)
Record t := {
  prefixCommands : bool;
  commandPrefix : string;
  llmService : LlmService.t;
  sent : list (string * string)
}.

Definition sendMessage (recipient text : string) (m : t) : t :=
  {| prefixCommands := prefixCommands m; commandPrefix := commandPrefix m;
     llmService := llmService m; sent := sent m ++ [(recipient, text)] |}.

Definition set_llmService (l : LlmService.t) (m : t) : t :=
  {| prefixCommands := prefixCommands m; commandPrefix := commandPrefix m;
     llmService := l; sent := sent m |}.

Definition help_text (prefix : string) : string :=
  "Available commands:" +:+ nl
  +:+ prefix +:+ "help - Show this help message" +:+ nl
  +:+ prefix +:+ "clear - Clear conversation history" +:+ nl
  +:+ prefix +:+ "ping - Check if bot is responsive" +:+ nl
  +:+ prefix +:+ "provider - Show current LLM provider" +:+ nl
  +:+ prefix +:+ "provider list - List available providers" +:+ nl
  +:+ prefix +:+ "provider set <name> - Switch to a different provider" +:+ nl
  +:+ prefix +:+ "system <prompt> - Set system prompt".

(** The reply of the [default] branch of the command switch. *)
Definition unknown_command (prefix cmd : string) : string :=
  "Unknown command: " +:+ cmd +:+ ". Type " +:+ prefix
  +:+ "help for available commands.".

Definition handleProviderCommand (m : t) (sender : string) (args : list string) : t :=
  match Js.toLowerCase <$> head args with
  | Some (String _ _ as subCommand) =>
      if String.eqb subCommand "list" then
        let line (kp : string * LlmService.Provider) :=
          "- " +:+ kp.1 +:+ ": " +:+ LlmService.name kp.2
          +:+ " (" +:+ LlmService.model kp.2 +:+ ") "
          +:+ (if Js.truthy (LlmService.apiKey kp.2) then "✅" else "❌") +:+ nl in
        sendMessage sender
          ("Available providers:" +:+ nl
           +:+ concat_map line (LlmService.providers (llmService m))
           +:+ nl +:+ "Use " +:+ dq +:+ "!provider set <id>" +:+ dq
           +:+ " to switch providers.") m
      else if String.eqb subCommand "set" then
        match Js.toLowerCase <$> args !! 1%nat with
        | Some (String _ _ as providerId) =>
            let '(settings, l) := LlmService.getUserSettings (llmService m) sender None in
            let settings :=
              {| LlmService.systemPrompt := LlmService.systemPrompt settings;
                 LlmService.provider := providerId |} in
            let '(_, l) := LlmService.getUserSettings l sender (Some settings) in
            let '(result, l) := LlmService.switchProvider l providerId in
            sendMessage sender result.2 (set_llmService l m)
        | _ =>
            sendMessage sender
              ("Please specify a provider ID. Use " +:+ dq +:+ "!provider list" +:+ dq
               +:+ " to see available providers.") m
        end
      else
        sendMessage sender
          ("Unknown subcommand: " +:+ subCommand
           +:+ ". Available options are: list, set") m
  | _ =>
      match LlmService.lookup_provider (llmService m)
              (LlmService.currentProvider (llmService m)) with
      | Some p =>
          sendMessage sender
            ("Current provider: " +:+ LlmService.name p
             +:+ " (Model: " +:+ LlmService.model p +:+ ")") m
      | None =>
          (* reading [.name] of [undefined] raises; [handleMessage] catches *)
          sendMessage sender
            "Sorry, I encountered an error while processing your message." m
      end
  end.

(** [handleCommand(sender, command, context)]; [command] comes without
    the prefix. *)
Definition handleCommand (m : t) (sender command : string) : t :=
  let parts := Js.split_ws (Js.trim command) in
  let cmd := default "" (head parts) in
  let args := tail parts in
  let c := Js.toLowerCase cmd in
  if String.eqb c "help" then
    sendMessage sender (help_text (commandPrefix m)) m
  else if String.eqb c "clear" then
    let '(text, l) := LlmService.clearConversationHistory (llmService m) sender in
    sendMessage sender text (set_llmService l m)
  else if String.eqb c "ping" then
    sendMessage sender "Pong! Bot is responsive." m
  else if String.eqb c "provider" then
    handleProviderCommand m sender args
  else if String.eqb c "system" then
    let promptText := Js.trim (Js.join_sp args) in
    if negb (Js.truthy (Some promptText)) then
      let '(settings, l) := LlmService.getUserSettings (llmService m) sender None in
      sendMessage sender
        ("Current system prompt: " +:+ dq +:+ LlmService.systemPrompt settings +:+ dq)
        (set_llmService l m)
    else
      let '(text, l) := LlmService.updateSystemPrompt (llmService m) sender promptText in
      sendMessage sender text (set_llmService l m)
  else
    sendMessage sender (unknown_command (commandPrefix m) cmd) m.

(** [handleMessage(sender, message, context)]; of the context only the
    quoted text is read. *)
Definition handleMessage
    (complete : string → list LlmService.ChatMessage → res string)
    (m : t) (sender text : string) (quoted : option string) : t :=
  if prefixCommands m && Js.startsWith text (commandPrefix m) then
    handleCommand m sender (Js.drop_chars (String.length (commandPrefix m)) text)
  else
    let '(response, l) :=
      LlmService.getResponse complete (llmService m) sender text quoted in
    let l := LlmService.updateConversationHistory l sender
               {| LlmService.role := LlmService.user; LlmService.content := text |} in
    let l := LlmService.updateConversationHistory l sender
               {| LlmService.role := LlmService.assistant;
                  LlmService.content := response |} in
    sendMessage sender response (set_llmService l m).

(** The [case] labels of the command switch. *)
Definition switch_cases : list string :=
  ["help"; "clear"; "ping"; "provider"; "system"].

(** The seven commands of the navigation engine. *)
Definition navigation_commands : list string :=
  ["search"; "open"; "back"; "link"; "more"; "summarize"; "exit"].

(** The service as [main] builds it: prefix commands on, prefix [!]. *)
Definition wired (l : LlmService.t) : t :=
  {| prefixCommands := true; commandPrefix := "!"; llmService := l; sent := [] |}.

(** [main]'s service in an environment that holds an OpenAI key only. *)
Definition demo : t :=
  wired (LlmService.create
           (λ k, if String.eqb k "OPENAI_API_KEY" then Some "sk-demo" else None)
           "openai" 10).

End MessageService.

(** ** Vocabulary for the further properties *)

(** The entries of user [B] in the three maps of the service are the same
    in [s] and [s']. *)
Definition service_same_at (B : string) (s s' : WebSearchService) : Prop :=
  currentSearchResults s' !! B = currentSearchResults s !! B
  ∧ currentWebpageContent s' !! B = currentWebpageContent s !! B
  ∧ contentPositions s' !! B = contentPositions s !! B.

(** What handling a message of user [A] may do to the handler: for every
    other user the session and the service entries stay, and the outbox
    grows at its end by messages to [A]. *)
Definition effects (A : string) (h h' : SearchCommandHandler) : Prop :=
  (∀ B, B ≠ A → userStates h' !! B = userStates h !! B
               ∧ service_same_at B (webSearchService h) (webSearchService h'))
  ∧ ∃ new, sent h' = sent h ++ new ∧ Forall (λ m, m.1 = A) new.

(** The absolute url under which the anchor loop of [extractLinks] takes an
    element, when it takes it. *)
Definition accepted (w : World) (baseUrl : string) (element : Anchor) : option string :=
  match a_href element with
  | Some (String _ _ as href) =>
      if shouldExcludeUrl (Some href) then None
      else
        match url_href w href baseUrl with
        | None => None
        | Some absoluteUrl =>
            if String.eqb (Js.before_char "#" absoluteUrl) (Js.before_char "#" baseUrl)
               && Js.startsWith href "#"
            then None else Some absoluteUrl
        end
  | _ => None
  end.

(** The first occurrences in [l] of what is not in [seen], in the order
    of [l]. *)
Fixpoint first_occurrences (seen : gset string) (l : list string) : list string :=
  match l with
  | [] => []
  | x :: r =>
      if bool_decide (x ∈ seen) then first_occurrences seen r
      else x :: first_occurrences ({[x]} ∪ seen) r
  end.

(** The page a session points to is the page the service holds. *)
Definition page_in_store (h : SearchCommandHandler) : Prop :=
  ∀ u st url, userStates h !! u = Some st → currentUrl st = Some url →
    ∃ entry, currentWebpageContent (webSearchService h) !! u = Some entry
             ∧ pe_url entry = url.

(** One inbound message: what the world answers while it is handled, who
    sends it, and its text. *)
Definition Step : Type := World * string * string.

(** The handler after a sequence of messages, each through
    [handleDirectMessage]. *)
Definition run_steps (cfg : Config) (steps : list Step)
    (h : SearchCommandHandler) : SearchCommandHandler :=
  foldl (λ h step, (handleDirectMessage step.1.1 cfg h step.1.2 step.2).2) h steps.

(** The text of a reply of [getMoreContent]; nothing when it raised. *)
Definition reply_text (r : res string) : string :=
  match r with Ok t => t | Throw _ => "" end.

(** Where a link of the result comes from: an [href] that the filter lets
    through and that resolves to the link's url. *)
Definition link_origin (w : World) (baseUrl : string) (l : Link) : Prop :=
  ∃ href, href ≠ ""
          ∧ is_nonNavigable href = false
          ∧ has_fileExtension href = false
          ∧ url_href w href baseUrl = Some (url l).

(** ** A page with repeated and unwanted links *)

Module Shop.

Definition baseUrl : string := "https://shop.example/list".

Definition doc : Document :=
  {| d_anchors :=
       [Wiki.plain "https://shop.example/a" "Item A";
        Wiki.plain "javascript:void(0)" "Menu";
        Wiki.plain "https://shop.example/a" "Item A again";
        Wiki.plain "https://shop.example/catalog.PDF" "Catalog";
        Wiki.plain "#top" "Back to top";
        Wiki.plain "https://shop.example/b" "Item B"];
     d_references := []; d_refTarget := λ _, Some []; d_refList := [];
     d_metaSiteName := None |}.

(** A fragment is put behind the base; the other hrefs are absolute. *)
Definition world : World :=
  {| axios_post := λ _, Throw (Error "unused");
     readAsync := λ _, Throw (Error "unused");
     url_href := λ href base,
       if Js.startsWith href "#" then Some (Js.before_char "#" base +:+ href)
       else Some href;
     url_hostname := λ _, Some "shop.example" |}.

End Shop.

(** What every session written by the handlers satisfies. *)
Definition session_inv (st : UserState) : Prop :=
  is_Some (mode st)
  ∧ (mode st = Some browse → is_Some (query st) ∨ is_Some (currentUrl st))
  ∧ (mode st = Some chat → query st = None)
  ∧ (lastAction st = Some did_search →
       mode st = Some browse ∧ is_Some (query st) ∧ currentUrl st = None)
  ∧ (lastAction st = Some did_open →
       mode st = Some browse ∧ is_Some (currentUrl st) ∧ is_Some (resultId st)).

Definition sessions_ok (h : SearchCommandHandler) : Prop :=
  ∀ u st, userStates h !! u = Some st → session_inv st.

(** A session with a query belongs to a user with a stored result set. *)
Definition results_in_store (h : SearchCommandHandler) : Prop :=
  ∀ u st, userStates h !! u = Some st → is_Some (query st) →
    is_Some (currentSearchResults (webSearchService h) !! u).

Definition handler_inv (h : SearchCommandHandler) : Prop :=
  dense_store (webSearchService h) ∧ page_in_store h
  ∧ sessions_ok h ∧ results_in_store h.

(** ** Vocabulary for the language-model side *)

(** No conversation is longer than twice [maxHistoryLength]. *)
Definition capped (l : LlmService.t) : Prop :=
  ∀ u hist, LlmService.conversations l !! u = Some hist →
    Z.of_nat (List.length hist) ≤ 2 * LlmService.maxHistoryLength l.

(** The current provider is in the table and has a key. *)
Definition provider_ok (l : LlmService.t) : Prop :=
  ∃ p, LlmService.lookup_provider l (LlmService.currentProvider l) = Some p
       ∧ Js.truthy (LlmService.apiKey p) = true.

(** The last [k] elements of a list. *)
Definition last_k {A} (k : Z) (l : list A) : list A :=
  drop (Z.to_nat (Z.of_nat (List.length l) - k)) l.

(** The provider under [key] is in the table and has a key. *)
Definition configured (l : LlmService.t) (key : string) : bool :=
  match LlmService.lookup_provider l key with
  | Some p => Js.truthy (LlmService.apiKey p)
  | None => false
  end.

Definition user_says (text : string) : LlmService.ChatMessage :=
  {| LlmService.role := LlmService.user; LlmService.content := text |}.

Definition assistant_says (text : string) : LlmService.ChatMessage :=
  {| LlmService.role := LlmService.assistant; LlmService.content := text |}.

Definition system_says (text : string) : LlmService.ChatMessage :=
  {| LlmService.role := LlmService.system; LlmService.content := text |}.

(** The reply of [getResponse] when the call of the model raises. *)
Definition llm_error (e : exn) : string :=
  "Sorry, I encountered an error while processing your request. Error details: "
  +:+ message e.

(** The text of the user with the quoted text in front of it. *)
Definition with_quote (quoted : option string) (text : string) : string :=
  match quoted with
  | Some (String _ _ as q) =>
      ("(In response to: " +:+ dq +:+ q +:+ dq +:+ ")") +:+ nl +:+ nl +:+ text
  | _ => text
  end.

(** The settings of a user, as [getUserSettings(userId)] returns them. *)
Definition settings_of (l : LlmService.t) (userId : string) : LlmService.Settings :=
  (LlmService.getUserSettings l userId None).1.

(** The provider a message of the user is answered with: the one of the
    user's settings when it is configured, the current one otherwise. *)
Definition chosen_provider (l : LlmService.t) (userId : string) : string :=
  if configured l (LlmService.provider (settings_of l userId))
  then LlmService.provider (settings_of l userId)
  else LlmService.currentProvider l.

(** One inbound message of the chat side: how the model answers while it
    is handled, who sends it, its text and the text it quotes. *)
Definition Turn : Type :=
  (string → list LlmService.ChatMessage → res string) * string * string * option string.

Definition turn_sender (t : Turn) : string := t.1.1.2.

(** The service after a sequence of messages, each through
    [handleMessage]. *)
Definition run_turns (turns : list Turn) (m : MessageService.t) : MessageService.t :=
  foldl (λ m t, MessageService.handleMessage t.1.1.1 m t.1.1.2 t.1.2 t.2) m turns.

(** * Properties

    First the model run on small inputs. *)

Example parseInt_ex1 : Js.parseInt " 42abc" = Js.Num 42.
Proof. reflexivity. Qed.
Example parseInt_ex2 : Js.parseInt "abc" = Js.NaN.
Proof. reflexivity. Qed.
Example parseInt_ex3 : Js.parseInt "-0x1F" = Js.Num (-31).
Proof. reflexivity. Qed.
Example parseInt_ex4 : Js.parseInt_arg None = Js.NaN.
Proof. reflexivity. Qed.
Example split_ex1 : Js.split_ws (Js.trim "  open   3 ") = ["open"; "3"].
Proof. reflexivity. Qed.
Example split_ex2 : Js.split_ws "" = [""].
Proof. reflexivity. Qed.
Example substring_ex1 : Js.substring "abcdef" 2 4 = "cd".
Proof. reflexivity. Qed.
Example substring_ex2 : Js.substring "abcdef" 4 100 = "ef".
Proof. reflexivity. Qed.
Example num_to_string_ex : Js.num_to_string (Js.Num (-12)) = "-12".
Proof. reflexivity. Qed.
Example demo_search_ids :
  (λ r, id <$> organic r) <$>
    currentSearchResults (webSearchService (Demo.run ["!search cats"] new_handler)) !! "u"
  = Some [1; 2; 3; 4; 5].
Proof. vm_compute. reflexivity. Qed.
Example demo_open_state :
  userStates (Demo.run ["!search cats"; "!open 3"] new_handler) !! "u"
  = Some {| mode := Some browse; lastAction := Some did_open; query := None;
            currentUrl := Some "https://example.org/c";
            resultId := Some (Js.Num 3) |}.
Proof. vm_compute. reflexivity. Qed.
Example demo_more :
  Demo.last_reply (Demo.run ["!search cats"; "!open 3"; "!more"] new_handler)
  = Some ("*More Content:*" +:+ nl +:+ nl +:+ "56789" +:+ nl +:+ nl
          +:+ "(Type *!more* again for additional content)").
Proof. vm_compute. reflexivity. Qed.

(** ** Search results carry dense identifiers *)

Section SearchIds.

Lemma slice0_nonneg {A} (l : list A) (e : Z) :
  0 ≤ e → Js.slice0 l e = take (Z.to_nat e) l.
Proof.
  intros He. unfold Js.slice0.
  destruct (Z.ltb_spec e 0) as [?|_]; [lia|].
  destruct (Z.le_gt_cases e (Z.of_nat (List.length l))) as [Hle|Hgt].
  - by rewrite Z.min_l.
  - rewrite Z.min_r, Nat2Z.id by lia.
    rewrite !take_ge; [done| |done]. lia.
Qed.

Lemma length_slice0 {A} (l : list A) (e : Z) :
  0 ≤ e → Z.of_nat (List.length (Js.slice0 l e)) = Z.min (Z.of_nat (List.length l)) e.
Proof. intros He. rewrite slice0_nonneg, length_take by done. lia. Qed.

Lemma lookup_slice0 {A} (l : list A) (e : Z) i x :
  0 ≤ e → Js.slice0 l e !! i = Some x → l !! i = Some x.
Proof.
  intros He. rewrite slice0_nonneg by done.
  rewrite lookup_take_Some. tauto.
Qed.

Lemma ids_imap_format (l : list RawOrganic) :
  id <$> imap format_organic l = seqZ 1 (Z.of_nat (List.length l)).
Proof.
  apply list_eq. intros i.
  rewrite list_lookup_fmap, list_lookup_imap.
  destruct (l !! i) as [x|] eqn:Hi; simpl.
  - apply lookup_lt_Some in Hi as Hlt.
    rewrite lookup_seqZ_lt by lia. f_equal. lia.
  - apply lookup_ge_None in Hi.
    rewrite lookup_seqZ_ge by lia. done.
Qed.

End SearchIds.

(** C4.  [formatSearchResults] keeps the first [min(K, searchResultsLimit)]
    of the [K] organic results of the provider (none when the section is
    missing), numbers them 1, 2, ... in that order without gap or repeat,
    and copies each one's fields from the provider's entry at the same
    place.  The limit is a count, so it is not negative. *)
Theorem formatSearchResults_dense_ids (cfg : Config) (searchData : SearchData) :
  0 ≤ searchResultsLimit cfg →
  let raw := default [] (sd_organic searchData) in
  let stored := organic (formatSearchResults cfg searchData) in
  let n := Z.min (Z.of_nat (List.length raw)) (searchResultsLimit cfg) in
  Z.of_nat (List.length stored) = n
  ∧ id <$> stored = seqZ 1 n
  ∧ NoDup (id <$> stored)
  ∧ ∀ i r, stored !! i = Some r →
      id r = Z.of_nat i + 1
      ∧ ∃ x, raw !! i = Some x
           ∧ title r = raw_title x ∧ link r = raw_link x
           ∧ snippet r = raw_snippet x ∧ position r = raw_position x.
Proof.
  intros Hlim raw stored n.
  assert (Hst : stored = imap format_organic (Js.slice0 raw (searchResultsLimit cfg))).
  { subst stored raw. unfold formatSearchResults. simpl.
    destruct (sd_organic searchData); [done|].
    simpl. by rewrite slice0_nonneg, take_nil. }
  assert (Hids : id <$> stored = seqZ 1 n).
  { rewrite Hst, ids_imap_format. f_equal. by apply length_slice0. }
  split_and!.
  - rewrite Hst, length_imap. by apply length_slice0.
  - done.
  - rewrite Hids. apply NoDup_seqZ.
  - intros i r Hr. rewrite Hst, list_lookup_imap in Hr.
    destruct (Js.slice0 raw (searchResultsLimit cfg) !! i) as [x|] eqn:Hx; [|done].
    simpl in Hr. injection Hr as <-.
    split; [done|]. exists x. split; [|done].
    by eapply lookup_slice0.
Qed.

(** The theorem at seven raw results and the default limit of five. *)
Lemma formatSearchResults_dense_ids_witness :
  0 ≤ searchResultsLimit Demo.cfg
  ∧ id <$> organic (formatSearchResults Demo.cfg Demo.data) = [1; 2; 3; 4; 5].
Proof.
  assert (Hlimit : 0 ≤ searchResultsLimit Demo.cfg) by (simpl; lia).
  split; [exact Hlimit|].
  destruct (formatSearchResults_dense_ids Demo.cfg Demo.data Hlimit)
    as (_ & Hids & _).
  exact Hids.
Defined.

(** ** Pagination *)

Section Strings.

Lemma app_String c (s t : string) : String c s +:+ t = String c (s +:+ t).
Proof. reflexivity. Qed.

Lemma app_empty_r (s : string) : s +:+ "" = s.
Proof. induction s as [|c s IH]; [done|]. by rewrite app_String, IH. Qed.

Lemma app_assoc_s (s t u : string) : s +:+ t +:+ u = (s +:+ t) +:+ u.
Proof. induction s as [|c s IH]; [done|]. by rewrite !app_String, IH. Qed.

Lemma length_take_chars n s :
  String.length (Js.take_chars n s) = (n `min` String.length s)%nat.
Proof.
  revert s. induction n as [|n IH]; intros [|c s]; simpl; try done.
  by rewrite IH.
Qed.

Lemma length_drop_chars n s :
  String.length (Js.drop_chars n s) = (String.length s - n)%nat.
Proof.
  revert s. induction n as [|n IH]; intros [|c s]; simpl; done.
Qed.

Lemma drop_chars_add n m s :
  Js.drop_chars (n + m) s = Js.drop_chars m (Js.drop_chars n s).
Proof.
  revert s. induction n as [|n IH]; intros [|c s]; simpl; try done.
  by destruct m.
Qed.

Lemma take_chars_add n m s :
  Js.take_chars (n + m) s
  = Js.take_chars n s +:+ Js.take_chars m (Js.drop_chars n s).
Proof.
  revert s. induction n as [|n IH]; intros [|c s]; simpl; try done.
  - by destruct m.
  - by rewrite app_String, IH.
Qed.

Lemma substring_ordered s a b :
  a ≤ b →
  Js.substring s a b
  = Js.take_chars (Z.to_nat (clamp s b - clamp s a))
      (Js.drop_chars (Z.to_nat (clamp s a)) s).
Proof.
  intros Hab. unfold Js.substring. fold (clamp s a) (clamp s b).
  assert (clamp s a ≤ clamp s b) by (unfold clamp; lia).
  by rewrite Z.min_l, Z.max_r by done.
Qed.

Lemma length_substring s a b :
  a ≤ b → Js.length (Js.substring s a b) = clamp s b - clamp s a.
Proof.
  intros Hab. rewrite substring_ordered by done. unfold Js.length.
  rewrite length_take_chars, length_drop_chars.
  unfold clamp, Js.length. lia.
Qed.

Lemma substring_app s a b c :
  a ≤ b → b ≤ c →
  Js.substring s a b +:+ Js.substring s b c = Js.substring s a c.
Proof.
  intros Hab Hbc. rewrite !substring_ordered by lia.
  assert (clamp s a ≤ clamp s b ≤ clamp s c) as [? ?] by (unfold clamp; lia).
  assert (0 ≤ clamp s a) by (unfold clamp; lia).
  replace (Z.to_nat (clamp s c - clamp s a))
    with (Z.to_nat (clamp s b - clamp s a) + Z.to_nat (clamp s c - clamp s b))%nat
    by lia.
  rewrite take_chars_add, <- drop_chars_add. do 3 f_equal. lia.
Qed.

Lemma substring_min_length s a b :
  Js.substring s a (Z.min b (Js.length s)) = Js.substring s a b.
Proof.
  unfold Js.substring.
  by replace (Z.min (Z.min b (Js.length s)) (Js.length s))
    with (Z.min b (Js.length s)) by lia.
Qed.

Lemma length_empty_iff s : Js.length s = 0 ↔ s = "".
Proof. destruct s; unfold Js.length; simpl; split; intros; (done || lia). Qed.

Lemma ceil_div_spec a c :
  0 < c → c * (ceil_div a c - 1) < a ≤ c * ceil_div a c.
Proof.
  intros Hc. unfold ceil_div.
  pose proof (Z.mul_div_le (- a) c Hc).
  pose proof (Z.mul_succ_div_gt (- a) c Hc). lia.
Qed.

End Strings.

Section More.

Variable cfg : Config.
Variable userId : string.
Variable page : PageEntry.
Variable full : string.

Hypothesis full_text : c_fullTextContent (pe_content page) = Some full.

#[local] Abbreviation C := (contentSummaryLength cfg).
#[local] Abbreviation L := (Js.length full).
#[local] Abbreviation cur := (cursor cfg userId).
#[local] Abbreviation reply := (reply_at cfg full).

Lemma getMoreContent_spec s :
  currentWebpageContent s !! userId = Some page →
  ∃ s', getMoreContent cfg s userId = (Ok (reply (cur s)), s')
      ∧ currentWebpageContent s' = currentWebpageContent s
      ∧ contentPositions s' !! userId
        = Some (if L <=? cur s then cur s else cur s + C).
Proof.
  intros Hpage. unfold getMoreContent, reply_at, cursor, set_contentPositions.
  rewrite Hpage, full_text.
  destruct (contentPositions s !! userId) as [p|] eqn:Hp; simpl.
  - rewrite Hp. simpl. destruct (L <=? p) eqn:Hle.
    + eexists. split; [reflexivity|]. done.
    + eexists. split; [by rewrite substring_min_length|].
      simpl. by rewrite lookup_insert_eq.
  - rewrite lookup_insert_eq. simpl. destruct (L <=? C) eqn:Hle.
    + eexists. split; [reflexivity|]. simpl. by rewrite lookup_insert_eq.
    + eexists. split; [by rewrite substring_min_length|].
      simpl. by rewrite lookup_insert_eq.
Qed.

Hypothesis C_pos : 0 < C.

Lemma reply_at_exhausted p j : L ≤ p → reply (p + Z.of_nat j * C) = "".
Proof.
  intros Hp. unfold reply_at.
  destruct (Z.leb_spec L (p + Z.of_nat j * C)); [done|nia].
Qed.

(** [k] calls from cursor [p] give the replies at [p], [p + C], ... *)
Lemma more_calls_from s k :
  currentWebpageContent s !! userId = Some page →
  (more_calls cfg s userId k).1
  = (λ j : nat, Ok (reply (cur s + Z.of_nat j * C))) <$> seq 0 k.
Proof.
  revert s. induction k as [|k IH]; intros s Hpage; [done|].
  destruct (getMoreContent_spec s Hpage) as (s' & Hcall & Hsame & Hcur).
  simpl. rewrite Hcall.
  specialize (IH s'). rewrite Hsame in IH. specialize (IH Hpage).
  destruct (more_calls cfg s' userId k) as [rs s2]. simpl in *.
  rewrite Z.add_0_r. f_equal.
  rewrite IH, <- fmap_S_seq, <- list_fmap_compose.
  apply list_fmap_ext. intros _ j _. simpl. f_equal.
  assert (Hc' : cur s' = if L <=? cur s then cur s else cur s + C).
  { unfold cursor at 1. by rewrite Hcur. }
  rewrite Hc'. destruct (Z.leb_spec L (cur s)).
  - rewrite !reply_at_exhausted; done.
  - f_equal. lia.
Qed.

Lemma chunk_count_lt i :
  (i < chunk_count L (Z.min C L) C)%nat ↔ Z.min C L + Z.of_nat i * C < L.
Proof.
  unfold chunk_count.
  pose proof (ceil_div_spec (L - Z.min C L) C C_pos) as [Hlo Hhi].
  split; intros H; [nia|].
  destruct (Z.le_gt_cases (ceil_div (L - Z.min C L) C) (Z.of_nat i)); [nia|lia].
Qed.

Lemma chunks_concat n a :
  concat_map (λ i : nat, Js.substring full (a + Z.of_nat i * C) (a + (Z.of_nat i + 1) * C))
    (seq 0 n)
  = Js.substring full a (a + Z.of_nat n * C).
Proof.
  induction n as [|n IH].
  - simpl. rewrite Z.add_0_r. unfold Js.substring.
    by rewrite Z.min_id, Z.max_id, Z.sub_diag.
  - rewrite seq_S. unfold concat_map in *. rewrite foldr_app. simpl.
    rewrite <- (substring_app full a (a + Z.of_nat n * C)) by nia.
    replace (a + Z.of_nat (S n) * C) with (a + (Z.of_nat n + 1) * C) by lia.
    set (last := Js.substring full (a + Z.of_nat n * C) (a + (Z.of_nat n + 1) * C)).
    rewrite <- IH. clear IH. generalize (seq 0 n). intros l.
    induction l as [|x l IHl]; simpl.
    + by rewrite app_empty_r.
    + by rewrite IHl, app_assoc_s.
Qed.

End More.

(** X25.  Take a user whose stored page has the text [full] of length [L],
    and who has no cursor yet, so that paging starts at the length already
    shown; let [C = contentSummaryLength > 0].  Then repeated
    [getMoreContent] calls answer with [⌈(L − offset0)/C⌉] chunks, each of
    them non-empty, which are the consecutive pieces of [full] from
    [offset0] on (together they make up the rest of the text), and with the
    empty string on every call after that. *)
Theorem getMoreContent_pagination (cfg : Config) (s : WebSearchService)
    (userId : string) (page : PageEntry) (full : string) :
  0 < contentSummaryLength cfg →
  currentWebpageContent s !! userId = Some page →
  c_fullTextContent (pe_content page) = Some full →
  contentPositions s !! userId = None →
  let C := contentSummaryLength cfg in
  let L := Js.length full in
  let offset0 := shown_length cfg full in
  let n := chunk_count L offset0 C in
  (∀ k, (more_calls cfg s userId k).1
        = (λ i : nat, Ok (if bool_decide (i < n)%nat
                          then chunk full offset0 C i else ""))
          <$> seq 0 k)
  ∧ (∀ i, (i < n)%nat → chunk full offset0 C i ≠ "")
  ∧ concat_map (chunk full offset0 C) (seq 0 n) = Js.substring full offset0 L.
Proof.
  intros HC Hpage Hfull Hnone C L offset0 n.
  assert (Hmul : ∀ i : nat, 0 ≤ Z.of_nat i * C) by (intros i; subst C; nia).
  assert (Hn : ∀ i, (i < n)%nat ↔ offset0 + Z.of_nat i * C < L).
  { intros i. by apply chunk_count_lt. }
  assert (Hoff : ∀ i, (i < n)%nat → offset0 = C).
  { intros i Hi. apply Hn in Hi. subst offset0. unfold shown_length in *.
    fold C L in Hi |- *. specialize (Hmul i).
    clear - Hi Hmul. clearbody C L. lia. }
  split_and!.
  - intros k. rewrite (more_calls_from cfg userId page full Hfull HC s k Hpage).
    apply list_fmap_ext. intros _ i _. f_equal.
    unfold cursor. rewrite Hnone. simpl. fold C.
    case_bool_decide as Hi.
    + rewrite (Hoff i Hi) in *. unfold reply_at, chunk. fold L C.
      apply Hn in Hi. destruct (Z.leb_spec L (C + Z.of_nat i * C)); [lia|].
      f_equal. ring.
    + unfold reply_at. fold L C.
      destruct (Z.leb_spec L (C + Z.of_nat i * C)) as [|Hlt]; [done|].
      exfalso. apply Hi, Hn. subst offset0. unfold shown_length. fold C L.
      clear - Hlt. clearbody C L. lia.
  - intros i Hi Hempty. apply length_empty_iff in Hempty.
    unfold chunk in Hempty. rewrite length_substring in Hempty by lia.
    rewrite (Hoff i Hi) in *. apply Hn in Hi.
    unfold clamp in Hempty. fold L in Hempty. specialize (Hmul i).
    fold C in HC. clear - Hempty Hi Hmul HC. clearbody C L. lia.
  - unfold chunk. rewrite (chunks_concat cfg full) by done.
    rewrite <- (substring_min_length full offset0 (offset0 + _)).
    fold C L. f_equal.
    assert (¬ offset0 + Z.of_nat n * C < L) by (rewrite <- Hn; lia).
    clear - H. clearbody C L offset0. lia.
Qed.

(** The theorem on the twelve-character page of the demonstration world
    with chunks of five: [56789], [ab], then nothing. *)
Lemma getMoreContent_pagination_witness :
  let s := webSearchService (Demo.run ["!search cats"; "!open 3"] new_handler) in
  0 < contentSummaryLength Demo.cfg
  ∧ contentPositions s !! "u" = None
  ∧ (more_calls Demo.cfg s "u" 4).1 = [Ok "56789"; Ok "ab"; Ok ""; Ok ""].
Proof.
  intros s. split; [reflexivity|]. split; [reflexivity|].
  pose (page := {| pe_url := "https://example.org/c";
                   pe_content := processArticle Demo.world Demo.cfg Demo.article
                                   "https://example.org/c" |}).
  destruct (getMoreContent_pagination Demo.cfg s "u" page "0123456789ab")
    as (Hcalls & _); [reflexivity|reflexivity|reflexivity|reflexivity|].
  exact (Hcalls 4%nat).
Defined.

(** ** The wired message path knows no navigation command *)

Lemma navigation_not_in_switch (c : string) :
  c ∈ MessageService.navigation_commands → c ∉ MessageService.switch_cases.
Proof.
  unfold MessageService.navigation_commands, MessageService.switch_cases.
  rewrite !elem_of_cons, !elem_of_nil.
  intros [-> | [-> | [-> | [-> | [-> | [-> | [-> | []]]]]]]];
    intros [? | [? | [? | [? | [? | []]]]]]; discriminate.
Qed.

Lemma handleCommand_default (m : MessageService.t) (sender command cmd : string) :
  head (Js.split_ws (Js.trim command)) = Some cmd →
  Js.toLowerCase cmd ∉ MessageService.switch_cases →
  MessageService.handleCommand m sender command
  = MessageService.sendMessage sender
      (MessageService.unknown_command (MessageService.commandPrefix m) cmd) m.
Proof.
  intros Hcmd Hnot. unfold MessageService.handleCommand. rewrite Hcmd. simpl.
  unfold MessageService.switch_cases in Hnot.
  rewrite !not_elem_of_cons in Hnot.
  destruct Hnot as (H1 & H2 & H3 & H4 & H5 & _).
  apply String.eqb_neq in H1, H2, H3, H4, H5.
  by rewrite H1, H2, H3, H4, H5.
Qed.

(** C3.  A message of ASCII text that starts with the command prefix goes
    to the command switch of [MessageService], whose cases are [help],
    [clear], [ping], [provider] and [system] only.  When its first word
    is, in any letter case, one of [search], [open], [back], [link],
    [more], [summarize] or [exit] (or anything else that is no case of
    the switch), the default
    branch is taken: the single effect is the reply [Unknown command:
    <cmd>. Type <prefix>help for available commands.], and nothing of the
    service changes.  The service holds no [SearchCommandHandler], so no
    navigation state exists on this path. *)
Theorem navigation_commands_are_unknown
    (complete : string → list LlmService.ChatMessage → res string)
    (m : MessageService.t) (sender text cmd : string) (quoted : option string) :
  Js.is_ascii text = true →
  MessageService.prefixCommands m = true →
  Js.startsWith text (MessageService.commandPrefix m) = true →
  head (Js.split_ws (Js.trim
         (Js.drop_chars (String.length (MessageService.commandPrefix m)) text)))
    = Some cmd →
  Js.toLowerCase cmd ∈ MessageService.navigation_commands
  ∨ Js.toLowerCase cmd ∉ MessageService.switch_cases →
  MessageService.handleMessage complete m sender text quoted
  = MessageService.sendMessage sender
      (MessageService.unknown_command (MessageService.commandPrefix m) cmd) m.
Proof.
  intros _ Hon Hprefix Hcmd Hnav.
  unfold MessageService.handleMessage. rewrite Hon, Hprefix. simpl.
  apply handleCommand_default; [done|].
  destruct Hnav as [Hnav|Hnot]; [by apply navigation_not_in_switch|done].
Qed.

(** The theorem at [!Search cats] sent to the service as [main] wires it. *)
Lemma navigation_commands_are_unknown_witness :
  MessageService.handleMessage (λ _ _, Ok "hello") MessageService.demo
    "u" "!Search cats" None
  = MessageService.sendMessage "u"
      "Unknown command: Search. Type !help for available commands."
      MessageService.demo.
Proof.
  apply (navigation_commands_are_unknown _ MessageService.demo "u" "!Search cats" "Search");
    [reflexivity|reflexivity|reflexivity|reflexivity|].
  left. unfold MessageService.navigation_commands. apply elem_of_cons. by left.
Defined.

(** ** What [open] leaves of the session *)

(** A successful [handleOpenResult] writes a state without [query]. *)
Lemma handleOpenResult_drops_query (w : World) (cfg : Config)
    (h : SearchCommandHandler) (sender : string) (n : Js.num)
    (result : Organic) (content : Content) (s' : WebSearchService) :
  getSearchResultById (webSearchService h) sender n = Some result →
  browseWebpage w cfg (webSearchService h) (link result) sender = (Ok content, s') →
  userStates (handleOpenResult w cfg h sender n) !! sender
  = Some {| mode := Some browse; lastAction := Some did_open; query := None;
            currentUrl := Some (link result); resultId := Some n |}.
Proof.
  intros Hfind Hbrowse. unfold handleOpenResult. rewrite Hfind. simpl.
  rewrite Hbrowse. simpl. by rewrite lookup_insert_eq.
Qed.

(** [back] on a session that is not at the result list and holds no query
    gives up and resets the session. *)
Lemma handleBackCommand_without_query (w : World) (cfg : Config)
    (h : SearchCommandHandler) (sender : string) (st : UserState) :
  userStates h !! sender = Some st →
  lastAction st ≠ Some did_search →
  query st = None →
  handleBackCommand w cfg h sender
  = set_userState sender chat_state (sendMessage sender msg_no_search_results h).
Proof.
  intros Hst Hact Hq. unfold handleBackCommand. rewrite Hst.
  rewrite bool_decide_eq_false_2 by done. by rewrite Hq.
Qed.

(** C1 fails on the code.  After [!search climate change] and [!open 3]
    (and also after a further [!link 2]) the session holds no query any
    more, and [!back] answers [No search results available. Please try a
    new search.] and resets the session to chat mode, where the claim has it
    search again for [climate change]. *)
Theorem back_after_open_has_lost_the_query :
  let opened := Demo.run ["!search climate change"; "!open 3"] new_handler in
  let linked := Demo.run ["!link 2"] opened in
  (query <$> userStates opened !! "u" = Some None
   ∧ Demo.last_reply (Demo.run ["!back"] opened) = Some msg_no_search_results
   ∧ userStates (Demo.run ["!back"] opened) !! "u" = Some chat_state)
  ∧ (query <$> userStates linked !! "u" = Some None
     ∧ lastAction <$> userStates linked !! "u" = Some (Some did_link)
     ∧ Demo.last_reply (Demo.run ["!back"] linked) = Some msg_no_search_results
     ∧ userStates (Demo.run ["!back"] linked) !! "u" = Some chat_state).
Proof. vm_compute. repeat split; reflexivity. Qed.

(** ** The cursor and page changes *)

(** [browseWebpage] never writes [contentPositions]. *)
Lemma browseWebpage_contentPositions (w : World) (cfg : Config)
    (s : WebSearchService) (url userId : string) :
  contentPositions (browseWebpage w cfg s url userId).2 = contentPositions s.
Proof. unfold browseWebpage. by destruct (readAsync w url). Qed.

(** C2 fails on the code.  The user opens a page, asks for [more] once
    (cursor 10 with chunks of five) and follows a link: the stored page is
    the new one, the cursor is still 10, and the first [more] on the new
    page returns its characters 10 to 14, skipping 5 to 9. *)
Theorem more_after_link_uses_the_old_cursor :
  let h := Demo.run ["!search cats"; "!open 3"; "!more"; "!link 1"] new_handler in
  pe_url <$> currentWebpageContent (webSearchService h) !! "u"
    = Some "https://example.org/x"
  ∧ (pe_content <$> currentWebpageContent (webSearchService h) !! "u")
      ≫= c_fullTextContent = Some "ABCDEFGHIJKLMNOPQ"
  ∧ contentPositions (webSearchService h) !! "u" = Some 10
  ∧ (getMoreContent Demo.cfg (webSearchService h) "u").1 = Ok "KLMNO"
  ∧ Js.substring "ABCDEFGHIJKLMNOPQ" (contentSummaryLength Demo.cfg)
      (2 * contentSummaryLength Demo.cfg) = "FGHIJ".
Proof. vm_compute. repeat split; reflexivity. Qed.

(** C5 fails on the code, by the defect of C2.  After [!search cats],
    [!open 3], [!more] and [!link 1] the stored page has the seventeen
    characters [ABCDEFGHIJKLMNOPQ], of which the page view has shown five.
    With chunks of five the claim has the three chunks [FGHIJ], [KLMNO]
    and [PQ], and the empty string from then on.  The cursor is still the
    10 that the page before left: the calls return [KLMNO], [PQ] and then
    the empty string, and no call ever returns [FGHIJ]. *)
Theorem pagination_after_link_loses_a_chunk :
  let h := Demo.run ["!search cats"; "!open 3"; "!more"; "!link 1"] new_handler in
  let s := webSearchService h in
  let full := "ABCDEFGHIJKLMNOPQ" in
  let C := contentSummaryLength Demo.cfg in
  let offset0 := shown_length Demo.cfg full in
  (pe_content <$> currentWebpageContent s !! "u") ≫= c_fullTextContent = Some full
  ∧ c_textContent <$> (pe_content <$> currentWebpageContent s !! "u")
    = Some "ABCDE..."
  ∧ chunk full offset0 C <$> seq 0 (chunk_count (Js.length full) offset0 C)
    = ["FGHIJ"; "KLMNO"; "PQ"]
  ∧ (more_calls Demo.cfg s "u" 3).1 = [Ok "KLMNO"; Ok "PQ"; Ok ""]
  ∧ ∀ k, Ok "FGHIJ" ∉ (more_calls Demo.cfg s "u" k).1.
Proof.
  intros h s full C offset0.
  split_and!; [reflexivity..|].
  intros k Hin.
  pose (page := {| pe_url := "https://example.org/x";
                   pe_content := processArticle Demo.world Demo.cfg Demo.article_x
                                   "https://example.org/x" |}).
  rewrite (more_calls_from Demo.cfg "u" page full eq_refl eq_refl s k eq_refl) in Hin.
  apply list_elem_of_fmap in Hin as (j & Hj & _).
  injection Hj as Hj.
  change (cursor Demo.cfg "u" s) with 10 in Hj.
  change (contentSummaryLength Demo.cfg) with 5 in Hj.
  destruct j as [|[|j]]; [discriminate Hj|discriminate Hj|].
  unfold reply_at in Hj. change (Js.length full) with 17 in Hj.
  destruct (Z.leb_spec 17 (10 + Z.of_nat (S (S j)) * 5)); [discriminate Hj|lia].
Qed.

(** ** [exit], then [back] *)

(** C8, as the code has it.  From any state [exit] sets the user's session
    to [{ mode: 'chat' }] and sends [Exited search mode. Back to normal
    chat.]; a [back] right after it finds that session, without a query,
    and replies [No search results available. Please try a new search.],
    leaving the session at [{ mode: 'chat' }]. *)
Theorem exit_then_back (w w' : World) (cfg : Config)
    (h : SearchCommandHandler) (sender : string) :
  let exited := (handleCommand w cfg h sender "exit" []).2 in
  let after := (handleCommand w' cfg exited sender "back" []).2 in
  userStates exited = <[sender := chat_state]> (userStates h)
  ∧ sent exited = sent h ++ [(sender, msg_exited)]
  ∧ sent after = sent exited ++ [(sender, msg_no_search_results)]
  ∧ userStates after !! sender = Some chat_state.
Proof.
  simpl. unfold handleBackCommand. simpl. rewrite lookup_insert_eq. simpl.
  split_and!; try done. by rewrite lookup_insert_eq.
Qed.

(** The reply to [back] after [exit] is not the report for a missing
    session, [There's no previous state to go back to.] *)
Lemma exit_then_back_counterexample :
  ¬ (∀ (w : World) (cfg : Config) (h : SearchCommandHandler) (sender : string),
       let exited := (handleCommand w cfg h sender "exit" []).2 in
       let after := (handleCommand w cfg exited sender "back" []).2 in
       last (sent after) = Some (sender, msg_no_previous_state)).
Proof.
  intros H. specialize (H Demo.world Demo.cfg new_handler "u").
  vm_compute in H. discriminate H.
Qed.

(** ** What the handlers may change in the service *)

Section Frame.

Variable w : World.
Variable cfg : Config.

Lemma extends_refl s : extends cfg s s.
Proof. unfold extends. split_and!; try done. intros; by left. Qed.

Lemma searchWeb_extends s query userId :
  extends cfg s (searchWeb w cfg s query userId).2.
Proof.
  unfold searchWeb. destruct (negb _); [apply extends_refl|].
  destruct (axios_post w query) as [data|e]; [|apply extends_refl].
  unfold extends, set_currentSearchResults. simpl. split_and!; try done.
  - rewrite dom_insert. set_solver.
  - intros u r. destruct (decide (userId = u)) as [->|Hne].
    + rewrite lookup_insert_eq. intros [= <-]. right. by eexists.
    + rewrite lookup_insert_ne by done. by left.
Qed.

Lemma browseWebpage_extends s url userId :
  extends cfg s (browseWebpage w cfg s url userId).2.
Proof.
  unfold browseWebpage. destruct (readAsync w url); [|apply extends_refl].
  unfold extends, set_currentWebpageContent. simpl. split_and!; try done.
  - rewrite dom_insert. set_solver.
  - intros; by left.
Qed.

Lemma followLink_extends s userId linkId :
  extends cfg s (followLink w cfg s userId linkId).2.
Proof.
  unfold followLink.
  repeat (case_match; try apply extends_refl).
  apply browseWebpage_extends.
Qed.

Lemma getMoreContent_extends s userId :
  extends cfg s (getMoreContent cfg s userId).2.
Proof.
  assert (Hins : ∀ p, extends cfg s
            (set_contentPositions (<[userId := p]> (contentPositions s)) s)).
  { intros p. unfold extends, set_contentPositions. simpl. split_and!; try done.
    - rewrite dom_insert. set_solver.
    - intros; by left. }
  assert (Hins2 : ∀ p q, extends cfg s
            (set_contentPositions
               (<[userId := q]> (<[userId := p]> (contentPositions s))) s)).
  { intros p q. rewrite insert_insert_eq. apply Hins. }
  unfold getMoreContent.
  destruct (currentWebpageContent s !! userId); [|apply extends_refl].
  destruct (contentPositions s !! userId) eqn:Hp; simpl;
    destruct (c_fullTextContent _); simpl;
    try destruct (_ <=? _); simpl;
    first [apply extends_refl | apply Hins | apply Hins2].
Qed.

(** The same for the handlers, whose [sendMessage] and [userStates.set]
    leave the service alone. *)
Lemma handleWebSearch_extends h sender query :
  extends cfg (webSearchService h) (webSearchService (handleWebSearch w cfg h sender query)).
Proof.
  unfold handleWebSearch. simpl.
  pose proof (searchWeb_extends (webSearchService h) query sender) as H.
  destruct (searchWeb w cfg (webSearchService h) query sender) as [[r|e] s']; exact H.
Qed.

Lemma handleOpenResult_extends h sender n :
  extends cfg (webSearchService h) (webSearchService (handleOpenResult w cfg h sender n)).
Proof.
  unfold handleOpenResult.
  destruct (getSearchResultById _ _ _) as [result|]; [|apply extends_refl]. simpl.
  pose proof (browseWebpage_extends (webSearchService h) (link result) sender) as H.
  destruct (browseWebpage w cfg (webSearchService h) (link result) sender)
    as [[r|e] s']; exact H.
Qed.

Lemma handleBackCommand_extends h sender :
  extends cfg (webSearchService h) (webSearchService (handleBackCommand w cfg h sender)).
Proof.
  unfold handleBackCommand.
  repeat (case_match; try apply extends_refl).
  apply handleWebSearch_extends.
Qed.

Lemma handleLinkCommand_extends h sender n :
  extends cfg (webSearchService h) (webSearchService (handleLinkCommand w cfg h sender n)).
Proof.
  unfold handleLinkCommand. simpl.
  pose proof (followLink_extends (webSearchService h) sender n) as H.
  destruct (followLink w cfg (webSearchService h) sender n) as [[r|e] s']; exact H.
Qed.

Lemma handleMoreCommand_extends h sender :
  extends cfg (webSearchService h) (webSearchService (handleMoreCommand cfg h sender)).
Proof.
  unfold handleMoreCommand.
  pose proof (getMoreContent_extends (webSearchService h) sender) as H.
  destruct (getMoreContent cfg (webSearchService h) sender) as [[r|e] s'];
    [destruct (negb _)|]; exact H.
Qed.

Lemma handleSummarizeCommand_service h sender :
  webSearchService (handleSummarizeCommand h sender) = webSearchService h.
Proof. unfold handleSummarizeCommand. repeat case_match; done. Qed.

Lemma handleCommand_extends h sender command args :
  extends cfg (webSearchService h)
    (webSearchService (handleCommand w cfg h sender command args).2).
Proof.
  unfold handleCommand.
  repeat (case_match; simpl; try apply extends_refl);
    first [ apply handleWebSearch_extends | apply handleOpenResult_extends
          | apply handleBackCommand_extends | apply handleLinkCommand_extends
          | apply handleMoreCommand_extends
          | rewrite handleSummarizeCommand_service; apply extends_refl ].
Qed.

Lemma handleDirectMessage_extends h sender text :
  extends cfg (webSearchService h)
    (webSearchService (handleDirectMessage w cfg h sender text).2).
Proof.
  unfold handleDirectMessage.
  set (h0 := match userStates h !! sender with
             | Some _ => h
             | None => set_userState sender chat_state h
             end).
  assert (Hsvc : webSearchService h0 = webSearchService h)
    by (subst h0; by destruct (userStates h !! sender)).
  rewrite <- Hsvc. clearbody h0.
  repeat (case_match; simpl; try apply extends_refl);
    first [ apply handleCommand_extends | apply handleWebSearch_extends
          | apply handleBackCommand_extends | apply handleLinkCommand_extends
          | apply handleMoreCommand_extends ].
Qed.

(** Dense ids are an invariant of every run. *)
Lemma formatSearchResults_dense searchData :
  dense_ids (formatSearchResults cfg searchData).
Proof.
  unfold dense_ids, formatSearchResults. simpl.
  destruct (sd_organic searchData); [|done].
  rewrite length_imap. apply ids_imap_format.
Qed.

Lemma extends_dense s s' : extends cfg s s' → dense_store s → dense_store s'.
Proof.
  intros (_ & _ & _ & Hres) Hs u r Hr.
  destruct (Hres u r Hr) as [Hold|[sd ->]]; [by eapply Hs|].
  apply formatSearchResults_dense.
Qed.

Lemma handleDirectMessage_dense h sender text :
  dense_store (webSearchService h) →
  dense_store (webSearchService (handleDirectMessage w cfg h sender text).2).
Proof. apply extends_dense, handleDirectMessage_extends. Qed.

End Frame.

Lemma new_service_dense : dense_store new_service.
Proof. intros u r Hr. simpl in Hr. by rewrite lookup_empty in Hr. Qed.

(** ** [open n] *)

Lemma find_id_seqZ (l : list Organic) (m z : Z) :
  id <$> l = seqZ m (Z.of_nat (List.length l)) →
  List.find (id_is (Js.Num z)) l
  = if bool_decide (m ≤ z < m + Z.of_nat (List.length l))
    then l !! Z.to_nat (z - m) else None.
Proof.
  revert m. induction l as [|x l IH]; intros m Hids.
  - simpl. case_bool_decide; [lia|done].
  - rewrite seqZ_cons in Hids by (simpl; lia).
    simpl in Hids. injection Hids as Hx Hl.
    replace (Z.pred (Z.of_nat (S (List.length l))))
      with (Z.of_nat (List.length l)) in Hl by lia.
    change (List.find (id_is (Js.Num z)) (x :: l))
      with (if id x =? z then Some x else List.find (id_is (Js.Num z)) l).
    rewrite Hx. destruct (Z.eqb_spec m z) as [->|Hne].
    + rewrite bool_decide_eq_true_2 by (simpl; lia).
      by rewrite Z.sub_diag.
    + rewrite (IH _ Hl). simpl List.length.
      case_bool_decide as H1; case_bool_decide as H2; try lia; [|done].
      replace (Z.to_nat (z - m)) with (S (Z.to_nat (z - Z.succ m))) by lia.
      done.
Qed.

Lemma getSearchResultById_dense (s : WebSearchService) (userId : string) (z : Z) :
  dense_store s →
  getSearchResultById s userId (Js.Num z)
  = if bool_decide (1 ≤ z ≤ result_count s userId)
    then currentSearchResults s !! userId ≫= λ r, organic r !! Z.to_nat (z - 1)
    else None.
Proof.
  intros Hs. unfold getSearchResultById, result_count.
  destruct (currentSearchResults s !! userId) as [r|] eqn:Hr.
  - rewrite (find_id_seqZ _ 1) by (by eapply Hs). simpl.
    case_bool_decide; case_bool_decide; try lia; done.
  - case_bool_decide; [lia|done].
Qed.

Lemma find_id_is (l : list Organic) (n : Js.num) (r : Organic) :
  List.find (id_is n) l = Some r → n = Js.Num (id r).
Proof.
  intros H. apply find_some in H as [_ H].
  destruct n as [|z]; [done|]. simpl in H. f_equal. lia.
Qed.

Lemma handleCommand_open (w : World) (cfg : Config) (h : SearchCommandHandler)
    (sender arg : string) (rest : list string) :
  handleCommand w cfg h sender "open" (arg :: rest)
  = if Js.isNaN (Js.parseInt arg)
    then (true, sendMessage sender
                  "Please specify a valid result number to open. For example: !open 2" h)
    else (true, handleOpenResult w cfg h sender (Js.parseInt arg)).
Proof. reflexivity. Qed.

(** C6, as the code has it.  Let [count] be the size of the user's stored
    result set (0 when there is none), and let the argument of [open] read
    as the integer [n].  For [n] outside [1 .. count] the command sends the
    not-found reply and changes nothing else: neither the sessions nor the
    service.  For [n] inside, the result with that id exists; when its page
    can be read the session becomes [mode = browse], [lastAction = open],
    [resultId = n], and when reading fails the error is reported and the
    sessions stay as they were. *)
Theorem handleOpenResult_range (w : World) (cfg : Config)
    (h : SearchCommandHandler) (sender arg : string) (rest : list string) (n : Z) :
  dense_store (webSearchService h) →
  Js.parseInt arg = Js.Num n →
  let count := result_count (webSearchService h) sender in
  let h' := (handleCommand w cfg h sender "open" (arg :: rest)).2 in
  (¬ (1 ≤ n ≤ count) → h' = sendMessage sender msg_result_not_found h)
  ∧ (1 ≤ n ≤ count →
     ∃ result,
       getSearchResultById (webSearchService h) sender (Js.Num n) = Some result
       ∧ id result = n
       ∧ match readAsync w (link result) with
         | Ok _ =>
             userStates h' !! sender
             = Some {| mode := Some browse; lastAction := Some did_open;
                       query := None; currentUrl := Some (link result);
                       resultId := Some (Js.Num n) |}
         | Throw error =>
             userStates h' = userStates h
             ∧ last (sent h')
               = Some (sender,
                       "Sorry, I encountered an error opening that page: "
                       +:+ "Failed to browse the webpage: " +:+ message error)
         end).
Proof.
  intros Hdense Harg count h'. subst h'.
  rewrite handleCommand_open, Harg. simpl. unfold handleOpenResult.
  pose proof (getSearchResultById_dense _ sender n Hdense) as Hget.
  fold count in Hget. split; intros Hn.
  - rewrite bool_decide_eq_false_2 in Hget by done. by rewrite Hget.
  - rewrite bool_decide_eq_true_2 in Hget by done.
    destruct (getSearchResultById (webSearchService h) sender (Js.Num n))
      as [result|] eqn:Hres.
    + exists result. split; [done|]. split.
      { unfold getSearchResultById in Hres.
        destruct (currentSearchResults _ !! sender); [|done].
        apply find_id_is in Hres. by injection Hres. }
      simpl. unfold browseWebpage.
      destruct (readAsync w (link result)) as [article|error]; simpl.
      * by rewrite lookup_insert_eq.
      * split; [done|]. by rewrite last_snoc.
    + exfalso. unfold count, result_count in Hn.
      destruct (currentSearchResults (webSearchService h) !! sender) as [r|];
        [|lia].
      simpl in Hget. symmetry in Hget. apply lookup_ge_None in Hget. lia.
Qed.

(** The theorem after a search with five stored results: [open 3] with
    the page readable, and [open 9] out of range. *)
Lemma handleOpenResult_range_witness :
  let h := Demo.run ["!search cats"] new_handler in
  Js.parseInt "3" = Js.Num 3
  ∧ (userStates (handleCommand Demo.world Demo.cfg h "u" "open" ["3"]).2 !! "u"
       ≫= lastAction) = Some did_open
  ∧ (handleCommand Demo.world Demo.cfg h "u" "open" ["9"]).2
    = sendMessage "u" msg_result_not_found h.
Proof.
  intros h. split; [reflexivity|].
  assert (Hdense : dense_store (webSearchService h)).
  { apply handleDirectMessage_dense, new_service_dense. }
  split.
  - destruct (handleOpenResult_range Demo.world Demo.cfg h "u" "3" [] 3 Hdense)
      as [_ Hin]; [reflexivity|].
    destruct Hin as (result & Hget & _ & Hst); [by vm_compute|].
    vm_compute in Hget. injection Hget as <-.
    assert (Hst' : userStates (handleCommand Demo.world Demo.cfg h "u" "open" ["3"]).2
                     !! "u"
                   = Some {| mode := Some browse; lastAction := Some did_open;
                             query := None;
                             currentUrl := Some "https://example.org/c";
                             resultId := Some (Js.Num 3) |}) by exact Hst.
    by rewrite Hst'.
  - destruct (handleOpenResult_range Demo.world Demo.cfg h "u" "9" [] 9 Hdense)
      as [Hout _]; [reflexivity|].
    apply Hout. vm_compute. intros [_ H]. by apply H.
Defined.

(** C6 as stated fails when the page of a valid result cannot be read:
    with the network down, [open 3] leaves [lastAction = search]. *)
Lemma handleOpenResult_range_counterexample :
  ¬ (∀ (w : World) (cfg : Config) (h : SearchCommandHandler)
       (sender arg : string) (n : Z),
       dense_store (webSearchService h) →
       Js.parseInt arg = Js.Num n →
       1 ≤ n ≤ result_count (webSearchService h) sender →
       let h' := (handleCommand w cfg h sender "open" [arg]).2 in
       userStates h' !! sender ≫= mode = Some browse
       ∧ userStates h' !! sender ≫= lastAction = Some did_open
       ∧ userStates h' !! sender ≫= resultId = Some (Js.Num n)).
Proof.
  intros H.
  destruct (H Demo.offline Demo.cfg (Demo.run ["!search cats"] new_handler)
              "u" "3" 3)
    as (_ & Hact & _).
  - apply handleDirectMessage_dense, new_service_dense.
  - reflexivity.
  - by vm_compute.
  - vm_compute in Hact. discriminate Hact.
Qed.

(** ** Extracted links *)

Section MainLoop.

Variable w : World.
Variable baseUrl : string.

Lemma anchor_step_invariant acc element :
  seen_invariant acc → seen_invariant (anchor_step w baseUrl acc element).
Proof.
  intros Hinv. destruct acc as [links seenUrls]. unfold anchor_step.
  repeat (case_match; try exact Hinv);
    destruct Hinv as [Hnd Hseen]; unfold seen_invariant; simpl in *; (split;
    [ rewrite fmap_app; simpl; apply NoDup_app;
      split_and!; [done| |apply NoDup_singleton];
      intros u Hu ->%list_elem_of_singleton;
      apply list_elem_of_fmap in Hu as (l & -> & Hl);
      apply Hseen in Hl; by case_bool_decide
    | intros l [Hl| ->%list_elem_of_singleton]%elem_of_app; simpl; set_solver ]).
Qed.

Lemma anchors_invariant anchors acc :
  seen_invariant acc → seen_invariant (foldl (anchor_step w baseUrl) acc anchors).
Proof.
  revert acc. induction anchors as [|a anchors IH]; intros acc Hacc; [done|].
  simpl. by apply IH, anchor_step_invariant.
Qed.

(** Away from the reference-heavy site the result has no url twice. *)
Lemma extractLinks_NoDup document :
  Js.includes baseUrl "wikipedia.org" = false →
  NoDup (url <$> extractLinks w document baseUrl).
Proof.
  intros Hbase. unfold extractLinks. destruct document as [doc|]; [|apply NoDup_nil_2].
  rewrite Hbase. apply anchors_invariant. split; [apply NoDup_nil_2|].
  intros l Hl. by apply elem_of_nil in Hl.
Qed.

End MainLoop.

(** C7 fails on the code.  On a page of the reference-heavy site whose
    reference list links to [https://example.org], the anchor loop stores
    the link under its absolute url [https://example.org/]; the citation
    loop then looks the raw [href] up in [seenUrls], does not find it, and
    appends the same absolute url a second time. *)
Theorem extractLinks_repeats_a_citation :
  url <$> extractLinks Wiki.world (Some Wiki.doc) Wiki.baseUrl
  = ["https://en.wikipedia.org/wiki/Felidae";
     "https://example.org/"; "https://example.org/"]
  ∧ ¬ NoDup (url <$> extractLinks Wiki.world (Some Wiki.doc) Wiki.baseUrl).
Proof.
  assert (H : url <$> extractLinks Wiki.world (Some Wiki.doc) Wiki.baseUrl
              = ["https://en.wikipedia.org/wiki/Felidae";
                 "https://example.org/"; "https://example.org/"])
    by (vm_compute; reflexivity).
  split; [exact H|]. rewrite H. intros Hnd.
  apply NoDup_cons in Hnd as [_ Hnd]. apply NoDup_cons in Hnd as [Hnotin _].
  apply Hnotin. by left.
Qed.

(** ** [link] with a number that is not one *)

Lemma startsWith_String (a b : ascii) (p s : string) :
  Js.startsWith (String b s) (String a p)
  = if Ascii.eqb a b then Js.startsWith s p else false.
Proof. reflexivity. Qed.

Lemma eqb_String (a b : ascii) (s t : string) :
  String.eqb (String a s) (String b t) = Ascii.eqb a b && String.eqb s t.
Proof. reflexivity. Qed.

Lemma link_shorthand_dispatch (text : string) :
  Js.startsWith (Js.toLowerCase text) "link " = true →
  Js.startsWith text "!" = false
  ∧ String.eqb (Js.toLowerCase text) "back" = false
  ∧ String.eqb (Js.toLowerCase text) "more" = false.
Proof.
  destruct text as [|c t]; [done|].
  change (Js.toLowerCase (String c t))
    with (String (Js.lower_char c) (Js.toLowerCase t)).
  rewrite startsWith_String, !eqb_String.
  destruct (Ascii.eqb_spec "l" (Js.lower_char c)) as [Hc|]; [|done].
  intros _. rewrite <- Hc. split_and!; [|done|done].
  change "!" with (String "!" ""). rewrite startsWith_String.
  destruct (Ascii.eqb_spec "!" c) as [<-|]; [|done].
  vm_compute in Hc. discriminate Hc.
Qed.

Lemma followLink_NaN (w : World) (cfg : Config) (s : WebSearchService)
    (userId : string) (entry : PageEntry) (links : list Link) :
  currentWebpageContent s !! userId = Some entry →
  c_links (pe_content entry) = Some links →
  links ≠ [] →
  followLink w cfg s userId Js.NaN = (Throw (undefined_read "text"), s).
Proof.
  intros Hentry Hlinks Hne. unfold followLink. rewrite Hentry, Hlinks.
  by destruct links.
Qed.

Lemma handleCommand_link (w : World) (cfg : Config) (h : SearchCommandHandler)
    (sender arg : string) (rest : list string) :
  handleCommand w cfg h sender "link" (arg :: rest)
  = if Js.isNaN (Js.parseInt arg)
    then (true, sendMessage sender
                  "Please specify a valid link number to follow. For example: !link 2" h)
    else (true, handleLinkCommand w cfg h sender (Js.parseInt arg)).
Proof. reflexivity. Qed.

(** C9.  A user in browse mode whose page has links sends the free text
    [link <something that is no number>], in ASCII.
    [handleDirectMessage] passes [parseInt]'s [NaN] to
    [handleLinkCommand] unchecked, and in
    [followLink] both range tests on [NaN - 1] are false, so the element at
    that index is read: it is [undefined], and reading its [text] raises a
    [TypeError] which is what the user is told, not the [Invalid link
    number] error.  The prefixed command with an ASCII argument that is
    no number is stopped by its [isNaN] test. *)
Theorem link_shorthand_skips_range_check (w : World) (cfg : Config)
    (h : SearchCommandHandler) (sender text : string) (st : UserState)
    (entry : PageEntry) (links : list Link) :
  Js.is_ascii text = true →
  userStates h !! sender = Some st →
  mode st = Some browse →
  Js.startsWith (Js.toLowerCase text) "link " = true →
  Js.parseInt (Js.trim (Js.drop_chars 5 text)) = Js.NaN →
  currentWebpageContent (webSearchService h) !! sender = Some entry →
  c_links (pe_content entry) = Some links →
  links ≠ [] →
  let index := JsNum.pred Js.NaN in
  JsNum.ltb index 0 = false
  ∧ JsNum.geb index (Z.of_nat (List.length links)) = false
  ∧ JsNum.index links index = None
  ∧ followLink w cfg (webSearchService h) sender Js.NaN
    = (Throw (undefined_read "text"), webSearchService h)
  ∧ undefined_read "text" ≠ invalid_link_number (List.length links)
  ∧ handleDirectMessage w cfg h sender text
    = (true,
       sendMessage sender
         ("Sorry, I couldn't follow that link: "
          +:+ "Cannot read properties of undefined (reading 'text')")
         (sendMessage sender "🔗 Following link #NaN..." h))
  ∧ (∀ arg rest, Js.is_ascii arg = true → Js.parseInt arg = Js.NaN →
       handleCommand w cfg h sender "link" (arg :: rest)
       = (true,
          sendMessage sender
            "Please specify a valid link number to follow. For example: !link 2" h)).
Proof.
  intros _ Hst Hmode Hlink Hnan Hentry Hlinks Hne index.
  pose proof (followLink_NaN w cfg _ sender entry links Hentry Hlinks Hne) as Hfollow.
  destruct (link_shorthand_dispatch text Hlink) as (Hbang & Hback & Hmore).
  split_and!; try done.
  - unfold handleDirectMessage. rewrite Hst, Hbang. cbv zeta. rewrite Hst.
    rewrite bool_decide_eq_true_2 by done.
    rewrite Hback, Hmore, Hlink, Hnan.
    unfold handleLinkCommand. cbv zeta.
    change (webSearchService (sendMessage _ _ h)) with (webSearchService h).
    by rewrite Hfollow.
  - intros arg rest _ Harg. rewrite handleCommand_link. by rewrite Harg.
Qed.

(** The theorem for the message [link abc] while the two-link page of the
    demonstration world is open. *)
Lemma link_shorthand_skips_range_check_witness :
  let h := Demo.run ["!search cats"; "!open 3"] new_handler in
  Js.parseInt (Js.trim (Js.drop_chars 5 "link abc")) = Js.NaN
  ∧ Demo.last_reply (handleDirectMessage Demo.world Demo.cfg h "u" "link abc").2
    = Some ("Sorry, I couldn't follow that link: "
            +:+ "Cannot read properties of undefined (reading 'text')").
Proof.
  intros h. split; [reflexivity|].
  pose (c := processArticle Demo.world Demo.cfg Demo.article "https://example.org/c").
  destruct (link_shorthand_skips_range_check Demo.world Demo.cfg h "u" "link abc"
              {| mode := Some browse; lastAction := Some did_open; query := None;
                 currentUrl := Some "https://example.org/c";
                 resultId := Some (Js.Num 3) |}
              {| pe_url := "https://example.org/c"; pe_content := c |}
              (Js.slice0 (extractLinks Demo.world (Some Demo.doc) "https://example.org/c") 15))
    as (_ & _ & _ & _ & _ & Hmsg & _);
    [reflexivity|reflexivity|reflexivity|reflexivity|reflexivity|reflexivity|reflexivity| |].
  - vm_compute. discriminate.
  - rewrite Hmsg. unfold Demo.last_reply. simpl. by rewrite last_snoc.
Defined.

(** ** [exit] and the caches of the service *)

Lemma clearUserContent_clears (s : WebSearchService) (userId : string) :
  currentSearchResults (clearUserContent s userId) !! userId = None
  ∧ currentWebpageContent (clearUserContent s userId) !! userId = None
  ∧ contentPositions (clearUserContent s userId) !! userId = None.
Proof. unfold clearUserContent. simpl. by rewrite !lookup_delete_eq. Qed.

(** C10.  The [exit] command, in any letter case, sets the user's session
    to [{ mode: 'chat' }], sends its confirmation, and leaves the three
    maps of the service as they are, so that result lookup for [open n] and
    [getMoreContent] for [more] answer after it as they would have before.
    Nor does any other message remove an entry of these maps: after every
    command, and every direct message, each user who had a result set, a
    page or a cursor still has one. *)
Theorem exit_keeps_the_service (w : World) (cfg : Config)
    (h : SearchCommandHandler) (sender command : string) (args : list string) :
  Js.toLowerCase command = "exit" →
  let h' := (handleCommand w cfg h sender command args).2 in
  userStates h' = <[sender := chat_state]> (userStates h)
  ∧ sent h' = sent h ++ [(sender, msg_exited)]
  ∧ webSearchService h' = webSearchService h
  ∧ (∀ n, getSearchResultById (webSearchService h') sender n
          = getSearchResultById (webSearchService h) sender n)
  ∧ getMoreContent cfg (webSearchService h') sender
    = getMoreContent cfg (webSearchService h) sender
  ∧ (∀ who c a, extends cfg (webSearchService h)
                  (webSearchService (handleCommand w cfg h who c a).2))
  ∧ (∀ who text, extends cfg (webSearchService h)
                   (webSearchService (handleDirectMessage w cfg h who text).2)).
Proof.
  intros Hexit h'. subst h'. unfold handleCommand. rewrite Hexit. simpl.
  split_and!; try done.
  - intros who c a. apply handleCommand_extends.
  - intros who text. apply handleDirectMessage_extends.
Qed.

(** The theorem for [EXIT] after a page has been opened and paged once:
    the next [more] continues with the second chunk. *)
Lemma exit_keeps_the_service_witness :
  let h := Demo.run ["!search cats"; "!open 3"; "!more"] new_handler in
  let h' := (handleCommand Demo.world Demo.cfg h "u" "EXIT" []).2 in
  Js.toLowerCase "EXIT" = "exit"
  ∧ userStates h' !! "u" = Some chat_state
  ∧ (getMoreContent Demo.cfg (webSearchService h') "u").1 = Ok "ab".
Proof.
  intros h h'. split; [reflexivity|].
  destruct (exit_keeps_the_service Demo.world Demo.cfg h "u" "EXIT" [])
    as (Hst & _ & _ & _ & Hmore & _); [reflexivity|].
  split.
  - fold h' in Hst. rewrite Hst. apply lookup_insert_eq.
  - fold h' in Hmore. rewrite Hmore. reflexivity.
Defined.

(** ** One user's message and the other users *)

Section Effects.

Variable w : World.
Variable cfg : Config.

Lemma service_same_at_refl B s : service_same_at B s s.
Proof. by unfold service_same_at. Qed.

Lemma searchWeb_same_at s query A B :
  B ≠ A → service_same_at B s (searchWeb w cfg s query A).2.
Proof.
  intros Hne. unfold searchWeb. destruct (negb _); [apply service_same_at_refl|].
  destruct (axios_post w query); [|apply service_same_at_refl].
  unfold service_same_at, set_currentSearchResults. simpl.
  by rewrite lookup_insert_ne.
Qed.

Lemma browseWebpage_same_at s url A B :
  B ≠ A → service_same_at B s (browseWebpage w cfg s url A).2.
Proof.
  intros Hne. unfold browseWebpage.
  destruct (readAsync w url); [|apply service_same_at_refl].
  unfold service_same_at, set_currentWebpageContent. simpl.
  by rewrite lookup_insert_ne.
Qed.

Lemma followLink_same_at s n A B :
  B ≠ A → service_same_at B s (followLink w cfg s A n).2.
Proof.
  intros Hne. unfold followLink.
  repeat (case_match; try apply service_same_at_refl).
  by apply browseWebpage_same_at.
Qed.

Lemma getMoreContent_same_at s A B :
  B ≠ A → service_same_at B s (getMoreContent cfg s A).2.
Proof.
  intros Hne. unfold getMoreContent.
  destruct (currentWebpageContent s !! A); [|apply service_same_at_refl].
  destruct (contentPositions s !! A) eqn:Hp; simpl;
    destruct (c_fullTextContent _); simpl;
    try destruct (_ <=? _); simpl;
    unfold service_same_at, set_contentPositions; simpl;
    rewrite ?lookup_insert_ne by done; done.
Qed.

Lemma effects_refl A h : effects A h h.
Proof.
  split; [intros B _; split; [done|apply service_same_at_refl]|].
  exists []. by rewrite app_nil_r.
Qed.

Lemma effects_sendMessage A h h1 t :
  effects A h h1 → effects A h (sendMessage A t h1).
Proof.
  intros [Hother (new & Hsent & Hto)]. split; [done|].
  exists (new ++ [(A, t)]). simpl. rewrite Hsent, <- app_assoc. split; [done|].
  apply Forall_app. split; [done|]. by apply Forall_singleton.
Qed.

Lemma effects_set_userState A h h1 st :
  effects A h h1 → effects A h (set_userState A st h1).
Proof.
  intros [Hother Hsent]. split; [|done].
  intros B HB. destruct (Hother B HB) as [Hst Hsvc]. split; [|done].
  simpl. by rewrite lookup_insert_ne.
Qed.

Lemma effects_set_service A h h1 s' :
  effects A h h1 →
  (∀ B, B ≠ A → service_same_at B (webSearchService h1) s') →
  effects A h (set_service s' h1).
Proof.
  intros [Hother Hsent] Hs'. split; [|done].
  intros B HB. destruct (Hother B HB) as [Hst (H1 & H2 & H3)].
  destruct (Hs' B HB) as (H1' & H2' & H3'). split; [done|].
  unfold service_same_at. simpl. by rewrite H1', H2', H3'.
Qed.

Lemma effects_trans A h h1 h2 :
  effects A h h1 → effects A h1 h2 → effects A h h2.
Proof.
  intros [Ho1 (n1 & Hs1 & Hf1)] [Ho2 (n2 & Hs2 & Hf2)]. split.
  - intros B HB. destruct (Ho1 B HB) as [Hst1 (A1 & A2 & A3)].
    destruct (Ho2 B HB) as [Hst2 (B1 & B2 & B3)].
    split; [by rewrite Hst2|].
    unfold service_same_at. by rewrite B1, B2, B3.
  - exists (n1 ++ n2). rewrite Hs2, Hs1, <- app_assoc. split; [done|].
    by apply Forall_app.
Qed.

Lemma handleWebSearch_effects h A query : effects A h (handleWebSearch w cfg h A query).
Proof.
  unfold handleWebSearch.
  pose proof (λ B, searchWeb_same_at (webSearchService h) query A B) as Hs.
  change (webSearchService (sendMessage A _ h)) with (webSearchService h).
  destruct (searchWeb w cfg (webSearchService h) query A) as [[r|e] s'];
    simpl in Hs.
  - apply effects_sendMessage, effects_set_userState, effects_set_service;
      [apply effects_sendMessage, effects_refl|done].
  - apply effects_sendMessage, effects_set_service;
      [apply effects_sendMessage, effects_refl|done].
Qed.

Lemma handleOpenResult_effects h A n : effects A h (handleOpenResult w cfg h A n).
Proof.
  unfold handleOpenResult.
  destruct (getSearchResultById _ _ _) as [result|];
    [|apply effects_sendMessage, effects_refl].
  pose proof (λ B, browseWebpage_same_at (webSearchService h) (link result) A B) as Hs.
  change (webSearchService (sendMessage A _ h)) with (webSearchService h).
  destruct (browseWebpage w cfg (webSearchService h) (link result) A) as [[r|e] s'];
    simpl in Hs.
  - apply effects_sendMessage, effects_set_userState, effects_set_service;
      [apply effects_sendMessage, effects_refl|done].
  - apply effects_sendMessage, effects_set_service;
      [apply effects_sendMessage, effects_refl|done].
Qed.

Lemma handleBackCommand_effects h A : effects A h (handleBackCommand w cfg h A).
Proof.
  unfold handleBackCommand.
  repeat case_match;
    first [ apply handleWebSearch_effects
          | apply effects_sendMessage, effects_set_userState, effects_refl
          | apply effects_set_userState, effects_sendMessage, effects_refl
          | apply effects_sendMessage, effects_refl ].
Qed.

Lemma handleLinkCommand_effects h A n : effects A h (handleLinkCommand w cfg h A n).
Proof.
  unfold handleLinkCommand.
  pose proof (λ B, followLink_same_at (webSearchService h) n A B) as Hs.
  change (webSearchService (sendMessage A _ h)) with (webSearchService h).
  destruct (followLink w cfg (webSearchService h) A n) as [[r|e] s'];
    simpl in Hs.
  - apply effects_sendMessage, effects_set_userState, effects_set_service;
      [apply effects_sendMessage, effects_refl|done].
  - apply effects_sendMessage, effects_set_service;
      [apply effects_sendMessage, effects_refl|done].
Qed.

Lemma handleMoreCommand_effects h A : effects A h (handleMoreCommand cfg h A).
Proof.
  unfold handleMoreCommand.
  pose proof (λ B, getMoreContent_same_at (webSearchService h) A B) as Hs.
  destruct (getMoreContent cfg (webSearchService h) A) as [[r|e] s'];
    simpl in Hs; [destruct (negb _)|];
    (apply effects_sendMessage, effects_set_service; [apply effects_refl|done]).
Qed.

Lemma handleSummarizeCommand_effects h A : effects A h (handleSummarizeCommand h A).
Proof.
  unfold handleSummarizeCommand.
  repeat case_match; repeat apply effects_sendMessage; apply effects_refl.
Qed.

Lemma handleExit_effects h A : effects A h (handleExit h A).
Proof. apply effects_sendMessage, effects_set_userState, effects_refl. Qed.

Lemma handleCommand_effects h A command args :
  effects A h (handleCommand w cfg h A command args).2.
Proof.
  unfold handleCommand.
  repeat (case_match; simpl);
    first [ apply handleWebSearch_effects | apply handleOpenResult_effects
          | apply handleBackCommand_effects | apply handleLinkCommand_effects
          | apply handleMoreCommand_effects | apply handleSummarizeCommand_effects
          | apply handleExit_effects
          | apply effects_sendMessage, effects_refl | apply effects_refl ].
Qed.

Lemma handleDirectMessage_effects h A text :
  effects A h (handleDirectMessage w cfg h A text).2.
Proof.
  unfold handleDirectMessage.
  set (h0 := match userStates h !! A with
             | Some _ => h
             | None => set_userState A chat_state h
             end).
  assert (H0 : effects A h h0).
  { subst h0. destruct (userStates h !! A);
      [apply effects_refl|apply effects_set_userState, effects_refl]. }
  clearbody h0. eapply effects_trans; [exact H0|].
  repeat (case_match; simpl);
    first [ apply handleCommand_effects | apply handleWebSearch_effects
          | apply handleBackCommand_effects | apply handleLinkCommand_effects
          | apply handleMoreCommand_effects | apply handleExit_effects
          | apply effects_refl ].
Qed.

End Effects.

(** X1.  Users do not see each other.  Whatever a user [A] sends, and
    whatever the world answers, for every other user [B] the session, the
    stored result set, the stored page and the cursor are what they were,
    the old outbox is kept in front, and every new message in it is
    addressed to [A]. *)
Theorem handleDirectMessage_isolation (w : World) (cfg : Config)
    (h : SearchCommandHandler) (A B text : string) :
  B ≠ A →
  let h' := (handleDirectMessage w cfg h A text).2 in
  userStates h' !! B = userStates h !! B
  ∧ currentSearchResults (webSearchService h') !! B
    = currentSearchResults (webSearchService h) !! B
  ∧ currentWebpageContent (webSearchService h') !! B
    = currentWebpageContent (webSearchService h) !! B
  ∧ contentPositions (webSearchService h') !! B
    = contentPositions (webSearchService h) !! B
  ∧ ∃ new, sent h' = sent h ++ new ∧ Forall (λ m, m.1 = A) new.
Proof.
  intros HB h'.
  destruct (handleDirectMessage_effects w cfg h A text) as [Hother Hsent].
  destruct (Hother B HB) as (Hst & H1 & H2 & H3). by split_and!.
Qed.

(** The theorem for a second user [v] who opens a page while [u] has a
    page and a cursor of their own. *)
Lemma handleDirectMessage_isolation_witness :
  let h := Demo.run ["!search cats"; "!open 3"; "!more"] new_handler in
  let h' := (handleDirectMessage Demo.world Demo.cfg h "v" "search dogs").2 in
  "u" ≠ "v"
  ∧ userStates h' !! "u" = userStates h !! "u"
  ∧ contentPositions (webSearchService h') !! "u" = Some 10.
Proof.
  intros h h'. assert (Hne : "u" ≠ "v") by discriminate.
  split; [exact Hne|].
  destruct (handleDirectMessage_isolation Demo.world Demo.cfg h "v" "u" "search dogs" Hne)
    as (Hst & _ & _ & Hpos & _).
  split; [exact Hst|]. fold h' in Hpos. rewrite Hpos. reflexivity.
Defined.

(** ** Which messages are handled, and that they are answered *)

Section Replies.

Variable w : World.
Variable cfg : Config.

Local Ltac count_sent :=
  simpl; rewrite ?length_app; simpl; lia.

Lemma handleWebSearch_replies h A q :
  (List.length (sent h) < List.length (sent (handleWebSearch w cfg h A q)))%nat.
Proof.
  unfold handleWebSearch.
  destruct (searchWeb w cfg _ q A) as [[r|e] s']; count_sent.
Qed.

Lemma handleOpenResult_replies h A n :
  (List.length (sent h) < List.length (sent (handleOpenResult w cfg h A n)))%nat.
Proof.
  unfold handleOpenResult. destruct (getSearchResultById _ _ _); [|count_sent].
  destruct (browseWebpage w cfg _ _ A) as [[r|e] s']; count_sent.
Qed.

Lemma handleBackCommand_replies h A :
  (List.length (sent h) < List.length (sent (handleBackCommand w cfg h A)))%nat.
Proof.
  unfold handleBackCommand.
  repeat case_match; first [apply handleWebSearch_replies | count_sent].
Qed.

Lemma handleLinkCommand_replies h A n :
  (List.length (sent h) < List.length (sent (handleLinkCommand w cfg h A n)))%nat.
Proof.
  unfold handleLinkCommand.
  destruct (followLink w cfg _ A n) as [[r|e] s']; count_sent.
Qed.

Lemma handleMoreCommand_replies h A :
  (List.length (sent h) < List.length (sent (handleMoreCommand cfg h A)))%nat.
Proof.
  unfold handleMoreCommand.
  destruct (getMoreContent cfg _ A) as [[r|e] s']; [destruct (negb _)|]; count_sent.
Qed.

Lemma handleSummarizeCommand_replies h A :
  (List.length (sent h) < List.length (sent (handleSummarizeCommand h A)))%nat.
Proof. unfold handleSummarizeCommand. repeat case_match; count_sent. Qed.

Lemma handleCommand_handled h A command args :
  (handleCommand w cfg h A command args).1
  = bool_decide (Js.toLowerCase command ∈ MessageService.navigation_commands).
Proof.
  unfold handleCommand, MessageService.navigation_commands. cbv zeta.
  generalize (Js.toLowerCase command). intros c.
  destruct (String.eqb_spec c "search") as [->|?]; [by repeat case_match|].
  destruct (String.eqb_spec c "open") as [->|?]; [by repeat case_match|].
  destruct (String.eqb_spec c "back") as [->|?]; [done|].
  destruct (String.eqb_spec c "link") as [->|?]; [by repeat case_match|].
  destruct (String.eqb_spec c "more") as [->|?]; [done|].
  destruct (String.eqb_spec c "summarize") as [->|?]; [done|].
  destruct (String.eqb_spec c "exit") as [->|?]; [done|].
  simpl. symmetry. apply bool_decide_eq_false.
  rewrite !elem_of_cons, elem_of_nil. tauto.
Qed.

Lemma handleCommand_replies h A command args :
  let r := handleCommand w cfg h A command args in
  if r.1 then (List.length (sent h) < List.length (sent r.2))%nat else r.2 = h.
Proof.
  unfold handleCommand. cbv zeta.
  repeat (case_match; simpl in *; try discriminate);
    first [ apply handleWebSearch_replies | apply handleOpenResult_replies
          | apply handleBackCommand_replies | apply handleLinkCommand_replies
          | apply handleMoreCommand_replies | apply handleSummarizeCommand_replies
          | count_sent | reflexivity ].
Qed.

End Replies.

(** The first word after the marker, as the dispatcher splits it off. *)
Lemma first_word_split (text : string) :
  ∃ command args,
    Js.split_ws (Js.trim (Js.drop_chars 1 text)) = command :: args
    ∧ default "" (head (Js.split_ws (Js.trim (Js.drop_chars 1 text)))) = command.
Proof.
  assert (H : ∀ cur b s, Js.split_ws_go cur b s ≠ []).
  { intros cur b s. revert cur b.
    induction s as [|c s IH]; intros cur b; simpl; [done|].
    destruct (Js.is_ws c); [destruct b|]; by try apply IH. }
  unfold Js.split_ws.
  destruct (Js.split_ws_go "" false _) as [|command args] eqn:E;
    [by apply H in E|]. by exists command, args.
Qed.

(** X2.  The routing of [handleDirectMessage], for ASCII text.  A message
    with the marker [!] is this component's exactly when its first word,
    letter case ignored, is one of the seven commands.  Free text is this
    component's exactly when the sender is in browse mode or the text
    starts, letter case ignored, with [search ] and a blank; everything
    else is left to the caller. *)
Theorem handleDirectMessage_routing (w : World) (cfg : Config)
    (h : SearchCommandHandler) (sender text : string) :
  Js.is_ascii text = true →
  (handleDirectMessage w cfg h sender text).1
  = if Js.startsWith text "!"
    then bool_decide
           (Js.toLowerCase
              (default "" (head (Js.split_ws (Js.trim (Js.drop_chars 1 text)))))
            ∈ MessageService.navigation_commands)
    else bool_decide (userStates h !! sender ≫= mode = Some browse)
         || Js.startsWith (Js.toLowerCase text) "search ".
Proof.
  intros _. unfold handleDirectMessage.
  set (h0 := match userStates h !! sender with
             | Some _ => h
             | None => set_userState sender chat_state h
             end).
  assert (Hmode : userStates h0 !! sender ≫= mode = Some browse
                  ↔ userStates h !! sender ≫= mode = Some browse).
  { subst h0. destruct (userStates h !! sender) eqn:E; [by rewrite E|].
    simpl. by rewrite lookup_insert_eq. }
  clearbody h0. cbv zeta.
  destruct (Js.startsWith text "!").
  - destruct (first_word_split text) as (command & args & -> & ->).
    apply handleCommand_handled.
  - rewrite (bool_decide_ext _ _ Hmode).
    destruct (bool_decide (userStates h !! sender ≫= mode = Some browse)).
    + by repeat case_match.
    + simpl. by case_match.
Qed.

(** The theorem on a command in capitals, on a word that is no command
    and on free text of a user who is not browsing. *)
Lemma handleDirectMessage_routing_witness :
  (handleDirectMessage Demo.world Demo.cfg new_handler "u" "!BACK now").1 = true
  ∧ (handleDirectMessage Demo.world Demo.cfg new_handler "u" "!help").1 = false
  ∧ (handleDirectMessage Demo.world Demo.cfg new_handler "u" "searching").1 = false.
Proof.
  split_and!.
  - rewrite (handleDirectMessage_routing Demo.world Demo.cfg new_handler "u" "!BACK now")
      by reflexivity.
    reflexivity.
  - rewrite (handleDirectMessage_routing Demo.world Demo.cfg new_handler "u" "!help")
      by reflexivity.
    reflexivity.
  - rewrite (handleDirectMessage_routing Demo.world Demo.cfg new_handler "u" "searching")
      by reflexivity.
    reflexivity.
Defined.

(** X3.  A handled message is answered: the outbox is longer afterwards.
    An unhandled one sends nothing and leaves the service alone; all it may
    do is create the sender's session, in chat mode. *)
Theorem handleDirectMessage_replies (w : World) (cfg : Config)
    (h : SearchCommandHandler) (sender text : string) :
  let r := handleDirectMessage w cfg h sender text in
  if r.1 then (List.length (sent h) < List.length (sent r.2))%nat
  else sent r.2 = sent h
       ∧ webSearchService r.2 = webSearchService h
       ∧ userStates r.2
         = match userStates h !! sender with
           | Some _ => userStates h
           | None => <[sender := chat_state]> (userStates h)
           end.
Proof.
  unfold handleDirectMessage.
  set (h0 := match userStates h !! sender with
             | Some _ => h
             | None => set_userState sender chat_state h
             end).
  assert (H0 : sent h0 = sent h ∧ webSearchService h0 = webSearchService h
               ∧ userStates h0
                 = match userStates h !! sender with
                   | Some _ => userStates h
                   | None => <[sender := chat_state]> (userStates h)
                   end).
  { subst h0. by destruct (userStates h !! sender). }
  destruct H0 as (Hsent & Hsvc & Hst). rewrite <- Hsent, <- Hsvc, <- Hst.
  clearbody h0. cbv zeta.
  destruct (Js.startsWith text "!").
  - destruct (first_word_split text) as (command & args & -> & _).
    pose proof (handleCommand_replies w cfg h0 sender command args) as H.
    simpl in H. destruct (handleCommand w cfg h0 sender command args).1;
      [done|by rewrite H].
  - repeat (case_match; simpl);
      first [ apply handleWebSearch_replies | apply handleBackCommand_replies
            | apply handleLinkCommand_replies | apply handleMoreCommand_replies
            | (simpl; rewrite ?length_app; simpl; lia) | done ].
Qed.

(** ** [followLink] and the range of link numbers *)

Lemma followLink_range_aux (w : World) (cfg : Config) (s : WebSearchService)
    (sender : string) (entry : PageEntry) (links : list Link) (n : Z) (l : Link) :
  currentWebpageContent s !! sender = Some entry →
  c_links (pe_content entry) = Some links →
  1 ≤ n →
  links !! Z.to_nat (n - 1) = Some l →
  followLink w cfg s sender (Js.Num n) = browseWebpage w cfg s (url l) sender
  ∧ n ≤ Z.of_nat (List.length links).
Proof.
  intros Hentry Hlinks Hn Hl.
  apply lookup_lt_Some in Hl as Hlt.
  unfold followLink. rewrite Hentry, Hlinks.
  destruct links as [|l0 links']; [simpl in Hlt; lia|].
  simpl JsNum.pred. unfold JsNum.ltb, JsNum.geb, JsNum.index.
  destruct (Z.ltb_spec (n - 1) 0); [lia|].
  destruct (Z.leb_spec (Z.of_nat (List.length (l0 :: links'))) (n - 1)); [lia|].
  simpl orb. cbv iota. rewrite Hl. split; [done|lia].
Qed.

(** X4.  [link n] is checked against the links of the page stored for the
    user, counted from 1.  A number outside [1 .. count] raises [Invalid
    link number. Please use a number between 1 and <count>] and neither
    the service nor, through [handleLinkCommand], the sessions change; a
    number inside browses the url of the link at that place. *)
Theorem followLink_range (w : World) (cfg : Config) (h : SearchCommandHandler)
    (sender : string) (entry : PageEntry) (links : list Link) (n : Z) :
  currentWebpageContent (webSearchService h) !! sender = Some entry →
  c_links (pe_content entry) = Some links →
  links ≠ [] →
  let count := List.length links in
  (¬ (1 ≤ n ≤ Z.of_nat count) →
     followLink w cfg (webSearchService h) sender (Js.Num n)
     = (Throw (invalid_link_number count), webSearchService h)
     ∧ userStates (handleLinkCommand w cfg h sender (Js.Num n)) = userStates h
     ∧ webSearchService (handleLinkCommand w cfg h sender (Js.Num n))
       = webSearchService h
     ∧ last (sent (handleLinkCommand w cfg h sender (Js.Num n)))
       = Some (sender,
               "Sorry, I couldn't follow that link: "
               +:+ "Invalid link number. Please use a number between 1 and "
               +:+ pretty (Z.of_nat count)))
  ∧ (1 ≤ n ≤ Z.of_nat count →
     ∃ l, links !! Z.to_nat (n - 1) = Some l
          ∧ followLink w cfg (webSearchService h) sender (Js.Num n)
            = browseWebpage w cfg (webSearchService h) (url l) sender).
Proof.
  intros Hentry Hlinks Hne count.
  assert (Hfollow : followLink w cfg (webSearchService h) sender (Js.Num n)
            = if (n - 1 <? 0) || (Z.of_nat count <=? n - 1)
              then (Throw (invalid_link_number count), webSearchService h)
              else match JsNum.index links (Js.Num (n - 1)) with
                   | None => (Throw (undefined_read "text"), webSearchService h)
                   | Some l => browseWebpage w cfg (webSearchService h) (url l) sender
                   end).
  { unfold followLink. rewrite Hentry, Hlinks. by destruct links. }
  split; intros Hn.
  - assert (Hout : (n - 1 <? 0) || (Z.of_nat count <=? n - 1) = true).
    { apply orb_true_iff. rewrite Z.ltb_lt, Z.leb_le. lia. }
    rewrite Hout in Hfollow. split; [done|].
    unfold handleLinkCommand. cbv zeta.
    change (webSearchService (sendMessage _ _ h)) with (webSearchService h).
    rewrite Hfollow. simpl. split_and!; try done. by rewrite last_snoc.
  - assert (Hin : (n - 1 <? 0) || (Z.of_nat count <=? n - 1) = false).
    { apply orb_false_iff. rewrite Z.ltb_ge, Z.leb_gt. lia. }
    rewrite Hin in Hfollow. simpl in Hfollow.
    destruct (Z.ltb_spec (n - 1) 0); [lia|].
    destruct (links !! Z.to_nat (n - 1)) as [l|] eqn:Hl.
    + by exists l.
    + apply lookup_ge_None in Hl. lia.
Qed.

(** The theorem on the two-link page of the demonstration world: [link 2]
    goes to the second link, [link 3] is refused. *)
Lemma followLink_range_witness :
  let h := Demo.run ["!search cats"; "!open 3"] new_handler in
  (followLink Demo.world Demo.cfg (webSearchService h) "u" (Js.Num 3)).1
    = Throw (Error "Invalid link number. Please use a number between 1 and 2")
  ∧ followLink Demo.world Demo.cfg (webSearchService h) "u" (Js.Num 2)
    = browseWebpage Demo.world Demo.cfg (webSearchService h) "https://example.org/y" "u".
Proof.
  intros h.
  pose (c := processArticle Demo.world Demo.cfg Demo.article "https://example.org/c").
  pose (links := Js.slice0 (extractLinks Demo.world (Some Demo.doc) "https://example.org/c") 15).
  assert (Hne : links ≠ []) by (vm_compute; discriminate).
  split.
  - destruct (followLink_range Demo.world Demo.cfg h "u"
                {| pe_url := "https://example.org/c"; pe_content := c |} links 3
                eq_refl eq_refl Hne) as [Hout _].
    destruct Hout as (Hthrow & _); [vm_compute; intros [_ H]; by apply H|].
    rewrite Hthrow. reflexivity.
  - destruct (followLink_range Demo.world Demo.cfg h "u"
                {| pe_url := "https://example.org/c"; pe_content := c |} links 2
                eq_refl eq_refl Hne) as [_ Hin].
    destruct Hin as (l & Hl & Hfollow); [vm_compute; split; discriminate|].
    vm_compute in Hl. injection Hl as <-. exact Hfollow.
Defined.

(** ** The page view and [more] together *)

Lemma take_chars_all (s : string) : Js.take_chars (String.length s) s = s.
Proof. induction s as [|c s IH]; simpl; [done|]. by rewrite IH. Qed.

Lemma substring_whole (s : string) (x : Z) :
  Js.length s ≤ x → Js.substring s 0 x = s.
Proof.
  intros Hx. unfold Js.length in Hx. rewrite substring_ordered by lia.
  unfold clamp, Js.length.
  replace (Z.max 0 (Z.min 0 _)) with 0 by lia.
  replace (Z.max 0 (Z.min x _) - 0) with (Z.of_nat (String.length s)) by lia.
  rewrite Nat2Z.id. simpl. apply take_chars_all.
Qed.

Lemma reply_at_substring (cfg : Config) (full : string) (p : Z) :
  0 ≤ contentSummaryLength cfg →
  reply_at cfg full p = Js.substring full p (p + contentSummaryLength cfg).
Proof.
  intros HC. unfold reply_at.
  destruct (Z.leb_spec (Js.length full) p) as [Hle|]; [|done].
  rewrite substring_ordered by lia. unfold clamp, Js.length in *.
  replace (Z.max 0 (Z.min (p + _) _) - Z.max 0 (Z.min p _)) with 0 by lia.
  by destruct (Js.drop_chars _ _).
Qed.

Lemma concat_map_fmap {A B} (f : B → string) (g : A → B) (l : list A) :
  concat_map f (g <$> l) = concat_map (f ∘ g) l.
Proof.
  induction l as [|x l IH]; [done|].
  change (concat_map f (g <$> x :: l)) with (f (g x) +:+ concat_map f (g <$> l)).
  by rewrite IH.
Qed.

Lemma concat_map_ext {A} (f g : A → string) (l : list A) :
  (∀ x, f x = g x) → concat_map f l = concat_map g l.
Proof.
  intros H. induction l as [|x l IH]; [done|].
  change (concat_map f (x :: l)) with (f x +:+ concat_map f l).
  by rewrite IH, H.
Qed.

Lemma processArticle_fullText (w : World) (cfg : Config) (article : Article)
    (url full : string) :
  art_plainText article = Some full →
  c_fullTextContent (processArticle w cfg article url) = Some full
  ∧ c_textContent (processArticle w cfg article url)
    = if contentSummaryLength cfg <? Js.length full
      then Js.substring full 0 (contentSummaryLength cfg) +:+ "..."
      else full.
Proof. intros H. unfold processArticle. by rewrite H. Qed.

(** X5.  Nothing of a page is lost or shown twice.  For a user without a
    cursor (one who has not paged before) and [contentSummaryLength > 0],
    the part of the text the page view shows, followed by the replies to
    [⌈(L − offset0)/C⌉] [more] requests, is the full text of the page. *)
Theorem page_view_and_more_cover_the_text (w : World) (cfg : Config)
    (s : WebSearchService) (url userId : string) (article : Article)
    (full : string) :
  0 < contentSummaryLength cfg →
  readAsync w url = Ok article →
  art_plainText article = Some full →
  contentPositions s !! userId = None →
  let viewed := browseWebpage w cfg s url userId in
  let shown := Js.substring full 0 (contentSummaryLength cfg) in
  let n := chunk_count (Js.length full) (shown_length cfg full)
             (contentSummaryLength cfg) in
  (∃ content, viewed.1 = Ok content
     ∧ c_textContent content
       = if contentSummaryLength cfg <? Js.length full
         then shown +:+ "..." else full)
  ∧ shown +:+ concat_map reply_text (more_calls cfg viewed.2 userId n).1 = full.
Proof.
  intros HC Hread Hplain Hnone viewed shown n.
  destruct (processArticle_fullText w cfg article url full Hplain) as [Hfull Htext].
  pose (page := {| pe_url := url; pe_content := processArticle w cfg article url |}).
  assert (Hviewed : viewed = (Ok (processArticle w cfg article url),
            set_currentWebpageContent (<[userId := page]> (currentWebpageContent s)) s)).
  { subst viewed. unfold browseWebpage. by rewrite Hread. }
  rewrite Hviewed. simpl. split; [by eexists|].
  set (s1 := set_currentWebpageContent _ s).
  assert (Hpage : currentWebpageContent s1 !! userId = Some page)
    by (subst s1; simpl; apply lookup_insert_eq).
  rewrite (more_calls_from cfg userId page full Hfull HC s1 n Hpage).
  assert (Hcur : cursor cfg userId s1 = contentSummaryLength cfg)
    by (unfold cursor; subst s1; simpl; by rewrite Hnone).
  rewrite Hcur, concat_map_fmap.
  rewrite (concat_map_ext _
             (λ i : nat, Js.substring full
                (contentSummaryLength cfg + Z.of_nat i * contentSummaryLength cfg)
                (contentSummaryLength cfg
                 + (Z.of_nat i + 1) * contentSummaryLength cfg))).
  2:{ intros i. simpl. rewrite reply_at_substring by lia. f_equal. ring. }
  rewrite (chunks_concat cfg full HC).
  subst shown. rewrite substring_app by nia.
  apply substring_whole.
  assert (Hn : ¬ (n < n)%nat) by lia.
  subst n. rewrite (chunk_count_lt cfg full HC) in Hn. lia.
Qed.

(** The theorem for the twelve-character page and chunks of five:
    [01234], then [56789] and [ab]. *)
Lemma page_view_and_more_cover_the_text_witness :
  let viewed := browseWebpage Demo.world Demo.cfg new_service "https://example.org/c" "u" in
  0 < contentSummaryLength Demo.cfg
  ∧ "01234" +:+ concat_map reply_text (more_calls Demo.cfg viewed.2 "u" 2).1
    = "0123456789ab".
Proof.
  intros viewed. split; [reflexivity|].
  destruct (page_view_and_more_cover_the_text Demo.world Demo.cfg new_service
              "https://example.org/c" "u" Demo.article "0123456789ab")
    as [_ Hcover]; [reflexivity|reflexivity|reflexivity|reflexivity|].
  exact Hcover.
Defined.

(** ** What the anchor loop of [extractLinks] computes *)

Section AnchorLoop.

Variable w : World.
Variable baseUrl : string.

Lemma anchor_step_accepted links seenUrls element :
  let r := anchor_step w baseUrl (links, seenUrls) element in
  url <$> r.1
  = (url <$> links)
    ++ match accepted w baseUrl element with
       | Some u => if bool_decide (u ∈ seenUrls) then [] else [u]
       | None => []
       end
  ∧ r.2 = match accepted w baseUrl element with
          | Some u => {[u]} ∪ seenUrls
          | None => seenUrls
          end.
Proof.
  unfold anchor_step, accepted.
  repeat (case_match; simplify_eq/=);
    rewrite ?app_nil_r, ?fmap_app; split; try done;
    match goal with
    | H : bool_decide _ = true |- _ =>
        apply bool_decide_eq_true in H; apply leibniz_equiv; set_solver
    end.
Qed.

Lemma anchors_first_occurrences anchors links seenUrls :
  url <$> (foldl (anchor_step w baseUrl) (links, seenUrls) anchors).1
  = (url <$> links) ++ first_occurrences seenUrls (omap (accepted w baseUrl) anchors).
Proof.
  revert links seenUrls. induction anchors as [|a anchors IH]; intros links seenUrls.
  - simpl. by rewrite app_nil_r.
  - change (foldl (anchor_step w baseUrl) (links, seenUrls) (a :: anchors))
      with (foldl (anchor_step w baseUrl)
              (anchor_step w baseUrl (links, seenUrls) a) anchors).
    destruct (anchor_step_accepted links seenUrls a) as [Hurls Hseen].
    destruct (anchor_step w baseUrl (links, seenUrls) a) as [links' seen'].
    cbv zeta in Hurls, Hseen. cbn [fst snd] in Hurls, Hseen.
    rewrite IH, Hurls, Hseen.
    change (omap (accepted w baseUrl) (a :: anchors))
      with (match accepted w baseUrl a with
            | Some u => u :: omap (accepted w baseUrl) anchors
            | None => omap (accepted w baseUrl) anchors
            end).
    destruct (accepted w baseUrl a) as [u|]; simpl.
    + case_bool_decide as Hu.
      * rewrite app_nil_r. do 2 f_equal. apply leibniz_equiv. set_solver.
      * by rewrite <- app_assoc.
    + by rewrite app_nil_r.
Qed.

End AnchorLoop.

Lemma first_occurrences_NoDup (seen : gset string) (l : list string) :
  NoDup (first_occurrences seen l)
  ∧ ∀ x, x ∈ first_occurrences seen l → x ∈ l ∧ x ∉ seen.
Proof.
  revert seen. induction l as [|x l IH]; intros seen; simpl.
  - split; [apply NoDup_nil_2|]. intros x Hx. by apply elem_of_nil in Hx.
  - case_bool_decide as Hx.
    + destruct (IH seen) as [Hnd Hin]. split; [done|].
      intros y Hy. destruct (Hin y Hy). split; [by right|done].
    + destruct (IH ({[x]} ∪ seen)) as [Hnd Hin]. split.
      * apply NoDup_cons. split; [|done]. intros Hx'.
        destruct (Hin x Hx') as [_ Hnot]. set_solver.
      * intros y [->|Hy]%elem_of_cons; [split; [by left|done]|].
        destruct (Hin y Hy) as [Hyl Hnot]. split; [by right|set_solver].
Qed.

(** X6.  Away from [wikipedia.org] the urls of the extracted links are
    exactly the absolute urls of the anchors that pass the filters, each
    at its first occurrence and in document order; so no url comes twice.
    Without a document the result is empty. *)
Theorem extractLinks_first_occurrences (w : World) (document : option Document)
    (baseUrl : string) :
  Js.includes baseUrl "wikipedia.org" = false →
  url <$> extractLinks w document baseUrl
  = first_occurrences ∅
      (omap (accepted w baseUrl) (default [] (d_anchors <$> document)))
  ∧ NoDup (url <$> extractLinks w document baseUrl).
Proof.
  intros Hbase.
  assert (H : url <$> extractLinks w document baseUrl
              = first_occurrences ∅
                  (omap (accepted w baseUrl) (default [] (d_anchors <$> document)))).
  { unfold extractLinks. destruct document as [doc|]; [|done].
    rewrite Hbase. simpl. by rewrite anchors_first_occurrences. }
  split; [done|]. rewrite H. apply first_occurrences_NoDup.
Qed.

(** The theorem on a page that repeats a link and carries a script link,
    a document download and a jump to its own top. *)
Lemma extractLinks_first_occurrences_witness :
  Js.includes Shop.baseUrl "wikipedia.org" = false
  ∧ url <$> extractLinks Shop.world (Some Shop.doc) Shop.baseUrl
    = ["https://shop.example/a"; "https://shop.example/b"].
Proof.
  split; [reflexivity|].
  destruct (extractLinks_first_occurrences Shop.world (Some Shop.doc) Shop.baseUrl)
    as [Hurls _]; [reflexivity|].
  rewrite Hurls. vm_compute. reflexivity.
Defined.

(** ** Every extracted link passed the filter *)

Section Origins.

Variable w : World.
Variable baseUrl : string.

Lemma shouldExcludeUrl_false (href : string) :
  shouldExcludeUrl (Some href) = false →
  href ≠ "" ∧ is_nonNavigable href = false ∧ has_fileExtension href = false.
Proof.
  destruct href as [|c r]; [done|]. simpl.
  intros [H1 H2]%orb_false_iff. done.
Qed.

Lemma origin_snoc links t href u :
  Forall (link_origin w baseUrl) links →
  shouldExcludeUrl (Some href) = false →
  url_href w href baseUrl = Some u →
  Forall (link_origin w baseUrl) (links ++ [{| text := t; url := u |}]).
Proof.
  intros Hl Hex Hu. apply Forall_app. split; [done|]. apply Forall_singleton.
  destruct (shouldExcludeUrl_false href Hex) as (? & ? & ?).
  by exists href.
Qed.

Lemma anchor_step_origin acc element :
  Forall (link_origin w baseUrl) acc.1 →
  Forall (link_origin w baseUrl) (anchor_step w baseUrl acc element).1.
Proof.
  destruct acc as [links seenUrls]. intros Hacc. unfold anchor_step.
  repeat (case_match; try exact Hacc); simpl; by eapply origin_snoc.
Qed.

Lemma citation_step_origin doc acc ie :
  Forall (link_origin w baseUrl) acc.1 →
  Forall (link_origin w baseUrl) (citation_step w doc baseUrl acc ie).1.
Proof.
  destruct acc as [links seenUrls]. intros Hacc. unfold citation_step.
  repeat (case_match; try exact Hacc); simpl.
  all: match goal with
       | H : negb (shouldExcludeUrl _) && _ = true |- _ =>
           apply andb_true_iff in H as [H _]; apply negb_true_iff in H
       end; by eapply origin_snoc.
Qed.

Lemma reference_step_origin acc ie :
  Forall (link_origin w baseUrl) acc.1 →
  Forall (link_origin w baseUrl) (reference_step w baseUrl acc ie).1.
Proof.
  destruct acc as [links seenUrls]. intros Hacc. unfold reference_step.
  repeat (case_match; try exact Hacc); simpl.
  all: match goal with
       | H : negb (shouldExcludeUrl _) && _ = true |- _ =>
           apply andb_true_iff in H as [H _]; apply negb_true_iff in H
       end; by eapply origin_snoc.
Qed.

Lemma foldl_origin {A} (step : LinkAcc → A → LinkAcc) (l : list A) acc :
  (∀ acc x, Forall (link_origin w baseUrl) acc.1 →
            Forall (link_origin w baseUrl) (step acc x).1) →
  Forall (link_origin w baseUrl) acc.1 →
  Forall (link_origin w baseUrl) (foldl step acc l).1.
Proof.
  intros Hstep. revert acc. induction l as [|x l IH]; intros acc Hacc; [done|].
  simpl. by apply IH, Hstep.
Qed.

End Origins.

(** X7.  On every page, the reference-heavy site included, each extracted
    link has the url that some [href] of the page resolves to, and that
    [href] is not empty, matches none of the non-navigable patterns
    ([javascript:], [mailto:], [tel:], [sms:], [data:], [blob:] in any
    letter case, or a bare [#]) and does not end in a filtered file
    extension. *)
Theorem extractLinks_origins (w : World) (document : option Document)
    (baseUrl : string) :
  Forall (link_origin w baseUrl) (extractLinks w document baseUrl).
Proof.
  unfold extractLinks. destruct document as [doc|]; [|apply Forall_nil_2].
  assert (H1 : Forall (link_origin w baseUrl)
                 (foldl (anchor_step w baseUrl) ([], ∅) (d_anchors doc)).1).
  { apply foldl_origin; [apply anchor_step_origin|apply Forall_nil_2]. }
  destruct (Js.includes baseUrl "wikipedia.org"); [|done].
  apply foldl_origin; [apply reference_step_origin|].
  apply foldl_origin; [apply citation_step_origin|done].
Qed.

(** ** One [more] request, from any cursor *)

(** X8.  Wherever the cursor stands (also when an earlier page left it
    behind), with [contentSummaryLength >= 0] a [more] request on a page
    with text returns the characters from the cursor to cursor +
    [contentSummaryLength], moves the cursor forward by that much unless
    the text is used up, never moves it back, and touches neither the
    stored pages nor the stored result sets. *)
Theorem getMoreContent_advances (cfg : Config) (s : WebSearchService)
    (userId : string) (page : PageEntry) (full : string) :
  0 ≤ contentSummaryLength cfg →
  currentWebpageContent s !! userId = Some page →
  c_fullTextContent (pe_content page) = Some full →
  let p := cursor cfg userId s in
  let r := getMoreContent cfg s userId in
  r.1 = Ok (Js.substring full p (p + contentSummaryLength cfg))
  ∧ cursor cfg userId r.2
    = (if Js.length full <=? p then p else p + contentSummaryLength cfg)
  ∧ p ≤ cursor cfg userId r.2
  ∧ currentWebpageContent r.2 = currentWebpageContent s
  ∧ currentSearchResults r.2 = currentSearchResults s.
Proof.
  intros HC Hpage Hfull p r.
  assert (Hr : r.1 = Ok (reply_at cfg full p)
               ∧ cursor cfg userId r.2
                 = (if Js.length full <=? p then p else p + contentSummaryLength cfg)
               ∧ currentWebpageContent r.2 = currentWebpageContent s
               ∧ currentSearchResults r.2 = currentSearchResults s).
  { subst r p. unfold getMoreContent, reply_at, cursor, set_contentPositions.
    rewrite Hpage, Hfull.
    destruct (contentPositions s !! userId) as [q|] eqn:Hq; simpl.
    - rewrite Hq. simpl. destruct (Js.length full <=? q); simpl.
      + by rewrite Hq.
      + rewrite lookup_insert_eq, substring_min_length. done.
    - rewrite lookup_insert_eq. simpl.
      destruct (Js.length full <=? contentSummaryLength cfg); simpl.
      + by rewrite lookup_insert_eq.
      + rewrite lookup_insert_eq, substring_min_length. done. }
  destruct Hr as (Hreply & Hcur & Hpages & Hresults).
  rewrite Hreply, Hcur, reply_at_substring by done.
  split_and!; try done. destruct (Js.length full <=? p); lia.
Qed.

(** The theorem with the cursor an earlier page has left at 10, on the
    seventeen-character page. *)
Lemma getMoreContent_advances_witness :
  let s := webSearchService
             (Demo.run ["!search cats"; "!open 3"; "!more"; "!link 1"] new_handler) in
  cursor Demo.cfg "u" s = 10
  ∧ (getMoreContent Demo.cfg s "u").1 = Ok "KLMNO"
  ∧ cursor Demo.cfg "u" (getMoreContent Demo.cfg s "u").2 = 15.
Proof.
  intros s. split; [reflexivity|].
  pose (page := {| pe_url := "https://example.org/x";
                   pe_content := processArticle Demo.world Demo.cfg Demo.article_x
                                   "https://example.org/x" |}).
  destruct (getMoreContent_advances Demo.cfg s "u" page "ABCDEFGHIJKLMNOPQ")
    as (Hreply & Hcur & _); [by vm_compute|reflexivity|reflexivity|].
  split; [rewrite Hreply|rewrite Hcur]; reflexivity.
Defined.

(** ** [more] where there is no text *)

(** X9.  A [more] request before any page was stored is answered with the
    sentence [No current webpage content available], set as if it were
    page content, and changes nothing.  On a stored page without full text
    (the one [processArticle] builds when the conversion failed) it
    reports the engine's error for reading [length] of [undefined]; the
    sessions and the stored pages stay as they were. *)
Theorem handleMoreCommand_without_text (cfg : Config) (h : SearchCommandHandler)
    (sender : string) :
  (currentWebpageContent (webSearchService h) !! sender = None →
     handleMoreCommand cfg h sender
     = sendMessage sender
         ("*More Content:*" +:+ nl +:+ nl +:+ "No current webpage content available"
          +:+ nl +:+ nl +:+ "(Type *!more* again for additional content)") h)
  ∧ (∀ page, currentWebpageContent (webSearchService h) !! sender = Some page →
       c_fullTextContent (pe_content page) = None →
       let h' := handleMoreCommand cfg h sender in
       sent h' = sent h
                 ++ [(sender,
                      "Sorry, I encountered an error getting more content: "
                      +:+ "Cannot read properties of undefined (reading 'length')")]
       ∧ userStates h' = userStates h
       ∧ currentWebpageContent (webSearchService h')
         = currentWebpageContent (webSearchService h)).
Proof.
  split.
  - intros Hnone. unfold handleMoreCommand, getMoreContent. rewrite Hnone.
    by destruct h.
  - intros page Hpage Hfull. unfold handleMoreCommand, getMoreContent.
    rewrite Hpage, Hfull.
    by destruct (contentPositions (webSearchService h) !! sender).
Qed.

(** The theorem for a user who has only searched, and for one whose page
    could not be converted. *)
Lemma handleMoreCommand_without_text_witness :
  let unread : World :=
    {| axios_post := axios_post Demo.world;
       readAsync := λ _, Ok {| art_title := None; art_plainText := None;
                               art_textBody := Some "raw"; art_document := None |};
       url_href := url_href Demo.world; url_hostname := url_hostname Demo.world |} in
  let h := Demo.run ["!search cats"] new_handler in
  let h1 := handleOpenResult unread Demo.cfg h "u" (Js.Num 1) in
  Demo.last_reply (handleMoreCommand Demo.cfg h "u")
    = Some ("*More Content:*" +:+ nl +:+ nl +:+ "No current webpage content available"
            +:+ nl +:+ nl +:+ "(Type *!more* again for additional content)")
  ∧ Demo.last_reply (handleMoreCommand Demo.cfg h1 "u")
    = Some ("Sorry, I encountered an error getting more content: "
            +:+ "Cannot read properties of undefined (reading 'length')").
Proof.
  intros unread h h1.
  destruct (handleMoreCommand_without_text Demo.cfg h "u") as [Hnone _].
  destruct (handleMoreCommand_without_text Demo.cfg h1 "u") as [_ Hpage].
  split.
  - rewrite Hnone by reflexivity. unfold Demo.last_reply. simpl.
    by rewrite last_snoc.
  - destruct (Hpage {| pe_url := "https://example.org/a";
                       pe_content := processArticle unread Demo.cfg
                         {| art_title := None; art_plainText := None;
                            art_textBody := Some "raw"; art_document := None |}
                         "https://example.org/a" |})
      as (Hsent & _); [reflexivity|reflexivity|].
    unfold Demo.last_reply. rewrite Hsent. by rewrite last_snoc.
Defined.

(** ** [clearUserContent] *)

(** X10.  [clearUserContent] removes the user's result set, page and
    cursor and nothing of anybody else.  Afterwards the user has no result
    to open, no page to page through or to follow links on; and the next
    page view is paged from its start, whatever cursor there was before
    (with [contentSummaryLength >= 0]). *)
Theorem clearUserContent_resets (w : World) (cfg : Config)
    (s : WebSearchService) (userId url : string) (article : Article) (full : string) :
  0 ≤ contentSummaryLength cfg →
  readAsync w url = Ok article →
  art_plainText article = Some full →
  let s0 := clearUserContent s userId in
  (∀ B, B ≠ userId → service_same_at B s s0)
  ∧ (∀ n, getSearchResultById s0 userId n = None)
  ∧ getMoreContent cfg s0 userId = (Ok "No current webpage content available", s0)
  ∧ (∀ n, followLink w cfg s0 userId n
          = (Throw (Error "No current webpage content available"), s0))
  ∧ (getMoreContent cfg (browseWebpage w cfg s0 url userId).2 userId).1
    = Ok (Js.substring full (contentSummaryLength cfg)
            (2 * contentSummaryLength cfg)).
Proof.
  intros HC Hread Hplain s0.
  destruct (clearUserContent_clears s userId) as (H1 & H2 & H3).
  fold s0 in H1, H2, H3. split_and!.
  - intros B HB. unfold service_same_at. subst s0. simpl.
    by rewrite !lookup_delete_ne.
  - intros n. unfold getSearchResultById. by rewrite H1.
  - unfold getMoreContent. by rewrite H2.
  - intros n. unfold followLink. by rewrite H2.
  - destruct (processArticle_fullText w cfg article url full Hplain) as [Hfull _].
    unfold browseWebpage. rewrite Hread. simpl.
    set (page := {| pe_url := url; pe_content := processArticle w cfg article url |}).
    set (s1 := set_currentWebpageContent _ s0).
    assert (Hpage : currentWebpageContent s1 !! userId = Some page)
      by (subst s1; simpl; apply lookup_insert_eq).
    destruct (getMoreContent_spec cfg userId page full Hfull s1 Hpage)
      as (s' & Hcall & _).
    rewrite Hcall. simpl.
    assert (Hcur : cursor cfg userId s1 = contentSummaryLength cfg).
    { unfold cursor.
      change (contentPositions s1 !! userId) with (contentPositions s0 !! userId).
      by rewrite H3. }
    rewrite Hcur, reply_at_substring by done. do 2 f_equal. lia.
Qed.

(** The theorem for the user whose cursor stood at 10: after the reset the
    seventeen-character page is paged from 5. *)
Lemma clearUserContent_resets_witness :
  let s := webSearchService (Demo.run ["!search cats"; "!open 3"; "!more"] new_handler) in
  contentPositions s !! "u" = Some 10
  ∧ (getMoreContent Demo.cfg
       (browseWebpage Demo.world Demo.cfg (clearUserContent s "u")
          "https://example.org/x" "u").2 "u").1
    = Ok "FGHIJ".
Proof.
  intros s. split; [reflexivity|].
  destruct (clearUserContent_resets Demo.world Demo.cfg s "u" "https://example.org/x"
              Demo.article_x "ABCDEFGHIJKLMNOPQ")
    as (_ & _ & _ & _ & Hmore); [by vm_compute|reflexivity|reflexivity|].
  rewrite Hmore. reflexivity.
Defined.

(** ** What a search leaves behind *)

Lemma handleWebSearch_session (w : World) (cfg : Config)
    (h : SearchCommandHandler) (sender q : string) (data : SearchData) :
  Js.truthy (serperApiKey cfg) = true →
  axios_post w q = Ok data →
  userStates (handleWebSearch w cfg h sender q)
  = <[sender := {| mode := Some browse; lastAction := Some did_search;
                   query := Some q; currentUrl := None; resultId := None |}]>
      (userStates h).
Proof.
  intros Hkey Hpost. unfold handleWebSearch, searchWeb. cbv zeta.
  change (webSearchService (sendMessage _ _ h)) with (webSearchService h).
  rewrite Hkey. simpl. by rewrite Hpost.
Qed.

(** X11.  [handleWebSearch] first announces the search.  When the key is
    configured and the provider answers, the sender's session becomes
    [mode = browse], [lastAction = search] with the query and nothing else,
    the sender's result set is replaced by the formatted answer, the stored
    pages and cursors stay, and the formatted list is sent.  When the key is
    missing or empty (the provider is then not asked) or the provider
    fails, sessions and service stay as they were and the error is
    reported. *)
Theorem handleWebSearch_outcome (w : World) (cfg : Config)
    (h : SearchCommandHandler) (sender q : string) :
  let h' := handleWebSearch w cfg h sender q in
  let notice := (sender, "🔍 Searching for: " +:+ dq +:+ q +:+ dq +:+ "...") in
  match (if Js.truthy (serperApiKey cfg) then axios_post w q
         else Throw (Error "Serper API key is not configured. Please set the SERPER_API_KEY environment variable."))
  with
  | Ok data =>
      let results := formatSearchResults cfg data in
      userStates h'
      = <[sender := {| mode := Some browse; lastAction := Some did_search;
                       query := Some q; currentUrl := None; resultId := None |}]>
          (userStates h)
      ∧ currentSearchResults (webSearchService h')
        = <[sender := results]> (currentSearchResults (webSearchService h))
      ∧ currentWebpageContent (webSearchService h')
        = currentWebpageContent (webSearchService h)
      ∧ contentPositions (webSearchService h') = contentPositions (webSearchService h)
      ∧ sent h' = sent h ++ [notice; (sender, formatSearchResultsMessage results)]
  | Throw error =>
      userStates h' = userStates h
      ∧ webSearchService h' = webSearchService h
      ∧ sent h'
        = sent h ++ [notice;
                     (sender, "Sorry, I encountered an error while searching: "
                              +:+ "Failed to search the web: " +:+ message error)]
  end.
Proof.
  unfold handleWebSearch, searchWeb. cbv zeta.
  change (webSearchService (sendMessage _ _ h)) with (webSearchService h).
  destruct (Js.truthy (serperApiKey cfg)); simpl.
  - destruct (axios_post w q) as [data|error]; simpl.
    + split_and!; try done. by rewrite <- app_assoc.
    + split_and!; try done. by rewrite <- app_assoc.
  - split_and!; try done. by rewrite <- app_assoc.
Qed.

(** X12.  [back] right after a search that succeeded does nothing but
    say so: the session, the stored results and the rest of the service
    are those the search left, and the reply is [You're already at the
    search results.] *)
Theorem back_after_search (w w' : World) (cfg : Config)
    (h : SearchCommandHandler) (sender q : string) (data : SearchData) :
  Js.truthy (serperApiKey cfg) = true →
  axios_post w q = Ok data →
  handleBackCommand w' cfg (handleWebSearch w cfg h sender q) sender
  = sendMessage sender msg_already_at_results (handleWebSearch w cfg h sender q).
Proof.
  intros Hkey Hpost.
  pose proof (handleWebSearch_session w cfg h sender q data Hkey Hpost) as Hst.
  unfold handleBackCommand. rewrite Hst, lookup_insert_eq. done.
Qed.

(** The theorem for a first search in the demonstration world. *)
Lemma back_after_search_witness :
  Js.truthy (serperApiKey Demo.cfg) = true
  ∧ handleBackCommand Demo.world Demo.cfg
      (handleWebSearch Demo.world Demo.cfg new_handler "u" "cats") "u"
    = sendMessage "u" msg_already_at_results
        (handleWebSearch Demo.world Demo.cfg new_handler "u" "cats").
Proof.
  split; [reflexivity|].
  apply (back_after_search Demo.world Demo.world Demo.cfg new_handler "u" "cats"
           Demo.data); reflexivity.
Defined.

(** ** Following a link, and going back afterwards *)

(** X13.  When link [n] of the stored page exists and its page can be
    read, [handleLinkCommand] stores the new page under the link's url and
    writes a session with [lastAction = link] and that url, keeping the
    mode, the query and the result id of the session it found.  If that
    session held a query, which is the case when the link was followed
    right after a search, a [back] now runs the search for it again. *)
Theorem handleLinkCommand_success (w : World) (cfg : Config)
    (h : SearchCommandHandler) (sender : string) (entry : PageEntry)
    (links : list Link) (n : Z) (l : Link) (article : Article) :
  currentWebpageContent (webSearchService h) !! sender = Some entry →
  c_links (pe_content entry) = Some links →
  1 ≤ n →
  links !! Z.to_nat (n - 1) = Some l →
  readAsync w (url l) = Ok article →
  let h' := handleLinkCommand w cfg h sender (Js.Num n) in
  let old := userStates h !! sender in
  userStates h' !! sender
  = Some {| mode := old ≫= mode; lastAction := Some did_link;
            query := old ≫= query; currentUrl := Some (url l);
            resultId := old ≫= resultId |}
  ∧ currentWebpageContent (webSearchService h') !! sender
    = Some {| pe_url := url l; pe_content := processArticle w cfg article (url l) |}
  ∧ (∀ w' q, old ≫= query = Some q → q ≠ "" →
       handleBackCommand w' cfg h' sender = handleWebSearch w' cfg h' sender q).
Proof.
  intros Hentry Hlinks Hn Hl Hread h' old.
  assert (Hne : links ≠ []) by (intros ->; done).
  destruct (followLink_range_aux w cfg (webSearchService h) sender entry links n l)
    as [Hfollow _]; try done.
  assert (Hst : userStates h' !! sender
            = Some {| mode := old ≫= mode; lastAction := Some did_link;
                      query := old ≫= query; currentUrl := Some (url l);
                      resultId := old ≫= resultId |}
          ∧ currentWebpageContent (webSearchService h') !! sender
            = Some {| pe_url := url l;
                      pe_content := processArticle w cfg article (url l) |}).
  { subst h'. unfold handleLinkCommand. cbv zeta.
    change (webSearchService (sendMessage _ _ h)) with (webSearchService h).
    rewrite Hfollow. unfold browseWebpage. rewrite Hread. simpl.
    rewrite !lookup_insert_eq. split; [|done].
    do 2 f_equal. unfold processArticle. by destruct (art_plainText article). }
  destruct Hst as [Hst Hpage]. split_and!; try done.
  intros w' q Hq Hqne. unfold handleBackCommand. rewrite Hst. simpl.
  rewrite Hq. by destruct q.
Qed.

(** The theorem for a link followed right after a second search, on the
    page the first search had led to. *)
Lemma handleLinkCommand_success_witness :
  let h := Demo.run ["!search cats"; "!open 3"; "!search dogs"] new_handler in
  let h' := handleLinkCommand Demo.world Demo.cfg h "u" (Js.Num 1) in
  userStates h' !! "u"
  = Some {| mode := Some browse; lastAction := Some did_link;
            query := Some "dogs"; currentUrl := Some "https://example.org/x";
            resultId := None |}
  ∧ handleBackCommand Demo.world Demo.cfg h' "u"
    = handleWebSearch Demo.world Demo.cfg h' "u" "dogs".
Proof.
  intros h h'.
  pose (c := processArticle Demo.world Demo.cfg Demo.article "https://example.org/c").
  pose (links := Js.slice0 (extractLinks Demo.world (Some Demo.doc) "https://example.org/c") 15).
  destruct (handleLinkCommand_success Demo.world Demo.cfg h "u"
              {| pe_url := "https://example.org/c"; pe_content := c |} links 1
              {| text := "First link"; url := "https://example.org/x" |}
              Demo.article_x)
    as (Hst & _ & Hback);
    [reflexivity|reflexivity|lia|reflexivity|reflexivity|].
  split; [exact Hst|].
  apply Hback; [reflexivity|discriminate].
Defined.

(** ** Invariants of every run *)

Section Invariants.

Variable w : World.
Variable cfg : Config.

Lemma session_inv_chat : session_inv chat_state.
Proof. unfold session_inv, chat_state. simpl. split_and!; first [done | by eexists]. Qed.

Lemma inv_send A t h : handler_inv h → handler_inv (sendMessage A t h).
Proof. by intros H. Qed.

Lemma inv_set_state A st h :
  handler_inv h → session_inv st → currentUrl st = None →
  (is_Some (query st) → is_Some (currentSearchResults (webSearchService h) !! A)) →
  handler_inv (set_userState A st h).
Proof.
  intros (Hd & Hp & Hs & Hr) Hst Hurl Hq. split_and!; [done| | |].
  - intros u st' url' Hu Hcur. simpl in Hu.
    destruct (decide (A = u)) as [->|Hne].
    + rewrite lookup_insert_eq in Hu. injection Hu as <-. congruence.
    + rewrite lookup_insert_ne in Hu by done. by eapply Hp.
  - intros u st' Hu. simpl in Hu. destruct (decide (A = u)) as [->|Hne].
    + rewrite lookup_insert_eq in Hu. by injection Hu as <-.
    + rewrite lookup_insert_ne in Hu by done. by eapply Hs.
  - intros u st' Hu Hq'. simpl in Hu. destruct (decide (A = u)) as [->|Hne].
    + rewrite lookup_insert_eq in Hu. injection Hu as <-. by apply Hq.
    + rewrite lookup_insert_ne in Hu by done. by eapply Hr.
Qed.

Lemma inv_results A data h :
  handler_inv h →
  handler_inv
    (set_service
       (set_currentSearchResults
          (<[A := formatSearchResults cfg data]>
             (currentSearchResults (webSearchService h))) (webSearchService h)) h).
Proof.
  intros (Hd & Hp & Hs & Hr). split_and!; [| done | done |].
  - intros u r Hu. simpl in Hu. destruct (decide (A = u)) as [->|Hne].
    + rewrite lookup_insert_eq in Hu. injection Hu as <-.
      apply formatSearchResults_dense.
    + rewrite lookup_insert_ne in Hu by done. by eapply Hd.
  - intros u st Hu Hq. simpl. destruct (decide (A = u)) as [->|Hne].
    + rewrite lookup_insert_eq. by eexists.
    + rewrite lookup_insert_ne by done. by eapply Hr.
Qed.

Lemma inv_page A st u c h :
  handler_inv h → session_inv st → currentUrl st = Some u →
  (is_Some (query st) → is_Some (currentSearchResults (webSearchService h) !! A)) →
  handler_inv
    (set_userState A st
       (set_service
          (set_currentWebpageContent
             (<[A := {| pe_url := u; pe_content := c |}]>
                (currentWebpageContent (webSearchService h))) (webSearchService h)) h)).
Proof.
  intros (Hd & Hp & Hs & Hr) Hst Hurl Hq. split_and!; [done| | |].
  - intros v st' url' Hv Hcur. simpl in Hv |- *.
    destruct (decide (A = v)) as [->|Hne].
    + rewrite lookup_insert_eq in Hv. injection Hv as <-.
      rewrite lookup_insert_eq. eexists. split; [done|]. simpl. congruence.
    + rewrite lookup_insert_ne in Hv by done. rewrite lookup_insert_ne by done.
      by eapply Hp.
  - intros v st' Hv. simpl in Hv. destruct (decide (A = v)) as [->|Hne].
    + rewrite lookup_insert_eq in Hv. by injection Hv as <-.
    + rewrite lookup_insert_ne in Hv by done. by eapply Hs.
  - intros v st' Hv Hq'. simpl in Hv |- *. destruct (decide (A = v)) as [->|Hne].
    + rewrite lookup_insert_eq in Hv. injection Hv as <-. by apply Hq.
    + rewrite lookup_insert_ne in Hv by done. by eapply Hr.
Qed.

Lemma inv_positions m h :
  handler_inv h →
  handler_inv (set_service (set_contentPositions m (webSearchService h)) h).
Proof. by intros H. Qed.

Lemma inv_same_service s h :
  s = webSearchService h → handler_inv h → handler_inv (set_service s h).
Proof. intros -> Hh. by destruct h. Qed.

Lemma handleWebSearch_inv h A q :
  handler_inv h → handler_inv (handleWebSearch w cfg h A q).
Proof.
  intros Hh. unfold handleWebSearch, searchWeb. cbv zeta.
  change (webSearchService (sendMessage A ?t h)) with (webSearchService h).
  destruct (negb _); [|destruct (axios_post w q) as [data|e]].
  - apply inv_send, inv_same_service; [reflexivity|by apply inv_send].
  - apply inv_send, inv_set_state.
    + by apply (inv_results A data (sendMessage A _ h)).
    + unfold session_inv. simpl. split_and!; try done; eauto.
    + done.
    + intros _. simpl. rewrite lookup_insert_eq. by eexists.
  - apply inv_send, inv_same_service; [reflexivity|by apply inv_send].
Qed.

Lemma handleOpenResult_inv h A n :
  handler_inv h → handler_inv (handleOpenResult w cfg h A n).
Proof.
  intros Hh. unfold handleOpenResult, browseWebpage.
  destruct (getSearchResultById _ _ _) as [result|]; [|by apply inv_send].
  cbv zeta.
  change (webSearchService (sendMessage A ?t h)) with (webSearchService h).
  destruct (readAsync w (link result)) as [article|e].
  - apply inv_send.
    apply (inv_page A _ (link result) _ (sendMessage A _ h)); try done.
    + unfold session_inv. simpl. split_and!; try done; eauto.
    + simpl. by intros [? ?].
  - apply inv_send, inv_same_service; [reflexivity|by apply inv_send].
Qed.

Lemma handleBackCommand_inv h A :
  handler_inv h → handler_inv (handleBackCommand w cfg h A).
Proof.
  intros Hh. unfold handleBackCommand.
  repeat case_match;
    first [ by apply handleWebSearch_inv
          | by apply inv_send
          | apply inv_send, inv_set_state;
              [done|apply session_inv_chat|done|by intros [? ?]]
          | apply inv_set_state;
              [by apply inv_send|apply session_inv_chat|done|by intros [? ?]] ].
Qed.

Lemma c_url_processArticle article u : c_url (processArticle w cfg article u) = u.
Proof. unfold processArticle. by destruct (art_plainText article). Qed.

Lemma handleLinkCommand_inv h A n :
  handler_inv h → is_Some (userStates h !! A) →
  handler_inv (handleLinkCommand w cfg h A n).
Proof.
  intros Hh [st Hst]. unfold handleLinkCommand. cbv zeta.
  change (webSearchService (sendMessage A ?t h)) with (webSearchService h).
  assert (Hcases : (∃ e, followLink w cfg (webSearchService h) A n
                         = (Throw e, webSearchService h))
                   ∨ ∃ u article,
                       followLink w cfg (webSearchService h) A n
                       = (Ok (processArticle w cfg article u),
                          set_currentWebpageContent
                            (<[A := {| pe_url := u;
                                       pe_content := processArticle w cfg article u |}]>
                               (currentWebpageContent (webSearchService h)))
                            (webSearchService h))).
  { unfold followLink, browseWebpage.
    repeat (case_match; try (left; by eexists)).
    right. by eexists _, _. }
  destruct Hcases as [[e ->]|(u & article & ->)].
  - apply inv_send, inv_same_service; [reflexivity|by apply inv_send].
  - apply inv_send. cbv beta.
    change (userStates (set_service ?s (sendMessage A ?t h))) with (userStates h).
    rewrite Hst. simpl. rewrite c_url_processArticle.
    destruct Hh as (Hd & Hp & Hs & Hr).
    destruct (Hs A st Hst) as (Hm & Hb & Hc & _).
    apply (inv_page A _ u _ (sendMessage A _ h)); try done.
    + unfold session_inv. simpl. split_and!; try done. intros _. right. by eexists.
    + simpl. intros Hq. by eapply Hr.
Qed.

Lemma handleMoreCommand_inv h A :
  handler_inv h → handler_inv (handleMoreCommand cfg h A).
Proof.
  intros Hh. unfold handleMoreCommand.
  assert (Hcases : ∃ m, (getMoreContent cfg (webSearchService h) A).2
                        = set_contentPositions m (webSearchService h)).
  { generalize (webSearchService h). intros s. unfold getMoreContent.
    destruct (currentWebpageContent s !! A);
      [|exists (contentPositions s); by destruct s].
    destruct (contentPositions s !! A) eqn:Hq; simpl;
      rewrite ?Hq, ?lookup_insert_eq; simpl;
      destruct (c_fullTextContent _); simpl; try destruct (_ <=? _); simpl;
      first [ by eexists | exists (contentPositions s); by destruct s ]. }
  destruct Hcases as [m Hm].
  destruct (getMoreContent cfg (webSearchService h) A) as [[r|e] s'];
    simpl in Hm; subst s'; [destruct (negb _)|];
    by apply inv_send, inv_positions.
Qed.

Lemma handleSummarizeCommand_inv h A :
  handler_inv h → handler_inv (handleSummarizeCommand h A).
Proof.
  intros Hh. unfold handleSummarizeCommand.
  repeat case_match; by repeat apply inv_send.
Qed.

Lemma handleExit_inv h A : handler_inv h → handler_inv (handleExit h A).
Proof.
  intros Hh. apply inv_send, inv_set_state;
    [done|apply session_inv_chat|done|by intros [? ?]].
Qed.

Lemma handleCommand_inv h A command args :
  handler_inv h → is_Some (userStates h !! A) →
  handler_inv (handleCommand w cfg h A command args).2.
Proof.
  intros Hh Hsess. unfold handleCommand.
  repeat (case_match; simpl);
    first [ by apply handleWebSearch_inv | by apply handleOpenResult_inv
          | by apply handleBackCommand_inv | by apply handleLinkCommand_inv
          | by apply handleMoreCommand_inv | by apply handleSummarizeCommand_inv
          | by apply handleExit_inv | by apply inv_send | done ].
Qed.

Lemma handleDirectMessage_inv h A text :
  handler_inv h → handler_inv (handleDirectMessage w cfg h A text).2.
Proof.
  intros Hh. unfold handleDirectMessage.
  set (h0 := match userStates h !! A with
             | Some _ => h
             | None => set_userState A chat_state h
             end).
  assert (H0 : handler_inv h0 ∧ is_Some (userStates h0 !! A)).
  { subst h0. destruct (userStates h !! A) eqn:E; [by rewrite E|]. split.
    - apply inv_set_state; [done|apply session_inv_chat|done|by intros [? ?]].
    - simpl. rewrite lookup_insert_eq. by eexists. }
  destruct H0 as [H0 Hsess]. clearbody h0.
  repeat (case_match; simpl);
    first [ by apply handleCommand_inv | by apply handleWebSearch_inv
          | by apply handleBackCommand_inv | by apply handleLinkCommand_inv
          | by apply handleMoreCommand_inv | by apply handleExit_inv | done ].
Qed.

End Invariants.

Lemma new_handler_inv : handler_inv new_handler.
Proof.
  split_and!.
  - apply new_service_dense.
  - intros u st url' Hu. simpl in Hu. by rewrite lookup_empty in Hu.
  - intros u st Hu. simpl in Hu. by rewrite lookup_empty in Hu.
  - intros u st Hu. simpl in Hu. by rewrite lookup_empty in Hu.
Qed.

Lemma run_steps_inv (cfg : Config) (steps : list Step) (h : SearchCommandHandler) :
  handler_inv h → handler_inv (run_steps cfg steps h).
Proof.
  revert h. induction steps as [|[[w A] text] steps IH]; intros h Hh; [done|].
  simpl. by apply IH, handleDirectMessage_inv.
Qed.

Lemma reachable_invariants_aux (cfg : Config) (steps : list Step) :
  handler_inv (run_steps cfg steps new_handler).
Proof. apply run_steps_inv, new_handler_inv. Qed.

(** X14.  Whatever messages arrive from whichever users, and whatever the
    world answers to each, the handler that started empty satisfies:
    every stored result set has the ids 1, 2, ... up to its size; a
    session with a current url belongs to a user whose stored page is the
    page of that url; a session with a query belongs to a user with a
    stored result set; every session has a mode, in browse mode it has a
    query or a current url, in chat mode it has no query, after a search
    it has the query and no url, after an open it has the url and the
    result id. *)
Theorem reachable_invariants (cfg : Config) (steps : list Step) :
  handler_inv (run_steps cfg steps new_handler).
Proof. apply run_steps_inv, new_handler_inv. Qed.

(** X15.  [summarize] reads and never writes: sessions and service are
    the same afterwards.  In every state a run can reach it has two
    outcomes only: the request to open a page first (when the sender is not
    in browse mode or has no current url), or the notice followed by the
    hand-over message [!summarize_webpage <prompt>] built from the title
    and the text of the stored page; the reply that the page could not be
    retrieved does not occur. *)
Theorem handleSummarizeCommand_reachable (cfg : Config) (steps : list Step)
    (sender : string) :
  let h := run_steps cfg steps new_handler in
  let h' := handleSummarizeCommand h sender in
  let prompt (c : Content) :=
    "Please provide a concise summary of the following webpage content. Focus on the main points and key information:"
    +:+ nl +:+ nl +:+ "Title: " +:+ c_title c
    +:+ nl +:+ nl +:+ "Content: "
    +:+ (if Js.truthy (c_fullTextContent c)
         then default "" (c_fullTextContent c) else c_textContent c) in
  userStates h' = userStates h
  ∧ webSearchService h' = webSearchService h
  ∧ (sent h'
     = sent h ++ [(sender, "Please open a webpage first before using the summarize command.")]
     ∨ ∃ st url entry,
         userStates h !! sender = Some st
         ∧ mode st = Some browse ∧ currentUrl st = Some url
         ∧ currentWebpageContent (webSearchService h) !! sender = Some entry
         ∧ pe_url entry = url
         ∧ sent h'
           = sent h ++ [(sender, "📝 Generating summary of current webpage...");
                        (sender, "!summarize_webpage " +:+ prompt (pe_content entry))]).
Proof.
  intros h h' prompt.
  destruct (reachable_invariants_aux cfg steps) as (_ & Hpage & _).
  fold h in Hpage. subst h'. unfold handleSummarizeCommand.
  destruct (userStates h !! sender) as [st|] eqn:Hst; [|split_and!; try done; by left].
  destruct st as [m la q cu ri].
  destruct m as [[|]|]; try (split_and!; try done; by left).
  destruct cu as [[|c r]|]; try (split_and!; try done; by left).
  destruct (Hpage sender _ (String c r) Hst eq_refl) as (entry & Hentry & Hu).
  cbv zeta.
  change (webSearchService (sendMessage sender ?t h)) with (webSearchService h).
  rewrite Hentry. split_and!; try done. right.
  exists {| mode := Some browse; lastAction := la; query := q;
            currentUrl := Some (String c r); resultId := ri |}, (String c r), entry.
  split_and!; try done. simpl. rewrite <- app_assoc. simpl.
  assert (Hfc : default (c_textContent (pe_content entry))
                  (Js.or_else (c_fullTextContent (pe_content entry)) None)
                = if Js.truthy (c_fullTextContent (pe_content entry))
                  then default "" (c_fullTextContent (pe_content entry))
                  else c_textContent (pe_content entry)).
  { unfold Js.or_else.
    by destruct (c_fullTextContent (pe_content entry)) as [[|? ?]|]. }
  subst prompt. cbv beta. by rewrite Hfc.
Qed.

(** ** The conversation store of [LlmService] *)

Section History.

Lemma updateConversationHistory_lookup (l : LlmService.t) (A : string)
    (m : LlmService.ChatMessage) :
  LlmService.conversations (LlmService.updateConversationHistory l A m) !! A
  = Some (last_k (Z.max 0 (2 * LlmService.maxHistoryLength l))
            (default [] (LlmService.conversations l !! A) ++ [m])).
Proof.
  unfold LlmService.updateConversationHistory, last_k. simpl.
  rewrite lookup_insert_eq. f_equal.
  generalize (default [] (LlmService.conversations l !! A) ++ [m]).
  intros history.
  destruct (Z.ltb_spec (LlmService.maxHistoryLength l * 2)
              (Z.of_nat (List.length history))) as [Hlt|Hge].
  - destruct (Z.le_gt_cases 0 (LlmService.maxHistoryLength l)).
    + f_equal. lia.
    + rewrite !drop_ge; [done| |]; lia.
  - replace (Z.to_nat _) with 0%nat by lia. done.
Qed.

Lemma length_last_k {A} (k : Z) (l : list A) :
  0 ≤ k → Z.of_nat (List.length (last_k k l)) = Z.min k (Z.of_nat (List.length l)).
Proof. intros Hk. unfold last_k. rewrite length_drop. lia. Qed.

Lemma last_k_snoc {A} (k : Z) (l : list A) (x : A) :
  0 ≤ k → last_k k (last_k k l ++ [x]) = last_k k (l ++ [x]).
Proof.
  intros Hk. unfold last_k.
  destruct (Z.le_gt_cases (Z.of_nat (List.length l)) k) as [Hle|Hgt].
  - replace (Z.to_nat (Z.of_nat (List.length l) - k)) with 0%nat by lia.
    by rewrite drop_0.
  - set (d := Z.to_nat (Z.of_nat (List.length l) - k)).
    assert (Hd : (d ≤ List.length l)%nat) by lia.
    rewrite <- (drop_app_le l [x] d Hd).
    rewrite drop_drop. f_equal.
    rewrite length_drop, !length_app. simpl. lia.
Qed.

Lemma updateConversationHistory_other (l : LlmService.t) (A B : string)
    (m : LlmService.ChatMessage) :
  B ≠ A →
  LlmService.conversations (LlmService.updateConversationHistory l A m) !! B
  = LlmService.conversations l !! B.
Proof.
  intros HB. unfold LlmService.updateConversationHistory. simpl.
  by rewrite lookup_insert_ne.
Qed.

Lemma updateConversationHistory_capped (l : LlmService.t) (A : string)
    (m : LlmService.ChatMessage) :
  0 ≤ LlmService.maxHistoryLength l →
  capped l → capped (LlmService.updateConversationHistory l A m).
Proof.
  intros HM Hl u hist Hu.
  change (LlmService.maxHistoryLength (LlmService.updateConversationHistory l A m))
    with (LlmService.maxHistoryLength l).
  destruct (decide (u = A)) as [->|Hne].
  - rewrite updateConversationHistory_lookup in Hu. injection Hu as <-.
    rewrite length_last_k by lia. lia.
  - rewrite updateConversationHistory_other in Hu by done. by apply (Hl u).
Qed.

End History.

(** X16.  [updateConversationHistory] appends the message and then keeps
    the newest [2 * maxHistoryLength] entries of the user's conversation
    (for [maxHistoryLength >= 0]): the stored conversation is a suffix of
    the old one with the message added, its length is the smaller of the
    old length plus one and the cap, and the other users' conversations
    are not touched. *)
Theorem updateConversationHistory_cap (l : LlmService.t) (A : string)
    (m : LlmService.ChatMessage) :
  0 ≤ LlmService.maxHistoryLength l →
  let old := default [] (LlmService.conversations l !! A) in
  let l' := LlmService.updateConversationHistory l A m in
  ∃ new, LlmService.conversations l' !! A = Some new
    ∧ new `suffix_of` old ++ [m]
    ∧ Z.of_nat (List.length new)
      = Z.min (Z.of_nat (List.length old) + 1) (2 * LlmService.maxHistoryLength l)
    ∧ ∀ B, B ≠ A → LlmService.conversations l' !! B = LlmService.conversations l !! B.
Proof.
  intros HM old l'. eexists. split; [apply updateConversationHistory_lookup|].
  fold old. split_and!.
  - apply suffix_drop.
  - rewrite length_last_k by lia. rewrite length_app. simpl. lia.
  - intros B HB. by apply updateConversationHistory_other.
Qed.

(** The theorem with a cap of two entries and a conversation of two. *)
Lemma updateConversationHistory_cap_witness :
  let m (r : LlmService.Role) (t : string) :=
    {| LlmService.role := r; LlmService.content := t |} in
  let l := LlmService.set_conversations
             {[ "u" := [m LlmService.user "hi"; m LlmService.assistant "hello"] ]}
             (LlmService.create (λ _, Some "key") "openai" 1) in
  0 ≤ LlmService.maxHistoryLength l
  ∧ LlmService.conversations
      (LlmService.updateConversationHistory l "u" (m LlmService.user "again")) !! "u"
    = Some [m LlmService.assistant "hello"; m LlmService.user "again"].
Proof.
  intros m l. assert (HM : 0 ≤ LlmService.maxHistoryLength l) by (simpl; lia).
  split; [exact HM|].
  destruct (updateConversationHistory_cap l "u" (m LlmService.user "again") HM)
    as (new & Hnew & _).
  rewrite Hnew. f_equal.
  assert (Hc : LlmService.conversations
                 (LlmService.updateConversationHistory l "u"
                    (m LlmService.user "again")) !! "u"
               = Some [m LlmService.assistant "hello"; m LlmService.user "again"])
    by reflexivity.
  rewrite Hnew in Hc. by injection Hc.
Defined.

(** ** What [getResponse] sends to the model *)

Section Request.

Import LlmService.

Lemma provider_ok_configured (l : t) :
  provider_ok l ↔ configured l (currentProvider l) = true.
Proof.
  unfold provider_ok, configured. split.
  - intros (p & -> & Hp). done.
  - destruct (lookup_provider l (currentProvider l)) as [p|]; [|done].
    intros Hp. by exists p.
Qed.

Lemma set_currentProvider_same (l : t) : set_currentProvider (currentProvider l) l = l.
Proof. by destruct l. Qed.

Lemma configured_lookup (l : t) (key : string) :
  configured l key = true →
  ∃ p, lookup_provider l key = Some p ∧ Js.truthy (apiKey p) = true.
Proof.
  unfold configured. destruct (lookup_provider l key) as [p|]; [|done].
  intros Hp. by exists p.
Qed.

(** The switch of [getResponse] sets the chosen provider. *)
Lemma getResponse_switch (l : t) (u : string) :
  provider_ok l →
  (let '(settings, l1) := getUserSettings l u None in
   if String.eqb (provider settings) (currentProvider l1) then l1
   else (switchProvider l1 (provider settings)).2)
  = set_currentProvider (chosen_provider l u) (getUserSettings l u None).2.
Proof.
  intros Hok. apply provider_ok_configured in Hok.
  unfold chosen_provider, settings_of.
  destruct (getUserSettings l u None) as [st l1] eqn:Hg. simpl.
  assert (Hl1 : l1 = (getUserSettings l u None).2) by (by rewrite Hg).
  assert (Hcur : currentProvider l1 = currentProvider l) by (by rewrite Hl1).
  assert (Hprov : ∀ k, lookup_provider l1 k = lookup_provider l k) by (by rewrite Hl1).
  destruct (String.eqb_spec (provider st) (currentProvider l1)) as [He|Hne].
  - rewrite He, Hcur, Hok, <- Hcur. by rewrite set_currentProvider_same.
  - unfold switchProvider, configured. rewrite Hprov.
    destruct (lookup_provider l (provider st)) as [p|]; simpl.
    + destruct (Js.truthy (apiKey p)); simpl; [done|].
      by rewrite <- Hcur, set_currentProvider_same.
    + by rewrite <- Hcur, set_currentProvider_same.
Qed.

Lemma chosen_provider_configured (l : t) (u : string) :
  provider_ok l → configured l (chosen_provider l u) = true.
Proof.
  intros Hok. apply provider_ok_configured in Hok. unfold chosen_provider.
  by destruct (configured l (provider (settings_of l u))) eqn:Hc.
Qed.

(** The service at the moment [getResponse] calls the model. *)
#[local] Abbreviation at_call l u text :=
  (updateConversationHistory
     (set_currentProvider (chosen_provider l u) (getUserSettings l u None).2)
     u (user_says text)).

(** The messages of the call. *)
#[local] Abbreviation call_messages l u text quoted :=
  (let messages := prepareMessagesForApi (at_call l u text) u (settings_of l u) in
   match quoted with
   | Some (String _ _ as q) =>
       (quote_last_user ("(In response to: " +:+ dq +:+ q +:+ dq +:+ ")") messages).1
   | _ => messages
   end).

Lemma getResponse_call (complete : string → list ChatMessage → res string)
    (l : t) (u text : string) (quoted : option string) :
  provider_ok l →
  ∃ p, lookup_provider l (chosen_provider l u) = Some p
       ∧ Js.truthy (apiKey p) = true
       ∧ getResponse complete l u text quoted
         = match complete (model p) (call_messages l u text quoted) with
           | Ok r => (r, updateConversationHistory (at_call l u text) u (assistant_says r))
           | Throw e => (llm_error e, at_call l u text)
           end.
Proof.
  intros Hok.
  destruct (configured_lookup l _ (chosen_provider_configured l u Hok)) as (p & Hp & Hkey).
  exists p. split_and!; [done..|].
  pose proof (getResponse_switch l u Hok) as Hsw.
  unfold getResponse, settings_of.
  destruct (getUserSettings l u None) as [st l1] eqn:Hg.
  cbn [fst snd] in *. rewrite Hsw.
  assert (Hl1 : l1 = (getUserSettings l u None).2) by (by rewrite Hg).
  change (lookup_provider (updateConversationHistory
            (set_currentProvider (chosen_provider l u) l1) u
            {| role := user; content := text |})
            (currentProvider (updateConversationHistory
               (set_currentProvider (chosen_provider l u) l1) u
               {| role := user; content := text |})))
    with (lookup_provider l1 (chosen_provider l u)).
  replace (lookup_provider l1 (chosen_provider l u))
    with (lookup_provider l (chosen_provider l u)) by (by rewrite Hl1).
  rewrite Hp. done.
Qed.

Lemma at_call_conversation (l : t) (u text : string) :
  conversations (at_call l u text) !! u
  = Some (last_k (Z.max 0 (2 * maxHistoryLength l))
            (default [] (conversations l !! u) ++ [user_says text])).
Proof. by rewrite updateConversationHistory_lookup. Qed.

Lemma last_k_last_k {A} (j k : Z) (xs : list A) :
  0 ≤ j → j ≤ k → last_k j (last_k k xs) = last_k j xs.
Proof.
  intros Hj Hjk. unfold last_k. rewrite drop_drop, length_drop. f_equal. lia.
Qed.

Lemma last_k_app_one {A} (k : Z) (xs : list A) (x : A) :
  1 ≤ k → last_k k (xs ++ [x]) = last_k (k - 1) xs ++ [x].
Proof.
  intros Hk. unfold last_k. rewrite length_app. simpl.
  rewrite drop_app_le by lia. do 2 f_equal. lia.
Qed.

Lemma slice_from_last_k {A} (k : Z) (xs : list A) :
  1 ≤ k → Js.slice_from xs (- k) = last_k k xs.
Proof.
  intros Hk. unfold Js.slice_from, last_k.
  destruct (Z.ltb_spec (- k) 0); [|lia]. f_equal. lia.
Qed.

Lemma quote_last_user_snoc (prefix text : string) (ms : list ChatMessage) :
  quote_last_user prefix (ms ++ [user_says text])
  = (ms ++ [user_says (prefix +:+ nl +:+ nl +:+ text)], true).
Proof.
  induction ms as [|m ms IH]; [done|].
  simpl. by rewrite IH.
Qed.

Lemma call_messages_shape (l : t) (u text : string) (quoted : option string) :
  1 ≤ maxHistoryLength l →
  call_messages l u text quoted
  = system_says (or_default (Some (systemPrompt (settings_of l u)))
                   (defaultSystemPrompt l))
    :: last_k (maxHistoryLength l - 1) (default [] (conversations l !! u))
    ++ [user_says (with_quote quoted text)].
Proof.
  intros HM. cbv zeta.
  assert (Hprep : prepareMessagesForApi (at_call l u text) u (settings_of l u)
    = system_says (or_default (Some (systemPrompt (settings_of l u)))
                     (defaultSystemPrompt l))
      :: last_k (maxHistoryLength l - 1) (default [] (conversations l !! u))
      ++ [user_says text]).
  { unfold prepareMessagesForApi, getConversationHistory.
    rewrite at_call_conversation.
    change (maxHistoryLength (at_call l u text)) with (maxHistoryLength l).
    change (defaultSystemPrompt (at_call l u text)) with (defaultSystemPrompt l).
    destruct (Z.eqb_spec (maxHistoryLength l) 0) as [|_]; [lia|].
    rewrite slice_from_last_k by done.
    rewrite last_k_last_k by lia.
    by rewrite last_k_app_one by done. }
  rewrite Hprep.
  destruct quoted as [[|c q]|]; [done| |done].
  rewrite app_comm_cons, quote_last_user_snoc. done.
Qed.

End Request.

(** X17.  The request [getResponse] makes for a message, with a window
    of at least one message and a configured current provider: the
    model is that of the chosen provider, and the messages are the
    system prompt of the user's settings, then the newest
    [maxHistoryLength - 1] stored messages of the user's conversation,
    then the new message with the quoted text in front of it.  The reply
    is the model's answer, or the error report when the call raises. *)
Theorem getResponse_request (l : LlmService.t) (u text : string)
    (quoted : option string) :
  1 ≤ LlmService.maxHistoryLength l →
  provider_ok l →
  ∃ p, LlmService.lookup_provider l (chosen_provider l u) = Some p
    ∧ ∀ complete,
        (LlmService.getResponse complete l u text quoted).1
        = match complete (LlmService.model p)
                  (system_says
                     (or_default (Some (LlmService.systemPrompt (settings_of l u)))
                        (LlmService.defaultSystemPrompt l))
                   :: last_k (LlmService.maxHistoryLength l - 1)
                        (default [] (LlmService.conversations l !! u))
                   ++ [user_says (with_quote quoted text)]) with
          | Ok r => r
          | Throw e => llm_error e
          end.
Proof.
  intros HM Hok.
  destruct (getResponse_call (λ _ _, Ok "") l u text quoted Hok) as (p & Hp & _ & _).
  exists p. split; [done|]. intros complete.
  destruct (getResponse_call complete l u text quoted Hok) as (p' & Hp' & _ & ->).
  rewrite Hp in Hp'. injection Hp' as <-.
  rewrite call_messages_shape by done.
  by destruct (complete _ _).
Qed.

(** The theorem on a stored exchange and a quoted text, with a model that
    answers with its name and the last message it is given. *)
Lemma getResponse_request_witness :
  let l := LlmService.set_conversations
             {[ "u" := [user_says "a"; assistant_says "b"] ]}
             (MessageService.llmService MessageService.demo) in
  let complete (mo : string) (ms : list LlmService.ChatMessage) :=
    Ok (mo +:+ ": " +:+ LlmService.content (List.last ms (system_says ""))) in
  (LlmService.getResponse complete l "u" "hi" (Some "q")).1
  = "gpt-4o: (In response to: " +:+ dq +:+ "q" +:+ dq +:+ ")" +:+ nl +:+ nl +:+ "hi".
Proof.
  intros l complete.
  destruct (getResponse_request l "u" "hi" (Some "q")) as (p & Hp & Hreq);
    [simpl; lia|eexists; split; reflexivity|].
  rewrite Hreq. vm_compute in Hp. injection Hp as <-. reflexivity.
Defined.

(** ** The chat side: [MessageService] over [LlmService] *)

Section Exchange.

Import LlmService.

Lemma update_chain (l : t) (u : string) (m : ChatMessage) (xs : list ChatMessage) :
  0 ≤ maxHistoryLength l →
  conversations l !! u = Some (last_k (2 * maxHistoryLength l) xs) →
  conversations (updateConversationHistory l u m) !! u
  = Some (last_k (2 * maxHistoryLength l) (xs ++ [m])).
Proof.
  intros HM Hc. rewrite updateConversationHistory_lookup, Hc. simpl.
  rewrite Z.max_r by lia. by rewrite last_k_snoc by lia.
Qed.

Lemma handleMessage_chat (complete : string → list ChatMessage → res string)
    (m : MessageService.t) (sender text : string) (quoted : option string) :
  MessageService.prefixCommands m
  && Js.startsWith text (MessageService.commandPrefix m) = false →
  MessageService.handleMessage complete m sender text quoted
  = let rl := getResponse complete (MessageService.llmService m) sender text quoted in
    MessageService.sendMessage sender rl.1
      (MessageService.set_llmService
         (updateConversationHistory
            (updateConversationHistory rl.2 sender (user_says text))
            sender (assistant_says rl.1)) m).
Proof.
  intros Hc. unfold MessageService.handleMessage. rewrite Hc.
  by destruct (getResponse complete (MessageService.llmService m) sender text quoted).
Qed.

Lemma provider_ok_same (l l' : t) :
  providers l' = providers l → currentProvider l' = currentProvider l →
  provider_ok l → provider_ok l'.
Proof.
  unfold provider_ok, lookup_provider. by intros -> ->.
Qed.

Lemma capped_same (l l' : t) :
  conversations l' = conversations l → maxHistoryLength l' = maxHistoryLength l →
  capped l → capped l'.
Proof. unfold capped. by intros -> ->. Qed.

Lemma switchProvider_frame (l : t) (x : string) :
  providers (switchProvider l x).2 = providers l
  ∧ maxHistoryLength (switchProvider l x).2 = maxHistoryLength l
  ∧ conversations (switchProvider l x).2 = conversations l
  ∧ userSettings (switchProvider l x).2 = userSettings l
  ∧ currentProvider (switchProvider l x).2
    = (if configured l x then x else currentProvider l).
Proof.
  unfold switchProvider, configured.
  destruct (lookup_provider l x) as [p|]; [|done].
  by destruct (Js.truthy (apiKey p)).
Qed.

Lemma switchProvider_ok (l : t) (x : string) :
  provider_ok l → provider_ok (switchProvider l x).2.
Proof.
  intros Hok. destruct (switchProvider_frame l x) as (Hp & _ & _ & _ & Hc).
  apply provider_ok_configured. unfold configured, lookup_provider.
  rewrite Hp, Hc. fold (lookup_provider l).
  destruct (configured l x) eqn:Hx; [done|].
  by apply provider_ok_configured.
Qed.

Lemma switchProvider_capped (l : t) (x : string) :
  capped l → capped (switchProvider l x).2.
Proof.
  destruct (switchProvider_frame l x) as (_ & HM & Hc & _).
  by apply capped_same.
Qed.

Lemma getResponse_state (complete : string → list ChatMessage → res string)
    (l : t) (u text : string) (quoted : option string) :
  provider_ok l →
  let l' := (getResponse complete l u text quoted).2 in
  providers l' = providers l
  ∧ maxHistoryLength l' = maxHistoryLength l
  ∧ currentProvider l' = chosen_provider l u
  ∧ userSettings l' = <[u := settings_of l u]> (userSettings l)
  ∧ ∀ v, v ≠ u → conversations l' !! v = conversations l !! v.
Proof.
  intros Hok l'. subst l'.
  destruct (getResponse_call complete l u text quoted Hok) as (p & _ & _ & ->).
  destruct (complete _ _); simpl; split_and!; try done.
  all: intros v Hv; by rewrite ?lookup_insert_ne.
Qed.

Lemma getResponse_conversation (complete : string → list ChatMessage → res string)
    (l : t) (u text : string) (quoted : option string) :
  0 ≤ maxHistoryLength l → provider_ok l →
  let old := default [] (conversations l !! u) in
  let rl := getResponse complete l u text quoted in
  (∃ mo ms, complete mo ms = Ok rl.1
     ∧ conversations rl.2 !! u
       = Some (last_k (2 * maxHistoryLength l)
                 (old ++ [user_says text; assistant_says rl.1])))
  ∨ (∃ mo ms e, complete mo ms = Throw e ∧ rl.1 = llm_error e
       ∧ conversations rl.2 !! u
         = Some (last_k (2 * maxHistoryLength l) (old ++ [user_says text]))).
Proof.
  intros HM Hok old rl. subst rl.
  destruct (getResponse_call complete l u text quoted Hok) as (p & _ & _ & ->).
  pose proof (at_call_conversation l u text) as Hc.
  rewrite Z.max_r in Hc by lia. fold old in Hc.
  destruct (complete _ _) as [r|e] eqn:Hcall.
  - left. do 2 eexists. split; [exact Hcall|]. cbn [fst snd].
    rewrite (update_chain _ _ _ (old ++ [user_says text])) by done.
    by rewrite <- app_assoc.
  - right. do 3 eexists. split; [exact Hcall|]. by split.
Qed.

Lemma getResponse_ok (complete : string → list ChatMessage → res string)
    (l : t) (u text : string) (quoted : option string) :
  provider_ok l → provider_ok (getResponse complete l u text quoted).2.
Proof.
  intros Hok.
  destruct (getResponse_state complete l u text quoted Hok) as (Hp & _ & Hc & _).
  apply provider_ok_configured. unfold configured, lookup_provider.
  rewrite Hp, Hc. by apply chosen_provider_configured.
Qed.

End Exchange.

(** X18.  A message that is not a command, with a configured current
    provider: [handleMessage] sends the reply of [getResponse] to the
    sender, and the user's conversation holds the exchange twice.  When
    the model answers, the conversation gains the message, the answer,
    the message and the answer again; when the call raises, it gains the
    message twice and then the error report as the assistant's turn.  In
    both cases only the newest [2 * maxHistoryLength] entries are kept. *)
Theorem handleMessage_stores_the_exchange_twice
    (complete : string → list LlmService.ChatMessage → res string)
    (m : MessageService.t) (sender text : string) (quoted : option string) :
  0 ≤ LlmService.maxHistoryLength (MessageService.llmService m) →
  provider_ok (MessageService.llmService m) →
  MessageService.prefixCommands m
  && Js.startsWith text (MessageService.commandPrefix m) = false →
  let old := default [] (LlmService.conversations (MessageService.llmService m) !! sender) in
  let m' := MessageService.handleMessage complete m sender text quoted in
  ∃ reply stored,
    MessageService.sent m' = MessageService.sent m ++ [(sender, reply)]
    ∧ LlmService.conversations (MessageService.llmService m') !! sender
      = Some (last_k (2 * LlmService.maxHistoryLength (MessageService.llmService m))
                (old ++ stored))
    ∧ ((∃ mo ms, complete mo ms = Ok reply
          ∧ stored = [user_says text; assistant_says reply;
                      user_says text; assistant_says reply])
       ∨ (∃ mo ms e, complete mo ms = Throw e ∧ reply = llm_error e
            ∧ stored = [user_says text; user_says text; assistant_says reply])).
Proof.
  intros HM Hok Hchat old m'. subst m'.
  rewrite handleMessage_chat by done. cbv zeta.
  pose proof (getResponse_state complete _ sender text quoted Hok) as (_ & HM' & _).
  pose proof (getResponse_conversation complete _ sender text quoted HM Hok) as Hconv.
  cbv zeta in HM', Hconv. fold old in Hconv.
  set (rl := LlmService.getResponse complete (MessageService.llmService m)
               sender text quoted) in *.
  exists rl.1.
  destruct Hconv as [(mo & ms & Hcall & Hc)|(mo & ms & e & Hcall & Hr & Hc)].
  - exists [user_says text; assistant_says rl.1; user_says text; assistant_says rl.1].
    split_and!; [done| |left; by exists mo, ms].
    cbn [MessageService.llmService MessageService.sendMessage
         MessageService.set_llmService].
    rewrite <- HM' in Hc |- *.
    assert (HM2 : 0 ≤ LlmService.maxHistoryLength rl.2) by lia.
    pose proof (update_chain _ _ (user_says text) _ HM2 Hc) as Hc1.
    rewrite (update_chain
               (LlmService.updateConversationHistory rl.2 sender (user_says text))
               sender (assistant_says rl.1) _ HM2 Hc1).
    change (LlmService.maxHistoryLength
              (LlmService.updateConversationHistory rl.2 sender (user_says text)))
      with (LlmService.maxHistoryLength rl.2).
    by rewrite <- !app_assoc.
  - exists [user_says text; user_says text; assistant_says rl.1].
    split_and!; [done| |right; by exists mo, ms, e].
    cbn [MessageService.llmService MessageService.sendMessage
         MessageService.set_llmService].
    rewrite <- HM' in Hc |- *.
    assert (HM2 : 0 ≤ LlmService.maxHistoryLength rl.2) by lia.
    pose proof (update_chain _ _ (user_says text) _ HM2 Hc) as Hc1.
    rewrite (update_chain
               (LlmService.updateConversationHistory rl.2 sender (user_says text))
               sender (assistant_says rl.1) _ HM2 Hc1).
    change (LlmService.maxHistoryLength
              (LlmService.updateConversationHistory rl.2 sender (user_says text)))
      with (LlmService.maxHistoryLength rl.2).
    by rewrite <- !app_assoc.
Qed.

(** X19.  After [getResponse] for a user, the current provider is the one
    of the user's settings when that provider is in the table and has a
    key, and the one it was otherwise; it is configured again.  The
    user's settings are the ones stored before, or fresh ones with the
    default prompt and the provider that was current; the settings of
    the other users are not touched. *)
Theorem getResponse_provider
    (complete : string → list LlmService.ChatMessage → res string)
    (l : LlmService.t) (u text : string) (quoted : option string) :
  provider_ok l →
  let l' := (LlmService.getResponse complete l u text quoted).2 in
  let settings :=
    default {| LlmService.systemPrompt := LlmService.defaultSystemPrompt l;
               LlmService.provider := LlmService.currentProvider l |}
      (LlmService.userSettings l !! u) in
  LlmService.currentProvider l'
  = (if configured l (LlmService.provider settings)
     then LlmService.provider settings else LlmService.currentProvider l)
  ∧ provider_ok l'
  ∧ LlmService.userSettings l' !! u = Some settings
  ∧ ∀ v, v ≠ u → LlmService.userSettings l' !! v = LlmService.userSettings l !! v.
Proof.
  intros Hok l' settings.
  destruct (getResponse_state complete l u text quoted Hok)
    as (Hp & _ & Hc & Hs & _).
  fold l' in Hp, Hc, Hs. split_and!.
  - exact Hc.
  - by apply getResponse_ok.
  - rewrite Hs. by rewrite lookup_insert_eq.
  - intros v Hv. rewrite Hs. by rewrite lookup_insert_ne.
Qed.

Section Steps.

Import LlmService.

#[local] Ltac llm_kept Hok Hcap :=
  split_and!; [reflexivity|exact Hok|exact Hcap|by eexists].

Lemma capped_delete (l : t) (u : string) :
  capped l → capped (set_conversations (delete u (conversations l)) l).
Proof.
  intros Hl v hist Hv. simpl in Hv.
  apply lookup_delete_Some in Hv as [_ Hv]. by apply (Hl v).
Qed.

Lemma getResponse_capped (complete : string → list ChatMessage → res string)
    (l : t) (u text : string) (quoted : option string) :
  0 ≤ maxHistoryLength l → provider_ok l → capped l →
  capped (getResponse complete l u text quoted).2.
Proof.
  intros HM Hok Hcap.
  destruct (getResponse_call complete l u text quoted Hok) as (p & _ & _ & ->).
  destruct (complete _ _); cbn [snd];
    repeat (apply updateConversationHistory_capped; [simpl; lia|]);
    exact Hcap.
Qed.

Lemma handleProviderCommand_step (m : MessageService.t) (sender : string)
    (args : list string) :
  provider_ok (MessageService.llmService m) →
  capped (MessageService.llmService m) →
  let m' := MessageService.handleProviderCommand m sender args in
  maxHistoryLength (MessageService.llmService m')
  = maxHistoryLength (MessageService.llmService m)
  ∧ provider_ok (MessageService.llmService m')
  ∧ capped (MessageService.llmService m')
  ∧ ∃ reply, MessageService.sent m' = MessageService.sent m ++ [(sender, reply)].
Proof.
  intros Hok Hcap. unfold MessageService.handleProviderCommand.
  destruct (Js.toLowerCase <$> head args) as [[|c sub]|]; cbv zeta.
  1,3: destruct (lookup_provider _ _); llm_kept Hok Hcap.
  destruct (String.eqb _ "list"); [llm_kept Hok Hcap|].
  destruct (String.eqb _ "set"); [|llm_kept Hok Hcap].
  destruct (Js.toLowerCase <$> args !! 1%nat) as [[|c' id]|];
    [llm_kept Hok Hcap| |llm_kept Hok Hcap].
  cbn [getUserSettings].
  set (l1 := set_userSettings _ (set_userSettings _ _)).
  pose proof (switchProvider_frame l1 (String c' id)) as (_ & HM & _).
  pose proof (switchProvider_ok l1 (String c' id)) as Hok1.
  pose proof (switchProvider_capped l1 (String c' id)) as Hcap1.
  destruct (switchProvider l1 (String c' id)) as [result l2].
  cbn [snd] in *. split_and!; [exact HM|by apply Hok1|by apply Hcap1|by eexists].
Qed.

Lemma handleCommand_step (m : MessageService.t) (sender command : string) :
  provider_ok (MessageService.llmService m) →
  capped (MessageService.llmService m) →
  let m' := MessageService.handleCommand m sender command in
  maxHistoryLength (MessageService.llmService m')
  = maxHistoryLength (MessageService.llmService m)
  ∧ provider_ok (MessageService.llmService m')
  ∧ capped (MessageService.llmService m')
  ∧ ∃ reply, MessageService.sent m' = MessageService.sent m ++ [(sender, reply)].
Proof.
  intros Hok Hcap. unfold MessageService.handleCommand. cbv zeta.
  generalize (Js.split_ws (Js.trim command)). intros parts.
  generalize (Js.toLowerCase (default "" (head parts))). intros c.
  destruct (String.eqb c "help"); [llm_kept Hok Hcap|].
  destruct (String.eqb c "clear").
  { split_and!; [reflexivity|exact Hok|by apply capped_delete|by eexists]. }
  destruct (String.eqb c "ping"); [llm_kept Hok Hcap|].
  destruct (String.eqb c "provider"); [by apply handleProviderCommand_step|].
  destruct (String.eqb c "system"); [|llm_kept Hok Hcap].
  destruct (negb _); llm_kept Hok Hcap.
Qed.

Lemma handleMessage_step (complete : string → list ChatMessage → res string)
    (m : MessageService.t) (sender text : string) (quoted : option string) :
  0 ≤ maxHistoryLength (MessageService.llmService m) →
  provider_ok (MessageService.llmService m) →
  capped (MessageService.llmService m) →
  let m' := MessageService.handleMessage complete m sender text quoted in
  maxHistoryLength (MessageService.llmService m')
  = maxHistoryLength (MessageService.llmService m)
  ∧ provider_ok (MessageService.llmService m')
  ∧ capped (MessageService.llmService m')
  ∧ ∃ reply, MessageService.sent m' = MessageService.sent m ++ [(sender, reply)].
Proof.
  intros HM Hok Hcap.
  destruct (MessageService.prefixCommands m
            && Js.startsWith text (MessageService.commandPrefix m)) eqn:Hc.
  - unfold MessageService.handleMessage. rewrite Hc.
    by apply handleCommand_step.
  - rewrite handleMessage_chat by done. cbv zeta.
    pose proof (getResponse_state complete _ sender text quoted Hok)
      as (Hp & HM' & Hcur & _ & _).
    pose proof (getResponse_ok complete _ sender text quoted Hok) as Hok'.
    cbv zeta in Hp, HM', Hcur.
    set (rl := getResponse complete (MessageService.llmService m) sender text quoted)
      in *.
    cbn [MessageService.llmService MessageService.sendMessage
         MessageService.set_llmService MessageService.sent].
    split_and!; [done|by apply (provider_ok_same rl.2)| |by eexists].
    apply updateConversationHistory_capped; [simpl; lia|].
    apply updateConversationHistory_capped; [lia|].
    by apply getResponse_capped.
Qed.

Lemma handleMessage_reply (complete : string → list ChatMessage → res string)
    (m : MessageService.t) (sender text : string) (quoted : option string) :
  ∃ reply,
    MessageService.sent (MessageService.handleMessage complete m sender text quoted)
    = MessageService.sent m ++ [(sender, reply)].
Proof.
  destruct (MessageService.prefixCommands m
            && Js.startsWith text (MessageService.commandPrefix m)) eqn:Hc.
  - unfold MessageService.handleMessage. rewrite Hc.
    unfold MessageService.handleCommand, MessageService.handleProviderCommand.
    cbv zeta. repeat case_match; by eexists.
  - rewrite handleMessage_chat by done. by eexists.
Qed.

Lemma run_turns_snoc (turns : list Turn) (t : Turn) (m : MessageService.t) :
  run_turns (turns ++ [t]) m
  = MessageService.handleMessage t.1.1.1 (run_turns turns m) t.1.1.2 t.1.2 t.2.
Proof. unfold run_turns. by rewrite foldl_app. Qed.

Lemma run_turns_llm (turns : list Turn) (m : MessageService.t) :
  0 ≤ maxHistoryLength (MessageService.llmService m) →
  provider_ok (MessageService.llmService m) →
  capped (MessageService.llmService m) →
  maxHistoryLength (MessageService.llmService (run_turns turns m))
  = maxHistoryLength (MessageService.llmService m)
  ∧ provider_ok (MessageService.llmService (run_turns turns m))
  ∧ capped (MessageService.llmService (run_turns turns m)).
Proof.
  intros HM Hok Hcap.
  induction turns as [|t turns IH] using rev_ind; [done|].
  rewrite run_turns_snoc. destruct IH as (IHM & IHok & IHcap).
  destruct (handleMessage_step t.1.1.1 (run_turns turns m) t.1.1.2 t.1.2 t.2)
    as (HM' & Hok' & Hcap' & _); [lia|done|done|].
  split_and!; [congruence|done|done].
Qed.

End Steps.

(** X20.  From a service whose current provider is configured and whose
    conversations are within the cap, every sequence of messages through
    [handleMessage], commands and chat, leads to a service where that
    still holds: the current provider is in the table with a key, and no
    conversation is longer than [2 * maxHistoryLength]. *)
Theorem run_turns_invariants (turns : list Turn) (m : MessageService.t) :
  0 ≤ LlmService.maxHistoryLength (MessageService.llmService m) →
  provider_ok (MessageService.llmService m) →
  capped (MessageService.llmService m) →
  provider_ok (MessageService.llmService (run_turns turns m))
  ∧ ∀ u hist,
      LlmService.conversations (MessageService.llmService (run_turns turns m)) !! u
      = Some hist →
      Z.of_nat (List.length hist)
      ≤ 2 * LlmService.maxHistoryLength (MessageService.llmService m).
Proof.
  intros HM Hok Hcap.
  destruct (run_turns_llm turns m HM Hok Hcap) as (HM' & Hok' & Hcap').
  split; [done|]. intros u hist Hu. rewrite <- HM'. by apply (Hcap' u).
Qed.

(** X21.  Every message through [handleMessage] is answered with exactly
    one message, sent to the sender of that message: after a sequence of
    messages the recipients of what was sent are the senders, in order. *)
Theorem run_turns_one_reply_each (turns : list Turn) (m : MessageService.t) :
  (MessageService.sent (run_turns turns m)).*1
  = (MessageService.sent m).*1 ++ (turn_sender <$> turns).
Proof.
  induction turns as [|t turns IH] using rev_ind.
  - by rewrite app_nil_r.
  - rewrite run_turns_snoc.
    destruct (handleMessage_reply t.1.1.1 (run_turns turns m) t.1.1.2 t.1.2 t.2)
      as (reply & ->).
    rewrite !fmap_app, IH, <- app_assoc. done.
Qed.

(** X18 on the first message of a user, with a model that answers. *)
Lemma handleMessage_stores_the_exchange_twice_witness :
  let m' := MessageService.handleMessage (λ _ _, Ok "yo") MessageService.demo
              "u" "hi" None in
  LlmService.conversations (MessageService.llmService m') !! "u"
  = Some [user_says "hi"; assistant_says "yo"; user_says "hi"; assistant_says "yo"].
Proof.
  intros m'.
  destruct (handleMessage_stores_the_exchange_twice (λ _ _, Ok "yo")
              MessageService.demo "u" "hi" None)
    as (reply & stored & _ & Hc & Hcase);
    [simpl; lia|eexists; split; reflexivity|reflexivity|].
  fold m' in Hc. rewrite Hc.
  destruct Hcase as [(_ & _ & Hr & ->)|(_ & _ & e & He & _)]; [|discriminate].
  injection Hr as <-. reflexivity.
Defined.

(** X19 for a user whose settings name another configured provider. *)
Lemma getResponse_provider_witness :
  let l := LlmService.set_userSettings
             {[ "u" := {| LlmService.systemPrompt := "Be brief.";
                          LlmService.provider := "groq" |} ]}
             (LlmService.create (λ _, Some "key") "openai" 10) in
  LlmService.currentProvider l = "openai"
  ∧ LlmService.currentProvider
      (LlmService.getResponse (λ _ _, Ok "yo") l "u" "hi" None).2 = "groq".
Proof.
  intros l. split; [reflexivity|].
  destruct (getResponse_provider (λ _ _, Ok "yo") l "u" "hi" None) as (Hc & _);
    [eexists; split; reflexivity|].
  rewrite Hc. reflexivity.
Defined.

(** X20 on a chat message, a refused switch and a [clear]. *)
Lemma run_turns_invariants_witness :
  let turns : list Turn :=
    [(λ _ _, Ok "yo", "u", "hi", None);
     (λ _ _, Ok "yo", "u", "!provider set groq", None);
     (λ _ _, Throw (Error "down"), "v", "hello", Some "hi")] in
  provider_ok (MessageService.llmService (run_turns turns MessageService.demo)).
Proof.
  intros turns.
  apply (run_turns_invariants turns MessageService.demo);
    [simpl; lia|eexists; split; reflexivity|].
  intros u hist Hu. simpl in Hu. by rewrite lookup_empty in Hu.
Defined.

(** ** The commands of the chat side *)

Section Commands.

Import LlmService.

Lemma handleCommand_system (m : MessageService.t) (sender command : string) :
  Js.toLowerCase (default "" (head (Js.split_ws (Js.trim command)))) = "system" →
  MessageService.handleCommand m sender command
  = let promptText := Js.trim (Js.join_sp (tail (Js.split_ws (Js.trim command)))) in
    if negb (Js.truthy (Some promptText)) then
      MessageService.sendMessage sender
        ("Current system prompt: " +:+ dq
         +:+ systemPrompt (settings_of (MessageService.llmService m) sender) +:+ dq)
        (MessageService.set_llmService
           (getUserSettings (MessageService.llmService m) sender None).2 m)
    else
      MessageService.sendMessage sender "System prompt updated."
        (MessageService.set_llmService
           (updateSystemPrompt (MessageService.llmService m) sender promptText).2 m).
Proof.
  intros Hc. unfold MessageService.handleCommand. cbv zeta. rewrite Hc.
  change (String.eqb "system" "help") with false.
  change (String.eqb "system" "clear") with false.
  change (String.eqb "system" "ping") with false.
  change (String.eqb "system" "provider") with false.
  change (String.eqb "system" "system") with true.
  cbv iota. by destruct (negb _).
Qed.

Lemma handleCommand_clear (m : MessageService.t) (sender command : string) :
  Js.toLowerCase (default "" (head (Js.split_ws (Js.trim command)))) = "clear" →
  MessageService.handleCommand m sender command
  = MessageService.sendMessage sender "Conversation history cleared."
      (MessageService.set_llmService
         (set_conversations
            (delete sender (conversations (MessageService.llmService m)))
            (MessageService.llmService m)) m).
Proof.
  intros Hc. unfold MessageService.handleCommand. cbv zeta. rewrite Hc.
  change (String.eqb "clear" "help") with false.
  change (String.eqb "clear" "clear") with true.
  done.
Qed.

Lemma truthy_nonempty (s : string) : s ≠ "" → Js.truthy (Some s) = true.
Proof. by destruct s. Qed.

End Commands.

(** X22.  The [system] command with a prompt, in ASCII, stores the prompt
    in the sender's settings, with the white space between its words
    reduced to single spaces, keeps the provider of the settings, and answers
    that the prompt is updated; the [system] command without a prompt
    that follows answers with the stored prompt in quotes. *)
Theorem system_prompt_round_trip (m : MessageService.t) (sender command : string) :
  let parts := Js.split_ws (Js.trim command) in
  let prompt := Js.trim (Js.join_sp (tail parts)) in
  Js.is_ascii command = true →
  Js.toLowerCase (default "" (head parts)) = "system" →
  prompt ≠ "" →
  let m1 := MessageService.handleCommand m sender command in
  let m2 := MessageService.handleCommand m1 sender "system" in
  MessageService.sent m1 = MessageService.sent m ++ [(sender, "System prompt updated.")]
  ∧ LlmService.userSettings (MessageService.llmService m1) !! sender
    = Some {| LlmService.systemPrompt := prompt;
              LlmService.provider :=
                LlmService.provider (settings_of (MessageService.llmService m) sender) |}
  ∧ MessageService.sent m2
    = MessageService.sent m1
      ++ [(sender, "Current system prompt: " +:+ dq +:+ prompt +:+ dq)].
Proof.
  intros parts prompt _ Hc Hp m1 m2.
  assert (Hm1 : m1 = MessageService.sendMessage sender "System prompt updated."
            (MessageService.set_llmService
               (LlmService.updateSystemPrompt (MessageService.llmService m)
                  sender prompt).2 m)).
  { unfold m1. rewrite handleCommand_system by done. cbv zeta.
    fold parts. fold prompt. by rewrite truthy_nonempty. }
  assert (Hs : LlmService.userSettings (MessageService.llmService m1) !! sender
    = Some {| LlmService.systemPrompt := prompt;
              LlmService.provider :=
                LlmService.provider
                  (settings_of (MessageService.llmService m) sender) |}).
  { rewrite Hm1. unfold LlmService.updateSystemPrompt, settings_of.
    cbn. by rewrite !lookup_insert_eq. }
  split_and!; [by rewrite Hm1|done|].
  unfold m2. rewrite handleCommand_system by reflexivity.
  change (Js.trim (Js.join_sp (tail (Js.split_ws (Js.trim "system"))))) with "".
  cbn [negb Js.truthy]. cbv zeta iota.
  unfold settings_of. cbn. by rewrite Hs.
Qed.

(** The theorem on a prompt with a capital command word and runs of
    blanks. *)
Lemma system_prompt_round_trip_witness :
  let m1 := MessageService.handleCommand MessageService.demo "u"
              "SYSTEM  You   are a cat " in
  LlmService.systemPrompt <$> LlmService.userSettings (MessageService.llmService m1) !! "u"
  = Some "You are a cat".
Proof.
  intros m1.
  destruct (system_prompt_round_trip MessageService.demo "u" "SYSTEM  You   are a cat ")
    as (_ & Hs & _); [reflexivity|reflexivity|discriminate|].
  fold m1 in Hs. rewrite Hs. reflexivity.
Defined.

(** X23.  [provider set <id>], the id in ASCII, writes the lower-cased id
    into the sender's settings whether or not the switch is accepted,
    and keeps the prompt of the settings.  The current provider becomes the id when
    that provider is in the table and has a key and stays what it was
    otherwise; the reply is the message of [switchProvider]. *)
Theorem provider_set_stores_the_id (m : MessageService.t) (sender : string)
    (args : list string) (id : string) :
  Js.toLowerCase <$> head args = Some "set" →
  Js.toLowerCase <$> args !! 1%nat = Some id →
  Js.is_ascii id = true →
  id ≠ "" →
  let l := MessageService.llmService m in
  let m' := MessageService.handleProviderCommand m sender args in
  LlmService.userSettings (MessageService.llmService m') !! sender
  = Some {| LlmService.systemPrompt := LlmService.systemPrompt (settings_of l sender);
            LlmService.provider := id |}
  ∧ LlmService.currentProvider (MessageService.llmService m')
    = (if configured l id then id else LlmService.currentProvider l)
  ∧ MessageService.sent m'
    = MessageService.sent m ++ [(sender, (LlmService.switchProvider l id).1.2)].
Proof.
  intros Hset Hid _ Hne l m'. subst m'.
  unfold MessageService.handleProviderCommand. rewrite Hset, Hid.
  change (String.eqb "set" "list") with false.
  change (String.eqb "set" "set") with true. cbv iota.
  destruct id as [|c id]; [done|].
  cbn [LlmService.getUserSettings]. cbv zeta.
  set (l1 := LlmService.set_userSettings _ (LlmService.set_userSettings _ _)).
  assert (Hl1 : LlmService.userSettings l1 !! sender
    = Some {| LlmService.systemPrompt := LlmService.systemPrompt (settings_of l sender);
              LlmService.provider := String c id |}).
  { unfold l1, settings_of. cbn. by rewrite !lookup_insert_eq. }
  assert (Hsw : LlmService.switchProvider l1 (String c id)
    = ((LlmService.switchProvider l (String c id)).1,
       (LlmService.switchProvider l1 (String c id)).2)).
  { unfold LlmService.switchProvider.
    change (LlmService.lookup_provider l1) with (LlmService.lookup_provider l).
    change (LlmService.providers l1) with (LlmService.providers l).
    destruct (LlmService.lookup_provider l (String c id)) as [p|]; [|done].
    by destruct (Js.truthy (LlmService.apiKey p)). }
  destruct (switchProvider_frame l1 (String c id)) as (_ & _ & _ & Hu & Hcur).
  rewrite Hsw.
  cbn [MessageService.llmService MessageService.sendMessage
       MessageService.set_llmService MessageService.sent snd].
  rewrite Hu, Hcur. done.
Qed.

(** The theorem on a provider that has no key, and on an id that names a
    member every object inherits: in both the id is stored and the
    provider stays; the second is answered as a provider without a key. *)
Lemma provider_set_stores_the_id_witness :
  let m' := MessageService.handleProviderCommand MessageService.demo "u" ["SET"; "Groq"] in
  let m2 := MessageService.handleProviderCommand MessageService.demo "u"
              ["set"; "constructor"] in
  (LlmService.provider <$> LlmService.userSettings (MessageService.llmService m') !! "u"
   = Some "groq"
   ∧ LlmService.currentProvider (MessageService.llmService m') = "openai")
  ∧ MessageService.sent m2
    = [("u", "API key not configured for provider: Object. "
             +:+ "Please set the CONSTRUCTOR_API_KEY environment variable.")].
Proof.
  intros m' m2. split.
  - destruct (provider_set_stores_the_id MessageService.demo "u" ["SET"; "Groq"] "groq")
      as (Hs & Hc & _); [reflexivity|reflexivity|reflexivity|discriminate|].
    fold m' in Hs, Hc. rewrite Hs, Hc. split; reflexivity.
  - destruct (provider_set_stores_the_id MessageService.demo "u"
                ["set"; "constructor"] "constructor")
      as (_ & _ & Hr); [reflexivity|reflexivity|reflexivity|discriminate|].
    fold m2 in Hr. rewrite Hr. reflexivity.
Defined.

(** X24.  After the [clear] command of a user, the request for the next
    message of that user holds the system prompt and the new message
    only; the conversations of the other users are kept. *)
Theorem clear_forgets_the_conversation (m : MessageService.t)
    (sender command text : string) (quoted : option string) :
  Js.toLowerCase (default "" (head (Js.split_ws (Js.trim command)))) = "clear" →
  1 ≤ LlmService.maxHistoryLength (MessageService.llmService m) →
  provider_ok (MessageService.llmService m) →
  let l := MessageService.llmService m in
  let m1 := MessageService.handleCommand m sender command in
  MessageService.sent m1
  = MessageService.sent m ++ [(sender, "Conversation history cleared.")]
  ∧ (∀ v, v ≠ sender →
       LlmService.conversations (MessageService.llmService m1) !! v
       = LlmService.conversations l !! v)
  ∧ ∃ p, LlmService.lookup_provider l (chosen_provider l sender) = Some p
      ∧ ∀ complete,
          (LlmService.getResponse complete (MessageService.llmService m1)
             sender text quoted).1
          = match complete (LlmService.model p)
                    [system_says
                       (or_default
                          (Some (LlmService.systemPrompt (settings_of l sender)))
                          (LlmService.defaultSystemPrompt l));
                     user_says (with_quote quoted text)] with
            | Ok r => r
            | Throw e => llm_error e
            end.
Proof.
  intros Hc HM Hok l m1. subst m1. rewrite handleCommand_clear by done.
  cbn [MessageService.llmService MessageService.sendMessage
       MessageService.set_llmService MessageService.sent].
  set (l1 := LlmService.set_conversations _ _).
  split_and!; [done| |].
  - intros v Hv. unfold l1. simpl. by rewrite lookup_delete_ne.
  - assert (Hok1 : provider_ok l1) by exact Hok.
    destruct (getResponse_call (λ _ _, Ok "") l1 sender text quoted Hok1)
      as (p & Hp & _ & _).
    exists p. split; [exact Hp|]. intros complete.
    destruct (getResponse_call complete l1 sender text quoted Hok1)
      as (p' & Hp' & _ & ->).
    rewrite Hp in Hp'. injection Hp' as <-.
    rewrite call_messages_shape by exact HM.
    assert (Hnone : LlmService.conversations l1 !! sender = None)
      by (unfold l1; simpl; by rewrite lookup_delete_eq).
    rewrite Hnone. cbn [default].
    unfold last_k at 1. rewrite drop_nil.
    by destruct (complete _ _).
Qed.

(** X24 on a stored exchange, with a model that answers with the number
    of messages it is given. *)
Lemma clear_forgets_the_conversation_witness :
  let m := MessageService.set_llmService
             (LlmService.set_conversations
                {[ "u" := [user_says "a"; assistant_says "b"] ]}
                (MessageService.llmService MessageService.demo))
             MessageService.demo in
  let complete (mo : string) (ms : list LlmService.ChatMessage) :=
    Ok (pretty (List.length ms)) in
  (LlmService.getResponse complete (MessageService.llmService m) "u" "hi" None).1 = "4"
  ∧ (LlmService.getResponse complete
       (MessageService.llmService (MessageService.handleCommand m "u" " Clear "))
       "u" "hi" None).1 = "2".
Proof.
  intros m complete. split; [reflexivity|].
  destruct (clear_forgets_the_conversation m "u" " Clear " "hi" None)
    as (_ & _ & p & _ & Hreq);
    [reflexivity|simpl; lia|eexists; split; reflexivity|].
  rewrite Hreq. reflexivity.
Defined.
